(** * Collaborative canvas server: rooms, stroke timelines and undo/redo

    A shallow embedding of the server side of the collaborative canvas
    ([server/drawing-state.js], [server/rooms.js] and the socket handlers of
    [server/server.js]) together with the properties of the room registry and
    of the per-room stroke timeline.

    Modelling conventions.
    - A JavaScript [Map] is a [gmap]; the [Set] of socket ids of a room is an
      insertion-ordered list without duplicates (the order is observable
      through [getRoomUsers]); the [Set] of used colours is a [gset].
    - A method that mutates [this] takes the manager and returns the result
      paired with the new manager.  A room state object is referenced only
      from [roomStates], and a stroke object only from one timeline or one
      undo stack, so a mutation in place is a write-back at its key or index.
    - [Date.now()] and [Math.random()] are inputs of the operation that reads
      them.
    - A [TypeError] (a method called on [undefined], a field destructured
      from [undefined] or [null]) is the result [None].
    - Counters are unbounded naturals (the source counts in doubles).

    The client side is embedded as far as it keeps strokes: the history of
    [client/canvas.js] without the pixels, and of [client/main.js] the
    display name of a user and what the socket handlers do to the canvas
    manager. *)

From Stdlib Require Import Ascii.
From stdpp Require Import gmap strings list fin_maps pretty.

(** ** JavaScript values that the server only carries around *)

Inductive jsval :=
| JUndefined
| JNull
| JBool (b : bool)
| JNum (n : Z)
| JStr (s : string).

Definition truthy (v : jsval) : bool :=
  match v with
  | JUndefined | JNull => false
  | JBool b => b
  | JNum n => negb (n =? 0)%Z
  | JStr s => negb (String.eqb s "")
  end.

(** [a || b] *)
Definition js_or (a b : jsval) : jsval := if truthy a then a else b.

(** [!s] for a string-valued payload field *)
Definition falsy_str (s : string) : bool := String.eqb s "".

Module Point.
Record t := mk { x : jsval; y : jsval }.
End Point.

Module Stroke.
Record t := mk {
  id : string;
  userId : string;
  timestamp : jsval;
  type : jsval;
  color : jsval;
  size : jsval;
  path : list Point.t
}.
End Stroke.

(** The [strokeData] argument of [addStroke]. *)
Module StrokeData.
Record t := mk {
  userId : string;
  timestamp : jsval;
  type : jsval;
  color : jsval;
  size : jsval;
  path : list Point.t
}.
End StrokeData.

(** [{ strokes: Array, undoStacks: Map<userId, Array> }] *)
Record RoomState := mkRoomState {
  strokes : list Stroke.t;
  undoStacks : gmap string (list Stroke.t)
}.

(** The object returned by [getFullState]. *)
Record FullState := mkFullState {
  fs_roomId : string;
  fs_strokes : list Stroke.t
}.

(** ** [class DrawingStateManager] *)

Module DrawingStateManager.

Record t := mk {
  roomStates : gmap string RoomState;
  strokeIdCounter : N
}.

(** [constructor()] *)
Definition new : t := mk ∅ 0.

(** [_getRoomState(roomId)]: get or create. *)
Definition _getRoomState (roomId : string) (m : t) : RoomState * t :=
  match roomStates m !! roomId with
  | Some rs => (rs, m)
  | None =>
      let rs := mkRoomState [] ∅ in
      (rs, mk (<[roomId := rs]> (roomStates m)) (strokeIdCounter m))
  end.

(** The template string [`stroke_${n}_${now}`]. *)
Definition strokeIdOf (n : N) (now : Z) : string :=
  "stroke_" +:+ pretty n +:+ "_" +:+ pretty now.

(** [_generateStrokeId()]: [++this.strokeIdCounter], then [Date.now()]. *)
Definition _generateStrokeId (now : Z) (m : t) : string * t :=
  let n := (strokeIdCounter m + 1)%N in
  (strokeIdOf n now, mk (roomStates m) n).

(** [addStroke(roomId, strokeData)].  [now_id] is the clock read by
    [_generateStrokeId], [now_ts] the one read when [strokeData.timestamp]
    is falsy. *)
Definition addStroke (roomId : string) (strokeData : StrokeData.t)
    (now_id now_ts : Z) (m : t) : Stroke.t * t :=
  let '(roomState, m1) := _getRoomState roomId m in
  let '(sid, m2) := _generateStrokeId now_id m1 in
  let stroke :=
    Stroke.mk sid
      (StrokeData.userId strokeData)
      (js_or (StrokeData.timestamp strokeData) (JNum now_ts))
      (js_or (StrokeData.type strokeData) (JStr "draw"))
      (StrokeData.color strokeData)
      (StrokeData.size strokeData)
      (StrokeData.path strokeData) in
  let roomState' :=
    mkRoomState (strokes roomState ++ [stroke])
      (delete (StrokeData.userId strokeData) (undoStacks roomState)) in
  (stroke, mk (<[roomId := roomState']> (roomStates m2)) (strokeIdCounter m2)).

(** [stroke.path.push({ x, y })] *)
Definition pushPoint (s : Stroke.t) (p : Point.t) : Stroke.t :=
  Stroke.mk (Stroke.id s) (Stroke.userId s) (Stroke.timestamp s)
    (Stroke.type s) (Stroke.color s) (Stroke.size s) (Stroke.path s ++ [p]).

(** [updateStroke(roomId, strokeId, x, y)] *)
Definition updateStroke (roomId strokeId : string) (px py : jsval) (m : t)
    : bool * t :=
  match roomStates m !! roomId with
  | None => (false, m)
  | Some roomState =>
      match list_find (λ s, Stroke.id s = strokeId) (strokes roomState) with
      | None => (false, m)
      | Some (i, stroke) =>
          let roomState' :=
            mkRoomState
              (<[i := pushPoint stroke (Point.mk px py)]> (strokes roomState))
              (undoStacks roomState) in
          (true, mk (<[roomId := roomState']> (roomStates m))
                    (strokeIdCounter m))
      end
  end.

(** [finalizeStroke(roomId, strokeId)]: the body is empty. *)
Definition finalizeStroke (roomId strokeId : string) (m : t) : t := m.

(** The loop of [undo]: [for (i = n - 1; i >= 0; i--)], stopping at the
    first stroke of [userId]; [None] is [lastUserStrokeIndex === -1]. *)
Fixpoint lastUserStrokeIndex (userId : string) (l : list Stroke.t) (n : nat)
    : option nat :=
  match n with
  | 0 => None
  | S i =>
      match l !! i with
      | Some s =>
          if decide (Stroke.userId s = userId) then Some i
          else lastUserStrokeIndex userId l i
      | None => lastUserStrokeIndex userId l i
      end
  end.

(** [undo(roomId, userId)] *)
Definition undo (roomId userId : string) (m : t) : option Stroke.t * t :=
  match roomStates m !! roomId with
  | None => (None, m)
  | Some roomState =>
      let l := strokes roomState in
      match lastUserStrokeIndex userId l (length l) with
      | None => (None, m)
      | Some i =>
          match l !! i with
          | None => (None, m)
          | Some undoneStroke =>
              let stack := default [] (undoStacks roomState !! userId) in
              let roomState' :=
                mkRoomState (delete i l)
                  (<[userId := stack ++ [undoneStroke]]>
                     (undoStacks roomState)) in
              (Some undoneStroke,
               mk (<[roomId := roomState']> (roomStates m))
                  (strokeIdCounter m))
          end
      end
  end.

(** [redo(roomId, userId)] *)
Definition redo (roomId userId : string) (m : t) : option Stroke.t * t :=
  match roomStates m !! roomId with
  | None => (None, m)
  | Some roomState =>
      match undoStacks roomState !! userId with
      | None => (None, m)
      | Some undoStack =>
          match last undoStack with
          | None => (None, m)
          | Some redoneStroke =>
              let undoStack' := take (pred (length undoStack)) undoStack in
              let stacks' :=
                if decide (length undoStack' = 0)
                then delete userId (undoStacks roomState)
                else <[userId := undoStack']> (undoStacks roomState) in
              let roomState' :=
                mkRoomState (strokes roomState ++ [redoneStroke]) stacks' in
              (Some redoneStroke,
               mk (<[roomId := roomState']> (roomStates m))
                  (strokeIdCounter m))
          end
      end
  end.

(** The copy made of each stroke by [getFullState]. *)
Definition snapshot (stroke : Stroke.t) : Stroke.t :=
  Stroke.mk (Stroke.id stroke) (Stroke.userId stroke)
    (Stroke.timestamp stroke) (Stroke.type stroke) (Stroke.color stroke)
    (Stroke.size stroke) (Stroke.path stroke).

(** [getFullState(roomId)]; the manager is returned as the method leaves
    it. *)
Definition getFullState (roomId : string) (m : t) : FullState * t :=
  match roomStates m !! roomId with
  | None => (mkFullState roomId [], m)
  | Some roomState =>
      (mkFullState roomId (snapshot <$> strokes roomState), m)
  end.

(** [clearRoom(roomId)] *)
Definition clearRoom (roomId : string) (m : t) : t :=
  mk (delete roomId (roomStates m)) (strokeIdCounter m).

End DrawingStateManager.

(** ** [class RoomManager] *)

Module User.
Record t := mk {
  userId : string;
  socketId : string;
  roomId : string;
  color : string
}.
End User.

(** Predefined colour palette for users. *)
Definition USER_COLORS : list string :=
  [ "#FF6B6B"; "#4ECDC4"; "#45B7D1"; "#FFA07A"; "#98D8C8";
    "#F7DC6F"; "#BB8FCE"; "#85C1E2"; "#F8B739"; "#52BE80" ].

Module RoomManager.

Record t := mk {
  users : gmap string User.t;
  rooms : gmap string (list string);
  roomColors : gmap string (gset string);
  userIdCounter : N
}.

(** [constructor()] *)
Definition new : t := mk ∅ ∅ ∅ 0.

(** [Set.prototype.add] and [Set.prototype.delete] on the socket ids of a
    room, kept in insertion order. *)
Definition set_add (s : string) (l : list string) : list string :=
  if decide (s ∈ l) then l else l ++ [s].

Definition set_delete (s : string) (l : list string) : list string :=
  filter (λ x, x ≠ s) l.

(** The template string [`user_${n}_${now}`]. *)
Definition userIdOf (n : N) (now : Z) : string :=
  "user_" +:+ pretty n +:+ "_" +:+ pretty now.

(** [USER_COLORS.find(color => !usedColors.has(color))] *)
Definition firstFreeColor (usedColors : gset string) : option string :=
  snd <$> list_find (λ c, c ∉ usedColors) USER_COLORS.

(** The colour given to a new user: the first free one and, when the find
    returns [undefined], [USER_COLORS[rnd]].  [rnd] is
    [Math.floor(Math.random() * USER_COLORS.length)], an index of the
    palette since [Math.random()] lies in [0, 1). *)
Definition assignColor (usedColors : gset string)
    (rnd : fin (length USER_COLORS)) : string :=
  match firstFreeColor usedColors with
  | Some c => c
  | None => USER_COLORS !!! fin_to_nat rnd
  end.

(** [addUser(socketId, roomId)] *)
Definition addUser (socketId roomId : string) (now : Z)
    (rnd : fin (length USER_COLORS)) (m : t) : option (User.t * t) :=
  let n := (userIdCounter m + 1)%N in
  let userId := userIdOf n now in
  let '(rooms1, roomColors1) :=
    match rooms m !! roomId with
    | Some _ => (rooms m, roomColors m)
    | None => (<[roomId := []]> (rooms m), <[roomId := ∅]> (roomColors m))
    end in
  usedColors ← roomColors1 !! roomId;
  let assignedColor := assignColor usedColors rnd in
  let roomColors2 :=
    <[roomId := {[assignedColor]} ∪ usedColors]> roomColors1 in
  let user := User.mk userId socketId roomId assignedColor in
  let users' := <[socketId := user]> (users m) in
  roomSockets ← rooms1 !! roomId;
  Some (user,
        mk users' (<[roomId := set_add socketId roomSockets]> rooms1)
           roomColors2 n).

(** [removeUser(socketId)] *)
Definition removeUser (socketId : string) (m : t) : option t :=
  match users m !! socketId with
  | None => Some m
  | Some user =>
      let roomId := User.roomId user in
      let color := User.color user in
      match rooms m !! roomId with
      | Some roomSockets =>
          let roomSockets' := set_delete socketId roomSockets in
          if decide (length roomSockets' = 0) then
            Some (mk (delete socketId (users m))
                     (delete roomId (rooms m))
                     (delete roomId (roomColors m))
                     (userIdCounter m))
          else
            usedColors ← roomColors m !! roomId;
            Some (mk (delete socketId (users m))
                     (<[roomId := roomSockets']> (rooms m))
                     (<[roomId := usedColors ∖ {[color]}]> (roomColors m))
                     (userIdCounter m))
      | None =>
          Some (mk (delete socketId (users m)) (rooms m) (roomColors m)
                   (userIdCounter m))
      end
  end.

(** [getUser(socketId)]; [None] is [null]. *)
Definition getUser (socketId : string) (m : t) : option User.t :=
  users m !! socketId.

(** [getRoomUserCount(roomId)] *)
Definition getRoomUserCount (roomId : string) (m : t) : nat :=
  match rooms m !! roomId with
  | Some roomSockets => length roomSockets
  | None => 0
  end.

(** [getRoomUsers(roomId)]: the users of the room's sockets, the sockets
    without a user filtered out. *)
Definition getRoomUsers (roomId : string) (m : t) : list User.t :=
  match rooms m !! roomId with
  | None => []
  | Some roomSockets => omap (λ socketId, users m !! socketId) roomSockets
  end.

End RoomManager.

(** ** The socket handlers of the server *)

Module Server.

(** [socket.emit], [io.to(roomId).emit] and [socket.to(roomId).emit]. *)
Inductive target :=
| ToSender
| ToRoom (roomId : string)
| ToRoomExceptSender (roomId : string).

Inductive message :=
| MError (text : string)
| MUserInfo (userId color : string)
| MExistingUsers (l : list (string * string))
| MUserJoined (userId color : string) (totalUsers : nat)
| MFullStateSync (fs : FullState)
| MStrokeStart (stroke : Stroke.t) (roomId : string)
| MStrokeUpdate (roomId strokeId : string) (px py : jsval)
| MStrokeEnd (roomId strokeId : string)
| MCursorMove (roomId userId color : string) (px py : jsval)
| MUndo (roomId userId strokeId : string)
| MRedo (roomId userId : string) (stroke : Stroke.t)
| MUserLeft (userId : string) (totalUsers : nat).

Definition emission : Type := target * message.

(** The two managers created at start-up. *)
Record t := mk {
  roomManager : RoomManager.t;
  drawingStateManager : DrawingStateManager.t
}.

Definition new : t := mk RoomManager.new DrawingStateManager.new.

(** [socket.on('join-room')].  The subscription [socket.join(roomId)]
    belongs to the transport and is not part of the state. *)
Definition on_join_room (socketId roomId : string) (now : Z)
    (rnd : fin (length USER_COLORS)) (st : t) : option (list emission * t) :=
  if falsy_str roomId then
    Some ([(ToSender, MError "Room ID is required")], st)
  else
    '(user, rm) ← RoomManager.addUser socketId roomId now rnd (roomManager st);
    let existingUsers :=
      filter (λ u, User.userId u ≠ User.userId user)
        (RoomManager.getRoomUsers roomId rm) in
    let '(fullState, dsm) :=
      DrawingStateManager.getFullState roomId (drawingStateManager st) in
    Some ([ (ToSender, MUserInfo (User.userId user) (User.color user));
            (ToSender,
             MExistingUsers
               ((λ u, (User.userId u, User.color u)) <$> existingUsers));
            (ToRoomExceptSender roomId,
             MUserJoined (User.userId user) (User.color user)
               (RoomManager.getRoomUserCount roomId rm));
            (ToSender, MFullStateSync fullState) ],
          mk rm dsm).

(** [socket.on('stroke-start')]; [now_h] is the clock read by the handler,
    [now_id] and [now_ts] the ones read inside [addStroke]. *)
Definition on_stroke_start (socketId roomId : string)
    (px py color size type : jsval) (now_h now_id now_ts : Z) (st : t)
    : list emission * t :=
  if falsy_str roomId then ([], st)
  else
    match RoomManager.getUser socketId (roomManager st) with
    | None => ([], st)
    | Some user =>
        let '(stroke, dsm) :=
          DrawingStateManager.addStroke roomId
            (StrokeData.mk (User.userId user) (JNum now_h)
               (js_or type (JStr "draw")) color size [Point.mk px py])
            now_id now_ts (drawingStateManager st) in
        ([(ToRoom roomId, MStrokeStart stroke roomId)],
         mk (roomManager st) dsm)
    end.

(** [socket.on('stroke-update')] *)
Definition on_stroke_update (roomId strokeId : string) (px py : jsval)
    (st : t) : list emission * t :=
  if falsy_str roomId || falsy_str strokeId then ([], st)
  else
    let '(updated, dsm) :=
      DrawingStateManager.updateStroke roomId strokeId px py
        (drawingStateManager st) in
    if updated then
      ([(ToRoom roomId, MStrokeUpdate roomId strokeId px py)],
       mk (roomManager st) dsm)
    else ([], mk (roomManager st) dsm).

(** [socket.on('stroke-end')] *)
Definition on_stroke_end (roomId strokeId : string) (st : t)
    : list emission * t :=
  if falsy_str roomId || falsy_str strokeId then ([], st)
  else
    let dsm :=
      DrawingStateManager.finalizeStroke roomId strokeId
        (drawingStateManager st) in
    ([(ToRoom roomId, MStrokeEnd roomId strokeId)], mk (roomManager st) dsm).

(** [socket.on('cursor-move')] *)
Definition on_cursor_move (socketId roomId : string) (px py : jsval) (st : t)
    : list emission * t :=
  if falsy_str roomId then ([], st)
  else
    match RoomManager.getUser socketId (roomManager st) with
    | None => ([], st)
    | Some user =>
        ([(ToRoomExceptSender roomId,
           MCursorMove roomId (User.userId user) (User.color user) px py)],
         st)
    end.

(** [socket.on('undo')] *)
Definition on_undo (socketId roomId : string) (st : t) : list emission * t :=
  if falsy_str roomId then ([], st)
  else
    match RoomManager.getUser socketId (roomManager st) with
    | None => ([], st)
    | Some user =>
        let '(undoneStroke, dsm) :=
          DrawingStateManager.undo roomId (User.userId user)
            (drawingStateManager st) in
        match undoneStroke with
        | Some s =>
            ([(ToRoom roomId,
               MUndo roomId (User.userId user) (Stroke.id s))],
             mk (roomManager st) dsm)
        | None => ([], mk (roomManager st) dsm)
        end
    end.

(** [socket.on('redo')] *)
Definition on_redo (socketId roomId : string) (st : t) : list emission * t :=
  if falsy_str roomId then ([], st)
  else
    match RoomManager.getUser socketId (roomManager st) with
    | None => ([], st)
    | Some user =>
        let '(redoneStroke, dsm) :=
          DrawingStateManager.redo roomId (User.userId user)
            (drawingStateManager st) in
        match redoneStroke with
        | Some s =>
            ([(ToRoom roomId, MRedo roomId (User.userId user) s)],
             mk (roomManager st) dsm)
        | None => ([], mk (roomManager st) dsm)
        end
    end.

(** [socket.on('disconnect')] *)
Definition on_disconnect (socketId : string) (st : t)
    : option (list emission * t) :=
  match RoomManager.getUser socketId (roomManager st) with
  | None => Some ([], st)
  | Some user =>
      let roomId := User.roomId user in
      rm ← RoomManager.removeUser socketId (roomManager st);
      Some ([(ToRoomExceptSender roomId,
              MUserLeft (User.userId user)
                (RoomManager.getRoomUserCount roomId rm))],
            mk rm (drawingStateManager st))
  end.

End Server.

(** ** Sequences of operations on the drawing state *)

Inductive dsm_op :=
| AddStroke (roomId : string) (strokeData : StrokeData.t) (now_id now_ts : Z)
| UpdateStroke (roomId strokeId : string) (px py : jsval)
| FinalizeStroke (roomId strokeId : string)
| Undo (roomId userId : string)
| Redo (roomId userId : string)
| GetFullState (roomId : string)
| ClearRoom (roomId : string).

Definition dsm_step (m : DrawingStateManager.t) (o : dsm_op)
    : DrawingStateManager.t :=
  match o with
  | AddStroke r d t1 t2 => (DrawingStateManager.addStroke r d t1 t2 m).2
  | UpdateStroke r i px py => (DrawingStateManager.updateStroke r i px py m).2
  | FinalizeStroke r i => DrawingStateManager.finalizeStroke r i m
  | Undo r u => (DrawingStateManager.undo r u m).2
  | Redo r u => (DrawingStateManager.redo r u m).2
  | GetFullState r => (DrawingStateManager.getFullState r m).2
  | ClearRoom r => DrawingStateManager.clearRoom r m
  end.

Definition dsm_run (ops : list dsm_op) (m : DrawingStateManager.t)
    : DrawingStateManager.t :=
  foldl dsm_step m ops.

(** The active timeline of a room; empty when the room has no state. *)
Definition timeline (roomId : string) (m : DrawingStateManager.t)
    : list Stroke.t :=
  match DrawingStateManager.roomStates m !! roomId with
  | Some rs => strokes rs
  | None => []
  end.

(** The places of a room state that hold strokes. *)
Inductive container :=
| Timeline
| UndoStack (userId : string).

Global Instance container_eq_dec : EqDecision container.
Proof. solve_decision. Defined.

Definition held (rs : RoomState) (c : container) : list Stroke.t :=
  match c with
  | Timeline => strokes rs
  | UndoStack u => default [] (undoStacks rs !! u)
  end.

(** The stroke at index [i] of container [c] of room [roomId]. *)
Definition stroke_at (m : DrawingStateManager.t) (roomId : string)
    (c : container) (i : nat) : option Stroke.t :=
  rs ← DrawingStateManager.roomStates m !! roomId; held rs c !! i.

(** The strokes held by container [c] of room [roomId]; none when the
    room has no state. *)
Definition held_by (roomId : string) (c : container)
    (m : DrawingStateManager.t) : list Stroke.t :=
  match DrawingStateManager.roomStates m !! roomId with
  | Some rs => held rs c
  | None => []
  end.

(** An operation that is not an action of [userId] in room [roomId]:
    what other users do, in this room or elsewhere. *)
Definition foreign (roomId userId : string) (o : dsm_op) : Prop :=
  match o with
  | AddStroke _ d _ _ => StrokeData.userId d ≠ userId
  | Undo _ u | Redo _ u => u ≠ userId
  | ClearRoom r => r ≠ roomId
  | UpdateStroke _ _ _ _ | FinalizeStroke _ _ | GetFullState _ => True
  end.

(** ** Sequences of joins and leaves on the registry *)

Inductive rm_op :=
| Join (socketId roomId : string) (now : Z) (rnd : fin (length USER_COLORS))
| Leave (socketId : string).

Definition rm_step (m : RoomManager.t) (o : rm_op) : option RoomManager.t :=
  match o with
  | Join s r now rnd => snd <$> RoomManager.addUser s r now rnd m
  | Leave s => RoomManager.removeUser s m
  end.

Fixpoint rm_run (ops : list rm_op) (m : RoomManager.t)
    : option RoomManager.t :=
  match ops with
  | [] => Some m
  | o :: ops' => m' ← rm_step m o; rm_run ops' m'
  end.

(** Every join of the sequence is made by a connection that has no user
    at that time. *)
Fixpoint fresh_joins (ops : list rm_op) (m : RoomManager.t) : Prop :=
  match ops with
  | [] => True
  | o :: ops' =>
      match o with
      | Join s _ _ _ => RoomManager.users m !! s = None
      | Leave _ => True
      end
      ∧ match rm_step m o with
        | Some m' => fresh_joins ops' m'
        | None => True
        end
  end.

(** The member count of [roomId] stays within the palette size all along
    the sequence. *)
Fixpoint within_palette (roomId : string) (ops : list rm_op)
    (m : RoomManager.t) : Prop :=
  RoomManager.getRoomUserCount roomId m ≤ length USER_COLORS
  ∧ match ops with
    | [] => True
    | o :: ops' =>
        match rm_step m o with
        | Some m' => within_palette roomId ops' m'
        | None => True
        end
    end.

(** The colours of the members of a room, in membership order. *)
Definition member_colors (roomId : string) (m : RoomManager.t) : list string :=
  User.color <$> RoomManager.getRoomUsers roomId m.

(** The socket ids and the used colours of a room; empty when the
    registry has no such room. *)
Definition room_members (roomId : string) (m : RoomManager.t) : list string :=
  default [] (RoomManager.rooms m !! roomId).

Definition room_used (roomId : string) (m : RoomManager.t) : gset string :=
  default ∅ (RoomManager.roomColors m !! roomId).

Definition colors_of (users : gmap string User.t) (l : list string)
    : list string :=
  User.color <$> omap (λ socketId, users !! socketId) l.

(** The registry is consistent: a room lists a socket once, the sockets of
    a room are those of the users registered in it, and a room has a set
    of used colours exactly when it has members. *)
Record rm_inv (m : RoomManager.t) : Prop := mkRmInv {
  rm_nodup : ∀ R l, RoomManager.rooms m !! R = Some l → NoDup l;
  rm_member_user : ∀ R l s,
    RoomManager.rooms m !! R = Some l → s ∈ l →
    ∃ u, RoomManager.users m !! s = Some u ∧ User.roomId u = R;
  rm_user_member : ∀ s u,
    RoomManager.users m !! s = Some u →
    ∃ l, RoomManager.rooms m !! User.roomId u = Some l ∧ s ∈ l;
  rm_colors_dom : ∀ R,
    is_Some (RoomManager.rooms m !! R)
    ↔ is_Some (RoomManager.roomColors m !! R)
}.

(** The used colours of a room are the colours of its members, each of
    them the colour of one member. *)
Definition palette_exact (roomId : string) (m : RoomManager.t) : Prop :=
  NoDup (member_colors roomId m)
  ∧ room_used roomId m = list_to_set (member_colors roomId m).

(** ** Where stroke ids are held *)

(** The ids held by each container of each room. *)
Definition layout : Type := string → container → list string.

Definition ids_at (m : DrawingStateManager.t) : layout :=
  λ roomId c,
    match DrawingStateManager.roomStates m !! roomId with
    | Some rs => Stroke.id <$> held rs c
    | None => []
    end.

(** The ids of a layout were minted by the counter, which has reached
    [n]; no container holds an id twice and no two containers share one. *)
Record layout_inv (L : layout) (n : N) : Prop := mkLayoutInv {
  inv_minted : ∀ R c x, x ∈ L R c →
    ∃ k now, x = DrawingStateManager.strokeIdOf k now ∧ (k ≤ n)%N;
  inv_nodup : ∀ R c, NoDup (L R c);
  inv_apart : ∀ R c R' c' x, x ∈ L R c → x ∈ L R' c' → R = R' ∧ c = c'
}.

Definition dsm_inv (m : DrawingStateManager.t) : Prop :=
  layout_inv (ids_at m) (DrawingStateManager.strokeIdCounter m).

(** A string without the separator of the id templates. *)
Fixpoint no_underscore (s : string) : Prop :=
  match s with
  | EmptyString => True
  | String c s' => c ≠ "_"%char ∧ no_underscore s'
  end.

(** ** Sequences of socket events *)

(** The events whose handler reads a payload.  The handler of
    [disconnect] reads none. *)
Inductive event_name :=
| OnJoinRoom
| OnStrokeStart
| OnStrokeUpdate
| OnStrokeEnd
| OnCursorMove
| OnUndo
| OnRedo.

(** An event as a connection can send it.  A payload is given by the
    fields that its handler destructures; a field that is missing or
    falsy is the empty string for a room key or a stroke id (the handlers
    only test them with [!]) and [JUndefined] for the others, so a payload
    that is a number or a string, which has none of the fields, is the
    payload with empty keys.  [EvNoPayload] is an event sent with no
    payload at all, or with [null]. *)
Inductive server_event :=
| EvJoinRoom (socketId roomId : string) (now : Z)
    (rnd : fin (length USER_COLORS))
| EvStrokeStart (socketId roomId : string) (px py color size type : jsval)
    (now_h now_id now_ts : Z)
| EvStrokeUpdate (roomId strokeId : string) (px py : jsval)
| EvStrokeEnd (roomId strokeId : string)
| EvCursorMove (socketId roomId : string) (px py : jsval)
| EvUndo (socketId roomId : string)
| EvRedo (socketId roomId : string)
| EvDisconnect (socketId : string)
| EvNoPayload (name : event_name) (socketId : string).

Definition has_payload (e : server_event) : bool :=
  match e with
  | EvNoPayload _ _ => false
  | _ => true
  end.

(** The handler of an event.  On an event without payload the
    destructuring [const { roomId } = data], the first statement of every
    handler that reads a payload, throws a [TypeError]. *)
Definition server_step (st : Server.t) (e : server_event)
    : option (list Server.emission * Server.t) :=
  match e with
  | EvJoinRoom s r now rnd => Server.on_join_room s r now rnd st
  | EvStrokeStart s r px py c sz ty t1 t2 t3 =>
      Some (Server.on_stroke_start s r px py c sz ty t1 t2 t3 st)
  | EvStrokeUpdate r i px py => Some (Server.on_stroke_update r i px py st)
  | EvStrokeEnd r i => Some (Server.on_stroke_end r i st)
  | EvCursorMove s r px py => Some (Server.on_cursor_move s r px py st)
  | EvUndo s r => Some (Server.on_undo s r st)
  | EvRedo s r => Some (Server.on_redo s r st)
  | EvDisconnect s => Server.on_disconnect s st
  | EvNoPayload _ _ => None
  end.

(** The state after a sequence of events; what was emitted is dropped. *)
Fixpoint server_run (events : list server_event) (st : Server.t)
    : option Server.t :=
  match events with
  | [] => Some st
  | e :: events' => r ← server_step st e; server_run events' r.2
  end.

(** ** Sample inputs *)

Definition sample_strokeData : StrokeData.t :=
  StrokeData.mk "user_1_1700000000000" (JNum 1700000000001) (JStr "draw")
    (JStr "#000000") (JNum 5) [Point.mk (JNum 0) (JNum 0)].

(** One stroke of one point in room "default". *)
Definition sample_opened : Stroke.t * DrawingStateManager.t :=
  DrawingStateManager.addStroke "default" sample_strokeData
    1700000000002 1700000000003 DrawingStateManager.new.

(** Room "default" with a stroke of user A followed by a stroke of
    user B. *)
Definition sample_strokeA : Stroke.t :=
  Stroke.mk "stroke_1_1700000000002" "user_A" (JNum 1700000000001)
    (JStr "draw") (JStr "#FF6B6B") (JNum 5) [Point.mk (JNum 0) (JNum 0)].

Definition sample_strokeB : Stroke.t :=
  Stroke.mk "stroke_2_1700000000005" "user_B" (JNum 1700000000004)
    (JStr "draw") (JStr "#4ECDC4") (JNum 3) [Point.mk (JNum 7) (JNum 7)].

Definition sample_draw : list dsm_op :=
  [ AddStroke "default"
      (StrokeData.mk "user_A" (JNum 1700000000001) (JStr "draw")
         (JStr "#FF6B6B") (JNum 5) [Point.mk (JNum 0) (JNum 0)])
      1700000000002 1700000000003;
    AddStroke "default"
      (StrokeData.mk "user_B" (JNum 1700000000004) (JStr "draw")
         (JStr "#4ECDC4") (JNum 3) [Point.mk (JNum 7) (JNum 7)])
      1700000000005 1700000000006 ].

Definition sample_shared : DrawingStateManager.t :=
  dsm_run sample_draw DrawingStateManager.new.

(** Three connections come and go in room "default". *)
Definition sample_trace : list rm_op :=
  [ Join "socket_A" "default" 1700000000000 0%fin;
    Join "socket_B" "default" 1700000000001 0%fin;
    Leave "socket_A";
    Join "socket_C" "default" 1700000000002 0%fin ].

(** One connection sends [join-room] ten times, then a second connection
    joins and [Math.random()] picks the last colour of the palette. *)
Definition rejoin_trace : list rm_op :=
  replicate 10 (Join "socket_A" "default" 1700000000000 0%fin)
  ++ [Join "socket_B" "default" 1700000000001 9%fin].

(** A connection joins room "default", starts a stroke and disconnects. *)
Definition sample_visit : list server_event :=
  [ EvJoinRoom "socket_A" "default" 1700000000000 0%fin;
    EvStrokeStart "socket_A" "default" (JNum 10) (JNum 20) (JStr "#000000")
      (JNum 5) (JStr "draw") 1700000000001 1700000000002 1700000000003;
    EvDisconnect "socket_A" ].

(** The server after the first two events of [sample_visit], and the
    user of its only connection. *)
Definition sample_alone : Server.t :=
  default Server.new (server_run (take 2 sample_visit) Server.new).

Definition sample_user : User.t :=
  User.mk "user_1_1700000000000" "socket_A" "default" "#FF6B6B".

(** ** Repeated operations on one stroke or by one user *)

(** [updateStroke] called once for each point of [ps], in order. *)
Fixpoint updateAll (roomId strokeId : string) (ps : list Point.t)
    (m : DrawingStateManager.t) : list bool * DrawingStateManager.t :=
  match ps with
  | [] => ([], m)
  | p :: ps' =>
      let '(b, m1) :=
        DrawingStateManager.updateStroke roomId strokeId
          (Point.x p) (Point.y p) m in
      let '(bs, m2) := updateAll roomId strokeId ps' m1 in
      (b :: bs, m2)
  end.

(** [undo] called [n] times by the same user, with the results. *)
Fixpoint undoN (n : nat) (roomId userId : string)
    (m : DrawingStateManager.t)
    : list (option Stroke.t) * DrawingStateManager.t :=
  match n with
  | 0 => ([], m)
  | S n' =>
      let '(r, m1) := DrawingStateManager.undo roomId userId m in
      let '(rs, m2) := undoN n' roomId userId m1 in
      (r :: rs, m2)
  end.

(** [redo] called [n] times by the same user, with the results. *)
Fixpoint redoN (n : nat) (roomId userId : string)
    (m : DrawingStateManager.t)
    : list (option Stroke.t) * DrawingStateManager.t :=
  match n with
  | 0 => ([], m)
  | S n' =>
      let '(r, m1) := DrawingStateManager.redo roomId userId m in
      let '(rs, m2) := redoN n' roomId userId m1 in
      (r :: rs, m2)
  end.

(** The strokes of a list that [userId] owns, and the others. *)
Definition owned_by (userId : string) (l : list Stroke.t) : list Stroke.t :=
  filter (λ s, Stroke.userId s = userId) l.

Definition not_owned_by (userId : string) (l : list Stroke.t)
    : list Stroke.t :=
  filter (λ s, Stroke.userId s ≠ userId) l.

(** A stored undo stack is not empty and holds strokes of its user only. *)
Definition stacks_owned (m : DrawingStateManager.t) : Prop :=
  ∀ R rs u stack,
    DrawingStateManager.roomStates m !! R = Some rs →
    undoStacks rs !! u = Some stack →
    stack ≠ [] ∧ Forall (λ s, Stroke.userId s = u) stack.

(** [sample_shared] after user A has undone its stroke. *)
Definition sample_undone : DrawingStateManager.t :=
  dsm_run (sample_draw ++ [Undo "default" "user_A"]) DrawingStateManager.new.

(** ** What every sequence of joins and leaves keeps *)

(** The record of a user carries the socket id it is stored under and a
    user id issued by the counter; no two users share a user id; colours
    come from the palette; a room has a set of used colours exactly when it
    has a set of sockets, and that set is not empty. *)
Record rm_basic (m : RoomManager.t) : Prop := mkRmBasic {
  rm_socket : ∀ s u,
    RoomManager.users m !! s = Some u → User.socketId u = s;
  rm_user_minted : ∀ s u,
    RoomManager.users m !! s = Some u →
    ∃ k now, User.userId u = RoomManager.userIdOf k now
             ∧ (k ≤ RoomManager.userIdCounter m)%N;
  rm_user_ids : ∀ s1 s2 u1 u2,
    RoomManager.users m !! s1 = Some u1 →
    RoomManager.users m !! s2 = Some u2 →
    User.userId u1 = User.userId u2 → s1 = s2;
  rm_user_color : ∀ s u,
    RoomManager.users m !! s = Some u → User.color u ∈ USER_COLORS;
  rm_used_palette : ∀ R cs c,
    RoomManager.roomColors m !! R = Some cs → c ∈ cs → c ∈ USER_COLORS;
  rm_dom : ∀ R,
    is_Some (RoomManager.rooms m !! R)
    ↔ is_Some (RoomManager.roomColors m !! R);
  rm_nonempty : ∀ R l, RoomManager.rooms m !! R = Some l → l ≠ []
}.

(** The registry after [sample_trace], and the registry after one
    connection has sent [join-room] ten times. *)
Definition sample_registry : RoomManager.t :=
  Eval vm_compute in
    default RoomManager.new (rm_run sample_trace RoomManager.new).

Definition sample_rejoins : list rm_op :=
  replicate 10 (Join "socket_A" "default" 1700000000000 0%fin).

Definition sample_exhausted : RoomManager.t :=
  Eval vm_compute in
    default RoomManager.new (rm_run sample_rejoins RoomManager.new).

(** ** Events that a handler drops *)

(** The payload of the event lacks its room key or its stroke id, or the
    handler needs the user of the connection and the connection has
    none. *)
Definition dropped (st : Server.t) (e : server_event) : Prop :=
  match e with
  | EvJoinRoom _ _ _ _ => False
  | EvStrokeStart s r _ _ _ _ _ _ _ _
  | EvCursorMove s r _ _
  | EvUndo s r
  | EvRedo s r =>
      r = "" ∨ RoomManager.getUser s (Server.roomManager st) = None
  | EvStrokeUpdate r i _ _ | EvStrokeEnd r i => r = "" ∨ i = ""
  | EvDisconnect s => RoomManager.getUser s (Server.roomManager st) = None
  | EvNoPayload _ _ => False
  end.

(** The events whose handlers call the registry, and those whose handlers
    call the drawing state. *)
Definition registry_event (e : server_event) : bool :=
  match e with
  | EvJoinRoom _ _ _ _ | EvDisconnect _ => true
  | _ => false
  end.

Definition drawing_event (e : server_event) : bool :=
  match e with
  | EvStrokeStart _ _ _ _ _ _ _ _ _ _ | EvStrokeUpdate _ _ _ _
  | EvUndo _ _ | EvRedo _ _ => true
  | _ => false
  end.

(** Every stroke of the drawing state is owned by a user id that the
    registry has issued. *)
Definition owners_issued (st : Server.t) : Prop :=
  ∀ R c s,
    s ∈ held_by R c (Server.drawingStateManager st) →
    ∃ k now,
      Stroke.userId s = RoomManager.userIdOf k now
      ∧ (k ≤ RoomManager.userIdCounter (Server.roomManager st))%N.

(** In room "lobby", which it has not joined, the connection of
    [sample_alone] starts a stroke. *)
Definition sample_foreign_start : server_event :=
  EvStrokeStart "socket_A" "lobby" (JNum 1) (JNum 2) (JStr "#000000")
    (JNum 5) JUndefined 1700000000005 1700000000006 1700000000007.

(** What a handler that cannot fail returns for an event; for
    [join-room] and [disconnect], nothing emitted and the state kept when
    the handler fails. *)
Definition server_step_result (st : Server.t) (e : server_event)
    : list Server.emission * Server.t :=
  default ([], st) (server_step st e).

(** The registry operation behind [sample_alone]. *)
Definition sample_alone_ops : list rm_op :=
  [Join "socket_A" "default" 1700000000000 0%fin].

(** ** The calls that the handlers make on the two managers *)

(** The call on the registry made by the handler of an event: [addUser]
    for a [join-room] with a room key, [removeUser] for a [disconnect]
    (which does nothing for a connection without a user). *)
Definition rm_ops_of (e : server_event) : list rm_op :=
  match e with
  | EvJoinRoom s r now rnd =>
      if falsy_str r then [] else [Join s r now rnd]
  | EvDisconnect s => [Leave s]
  | _ => []
  end.

Definition registry_ops (events : list server_event) : list rm_op :=
  events ≫= rm_ops_of.

(** The call on the drawing state made by the handler of an event, given
    the registry at that time. *)
Definition dsm_ops_of (rm : RoomManager.t) (e : server_event)
    : list dsm_op :=
  match e with
  | EvStrokeStart s r px py c sz ty t1 t2 t3 =>
      if falsy_str r then []
      else
        match RoomManager.getUser s rm with
        | Some user =>
            [AddStroke r
               (StrokeData.mk (User.userId user) (JNum t1)
                  (js_or ty (JStr "draw")) c sz [Point.mk px py])
               t2 t3]
        | None => []
        end
  | EvStrokeUpdate r i px py =>
      if falsy_str r || falsy_str i then [] else [UpdateStroke r i px py]
  | EvUndo s r =>
      if falsy_str r then []
      else
        match RoomManager.getUser s rm with
        | Some user => [Undo r (User.userId user)]
        | None => []
        end
  | EvRedo s r =>
      if falsy_str r then []
      else
        match RoomManager.getUser s rm with
        | Some user => [Redo r (User.userId user)]
        | None => []
        end
  | _ => []
  end.

Fixpoint drawing_ops (events : list server_event) (st : Server.t)
    : list dsm_op :=
  match events with
  | [] => []
  | e :: events' =>
      dsm_ops_of (Server.roomManager st) e
      ++ drawing_ops events' (server_step_result st e).2
  end.

(** The server after [sample_visit]. *)
Definition sample_left : Server.t :=
  Eval vm_compute in
    default Server.new (server_run sample_visit Server.new).

(** ** What a sequence of events emits *)

(** The emissions of a sequence of events, in order, with the state
    reached. *)
Fixpoint server_trace (events : list server_event) (st : Server.t)
    : option (list Server.emission * Server.t) :=
  match events with
  | [] => Some ([], st)
  | e :: events' =>
      r ← server_step st e;
      r' ← server_trace events' r.2;
      Some (r.1 ++ r'.1, r'.2)
  end.

(** What a client sends to draw one stroke and then to undo and redo it:
    [stroke-start], one [stroke-update] for each further point with the
    stroke id [sid], [stroke-end], [undo], [redo]. *)
Definition stroke_session (s R : string) (px py color size type : jsval)
    (now_h now_id now_ts : Z) (sid : string) (ps : list Point.t)
    : list server_event :=
  EvStrokeStart s R px py color size type now_h now_id now_ts
  :: ((λ p, EvStrokeUpdate R sid (Point.x p) (Point.y p)) <$> ps)
  ++ [EvStrokeEnd R sid; EvUndo s R; EvRedo s R].

(** The server after the first event of [sample_visit]. *)
Definition sample_joined : Server.t :=
  Eval vm_compute in
    default Server.new (server_run (take 1 sample_visit) Server.new).

(** * client/canvas.js: the stroke history of the canvas

    The state of a [CanvasManager] without the canvas element and its 2d
    context: [drawPathSegment], [drawCompleteStroke], [drawPoint],
    [redrawCanvas] and [resizeCanvas] change pixels only and are left out.
    The three hooks are callbacks or [null]; the state records whether a
    hook is installed, and a method returns the calls it makes on the
    hooks.  A stroke object is referenced from one place at a time:
    [currentPath], one index of [strokes] or [undoStack], or one key of
    [activeRemoteStrokes]. *)

Module CanvasManager.

Inductive hook_call :=
| OnStrokeStart (stroke : Stroke.t)
| OnStrokeUpdate (stroke : Stroke.t) (point : Point.t)
| OnStrokeEnd (stroke : Stroke.t).

Record t := mk {
  isDrawing : bool;
  currentPath : option Stroke.t;
  isEraserMode : bool;
  currentColor : jsval;
  currentBrushSize : jsval;
  strokes : list Stroke.t;
  undoStack : list Stroke.t;
  activeRemoteStrokes : gmap string Stroke.t;
  onStrokeStart : bool;
  onStrokeUpdate : bool;
  onStrokeEnd : bool
}.

(** [constructor(canvasElement)] *)
Definition new : t :=
  mk false None false (JStr "#000000") (JNum 5) [] [] ∅ false false false.

(** [setColor(color)], [setBrushSize(size)], [setEraserMode(enabled)] *)
Definition setColor (color : jsval) (m : t) : t :=
  mk (isDrawing m) (currentPath m) (isEraserMode m) color
    (currentBrushSize m) (strokes m) (undoStack m) (activeRemoteStrokes m)
    (onStrokeStart m) (onStrokeUpdate m) (onStrokeEnd m).

Definition setBrushSize (size : jsval) (m : t) : t :=
  mk (isDrawing m) (currentPath m) (isEraserMode m) (currentColor m) size
    (strokes m) (undoStack m) (activeRemoteStrokes m)
    (onStrokeStart m) (onStrokeUpdate m) (onStrokeEnd m).

Definition setEraserMode (enabled : bool) (m : t) : t :=
  mk (isDrawing m) (currentPath m) enabled (currentColor m)
    (currentBrushSize m) (strokes m) (undoStack m) (activeRemoteStrokes m)
    (onStrokeStart m) (onStrokeUpdate m) (onStrokeEnd m).

(** The template string
    [`local_${Date.now()}_${Math.random().toString(36).substr(2, 9)}`];
    [rnd] is the random suffix. *)
Definition localIdOf (now : Z) (rnd : string) : string :=
  "local_" +:+ pretty now +:+ "_" +:+ rnd.

(** [startStroke(x, y, strokeId = null, userId = null, timestamp = null)];
    [None] and [JNull] are [null]. *)
Definition startStroke (px py : jsval) (strokeId userId : option string)
    (timestamp : jsval) (now_id : Z) (rnd : string) (now_ts : Z) (m : t)
    : list hook_call * t :=
  let id :=
    match strokeId with
    | Some i => if falsy_str i then localIdOf now_id rnd else i
    | None => localIdOf now_id rnd
    end in
  let uid :=
    match userId with
    | Some u => if falsy_str u then "local" else u
    | None => "local"
    end in
  let ts := js_or timestamp (JNum now_ts) in
  let stroke :=
    Stroke.mk id uid ts
      (if isEraserMode m then JStr "erase" else JStr "draw")
      (if isEraserMode m then JNull else currentColor m)
      (currentBrushSize m) [Point.mk px py] in
  let undoStack' :=
    match userId with None => [] | Some _ => undoStack m end in
  (match userId with
   | None => if onStrokeStart m then [OnStrokeStart stroke] else []
   | Some _ => []
   end,
   mk true (Some stroke) (isEraserMode m) (currentColor m)
     (currentBrushSize m) (strokes m) undoStack' (activeRemoteStrokes m)
     (onStrokeStart m) (onStrokeUpdate m) (onStrokeEnd m)).

(** [continueStroke(x, y)] *)
Definition continueStroke (px py : jsval) (m : t) : list hook_call * t :=
  if negb (isDrawing m) then ([], m)
  else
    match currentPath m with
    | None => ([], m)
    | Some stroke =>
        let stroke' :=
          DrawingStateManager.pushPoint stroke (Point.mk px py) in
        (if decide (Stroke.userId stroke' = "local") then
           if onStrokeUpdate m
           then [OnStrokeUpdate stroke' (Point.mk px py)] else []
         else [],
         mk (isDrawing m) (Some stroke') (isEraserMode m) (currentColor m)
           (currentBrushSize m) (strokes m) (undoStack m)
           (activeRemoteStrokes m)
           (onStrokeStart m) (onStrokeUpdate m) (onStrokeEnd m))
    end.

(** [endStroke()] *)
Definition endStroke (m : t) : list hook_call * t :=
  if negb (isDrawing m) then ([], m)
  else
    match currentPath m with
    | None => ([], m)
    | Some stroke =>
        let wasLocalStroke := bool_decide (Stroke.userId stroke = "local") in
        let strokes' :=
          if decide (2 ≤ length (Stroke.path stroke))
          then strokes m ++ [stroke] else strokes m in
        (if wasLocalStroke && onStrokeEnd m then [OnStrokeEnd stroke]
         else [],
         mk false None (isEraserMode m) (currentColor m)
           (currentBrushSize m) strokes' (undoStack m)
           (activeRemoteStrokes m)
           (onStrokeStart m) (onStrokeUpdate m) (onStrokeEnd m))
    end.

(** [undo()]: [strokes.pop()] then [undoStack.push]. *)
Definition undo (m : t) : bool * t :=
  match last (strokes m) with
  | None => (false, m)
  | Some lastStroke =>
      (true,
       mk (isDrawing m) (currentPath m) (isEraserMode m) (currentColor m)
         (currentBrushSize m)
         (take (pred (length (strokes m))) (strokes m))
         (undoStack m ++ [lastStroke]) (activeRemoteStrokes m)
         (onStrokeStart m) (onStrokeUpdate m) (onStrokeEnd m))
  end.

(** [redo()] *)
Definition redo (m : t) : bool * t :=
  match last (undoStack m) with
  | None => (false, m)
  | Some lastUndoneStroke =>
      (true,
       mk (isDrawing m) (currentPath m) (isEraserMode m) (currentColor m)
         (currentBrushSize m)
         (strokes m ++ [lastUndoneStroke])
         (take (pred (length (undoStack m))) (undoStack m))
         (activeRemoteStrokes m)
         (onStrokeStart m) (onStrokeUpdate m) (onStrokeEnd m))
  end.

(** [canUndo()], [canRedo()] *)
Definition canUndo (m : t) : bool := bool_decide (0 < length (strokes m)).
Definition canRedo (m : t) : bool := bool_decide (0 < length (undoStack m)).

(** [clear()] *)
Definition clear (m : t) : t :=
  mk (isDrawing m) (currentPath m) (isEraserMode m) (currentColor m)
    (currentBrushSize m) [] [] ∅
    (onStrokeStart m) (onStrokeUpdate m) (onStrokeEnd m).

(** The copy [{ id: stroke.id, ..., type: stroke.type || 'draw', ...,
    path: [...stroke.path] }] made of a stroke that comes from the
    server. *)
Definition remoteCopy (stroke : Stroke.t) : Stroke.t :=
  Stroke.mk (Stroke.id stroke) (Stroke.userId stroke)
    (Stroke.timestamp stroke) (js_or (Stroke.type stroke) (JStr "draw"))
    (Stroke.color stroke) (Stroke.size stroke) (Stroke.path stroke).

(** [applyRemoteStrokeStart(stroke)] *)
Definition applyRemoteStrokeStart (stroke : Stroke.t) (m : t) : t :=
  if decide (Stroke.userId stroke = "local") then m
  else
    mk (isDrawing m) (currentPath m) (isEraserMode m) (currentColor m)
      (currentBrushSize m) (strokes m) (undoStack m)
      (<[Stroke.id stroke := remoteCopy stroke]> (activeRemoteStrokes m))
      (onStrokeStart m) (onStrokeUpdate m) (onStrokeEnd m).

(** [applyRemoteStrokeUpdate(strokeId, point)] *)
Definition applyRemoteStrokeUpdate (strokeId : string) (point : Point.t)
    (m : t) : t :=
  match activeRemoteStrokes m !! strokeId with
  | None => m
  | Some stroke =>
      mk (isDrawing m) (currentPath m) (isEraserMode m) (currentColor m)
        (currentBrushSize m) (strokes m) (undoStack m)
        (<[strokeId :=
             DrawingStateManager.pushPoint stroke
               (Point.mk (Point.x point) (Point.y point))]>
           (activeRemoteStrokes m))
        (onStrokeStart m) (onStrokeUpdate m) (onStrokeEnd m)
  end.

(** [applyRemoteStrokeEnd(strokeId)] *)
Definition applyRemoteStrokeEnd (strokeId : string) (m : t) : t :=
  match activeRemoteStrokes m !! strokeId with
  | None => m
  | Some stroke =>
      mk (isDrawing m) (currentPath m) (isEraserMode m) (currentColor m)
        (currentBrushSize m)
        (if decide (2 ≤ length (Stroke.path stroke))
         then strokes m ++ [stroke] else strokes m)
        (undoStack m)
        (delete strokeId (activeRemoteStrokes m))
        (onStrokeStart m) (onStrokeUpdate m) (onStrokeEnd m)
  end.

(** [applyRemoteCompleteStroke(stroke)] *)
Definition applyRemoteCompleteStroke (stroke : Stroke.t) (m : t) : t :=
  if decide (Stroke.userId stroke = "local") then m
  else
    let strokeCopy := remoteCopy stroke in
    if decide (2 ≤ length (Stroke.path strokeCopy)) then
      mk (isDrawing m) (currentPath m) (isEraserMode m) (currentColor m)
        (currentBrushSize m) (strokes m ++ [strokeCopy]) (undoStack m)
        (activeRemoteStrokes m)
        (onStrokeStart m) (onStrokeUpdate m) (onStrokeEnd m)
    else m.

End CanvasManager.

(** * client/main.js: user names and the socket handlers on the canvas *)

Module Main.

(** ** [getUserNameFromId] *)

Definition is_digit (c : ascii) : bool :=
  (48 <=? N_of_ascii c)%N && (N_of_ascii c <=? 57)%N.

(** The longest run of digits at the head of a string, and the rest. *)
Fixpoint span_digits (s : string) : string * string :=
  match s with
  | String c s' =>
      if is_digit c then
        let '(ds, rest) := span_digits s' in (String c ds, rest)
      else (EmptyString, s)
  | EmptyString => (EmptyString, EmptyString)
  end.

Fixpoint strip_prefix (p s : string) : option string :=
  match p, s with
  | EmptyString, _ => Some s
  | String a p', String b s' =>
      if Ascii.eqb a b then strip_prefix p' s' else None
  | String _ _, EmptyString => None
  end.

(** [userId.match(/^user_(\d+)_/)]: the group [match[1]], or [None] for
    [null].  [\d+] is greedy and a digit is not an underscore, so the
    group can only be the longest run of digits after the prefix; it
    matches when that run is not empty and an underscore follows. *)
Definition match_user_id (userId : string) : option string :=
  rest ← strip_prefix "user_" userId;
  let '(ds, tail) := span_digits rest in
  match ds, tail with
  | String _ _, String c _ => if Ascii.eqb c "_" then Some ds else None
  | _, _ => None
  end.

(** [parseInt(ds, 10)] for a run of digits; the number is exact below
    [2^53]. *)
Fixpoint parseInt_go (acc : N) (ds : string) : N :=
  match ds with
  | EmptyString => acc
  | String c ds' => parseInt_go (acc * 10 + (N_of_ascii c - 48))%N ds'
  end.

Definition parseInt10 (ds : string) : N := parseInt_go 0 ds.

(** [ToInt32] of an integer. *)
Definition toInt32 (z : Z) : Z := ((z + 2 ^ 31) `mod` 2 ^ 32 - 2 ^ 31)%Z.

(** The loop [hash = ((hash << 5) - hash) + userId.charCodeAt(i);
    hash = hash & hash] over the characters, a character taken as its
    code below 256. *)
Fixpoint hash_go (hash : Z) (s : string) : Z :=
  match s with
  | EmptyString => hash
  | String c s' =>
      let hash1 :=
        (toInt32 (Z.shiftl (toInt32 hash) 5) - hash
         + Z.of_N (N_of_ascii c))%Z in
      hash_go (toInt32 hash1) s'
  end.

(** [getUserNameFromId(userId)] *)
Definition getUserNameFromId (userId : string) : string :=
  match match_user_id userId with
  | Some ds => "User " +:+ pretty (parseInt10 ds)
  | None => "User " +:+ pretty (Z.abs (hash_go 0 userId) `mod` 1000 + 1)%Z
  end.

(** ** The socket handlers, as far as they change the canvas manager *)

(** [socket.on('full-state-sync')] *)
Definition on_full_state_sync (strokes : list Stroke.t)
    (cm : CanvasManager.t) : CanvasManager.t :=
  foldl (λ cm stroke, CanvasManager.applyRemoteCompleteStroke stroke cm)
    (CanvasManager.clear cm) strokes.

(** [socket.on('stroke-start')]; [currentUserId] is [None] until
    [user-info] has arrived. *)
Definition on_stroke_start (currentUserId : option string)
    (data : Stroke.t) (cm : CanvasManager.t) : CanvasManager.t :=
  if decide (Some (Stroke.userId data) = currentUserId) then
    match CanvasManager.currentPath cm with
    | Some stroke =>
        if decide (Stroke.userId stroke = "local") then
          CanvasManager.mk (CanvasManager.isDrawing cm)
            (Some (Stroke.mk (Stroke.id data) (Stroke.userId stroke)
                     (Stroke.timestamp stroke) (Stroke.type stroke)
                     (Stroke.color stroke) (Stroke.size stroke)
                     (Stroke.path stroke)))
            (CanvasManager.isEraserMode cm) (CanvasManager.currentColor cm)
            (CanvasManager.currentBrushSize cm) (CanvasManager.strokes cm)
            (CanvasManager.undoStack cm)
            (CanvasManager.activeRemoteStrokes cm)
            (CanvasManager.onStrokeStart cm)
            (CanvasManager.onStrokeUpdate cm) (CanvasManager.onStrokeEnd cm)
        else cm
    | None => cm
    end
  else CanvasManager.applyRemoteStrokeStart data cm.

(** [socket.on('stroke-update')] and [socket.on('stroke-end')] *)
Definition on_stroke_update (strokeId : string) (px py : jsval)
    (cm : CanvasManager.t) : CanvasManager.t :=
  CanvasManager.applyRemoteStrokeUpdate strokeId (Point.mk px py) cm.

Definition on_stroke_end (strokeId : string) (cm : CanvasManager.t)
    : CanvasManager.t :=
  CanvasManager.applyRemoteStrokeEnd strokeId cm.

(** [socket.on('undo')]: [findIndex] then [splice(strokeIndex, 1)]. *)
Definition on_undo (strokeId : string) (cm : CanvasManager.t)
    : CanvasManager.t :=
  match list_find (λ s, Stroke.id s = strokeId) (CanvasManager.strokes cm)
  with
  | None => cm
  | Some (strokeIndex, _) =>
      CanvasManager.mk (CanvasManager.isDrawing cm)
        (CanvasManager.currentPath cm) (CanvasManager.isEraserMode cm)
        (CanvasManager.currentColor cm) (CanvasManager.currentBrushSize cm)
        (delete strokeIndex (CanvasManager.strokes cm))
        (CanvasManager.undoStack cm) (CanvasManager.activeRemoteStrokes cm)
        (CanvasManager.onStrokeStart cm)
        (CanvasManager.onStrokeUpdate cm) (CanvasManager.onStrokeEnd cm)
  end.

(** [socket.on('redo')]; [None] is a payload without [stroke]. *)
Definition on_redo (stroke : option Stroke.t) (cm : CanvasManager.t)
    : CanvasManager.t :=
  match stroke with
  | Some s => CanvasManager.applyRemoteCompleteStroke s cm
  | None => cm
  end.

End Main.

(** ** Strokes drawn point by point on the client *)

(** [continueStroke] called once for each point, with the hook calls. *)
Fixpoint continueAll (ps : list Point.t) (m : CanvasManager.t)
    : list CanvasManager.hook_call * CanvasManager.t :=
  match ps with
  | [] => ([], m)
  | p :: ps' =>
      let r := CanvasManager.continueStroke (Point.x p) (Point.y p) m in
      let r' := continueAll ps' r.2 in
      (r.1 ++ r'.1, r'.2)
  end.

(** What the mouse handlers of main.js call for one stroke: [startStroke]
    with the coordinates only, [continueStroke] for each further point,
    [endStroke]. *)
Definition drawLocal (p0 : Point.t) (ps : list Point.t)
    (now_id : Z) (rnd : string) (now_ts : Z) (m : CanvasManager.t)
    : list CanvasManager.hook_call * CanvasManager.t :=
  let r1 :=
    CanvasManager.startStroke (Point.x p0) (Point.y p0) None None JNull
      now_id rnd now_ts m in
  let r2 := continueAll ps r1.2 in
  let r3 := CanvasManager.endStroke r2.2 in
  (r1.1 ++ r2.1 ++ r3.1, r3.2).

(** [applyRemoteStrokeUpdate] called once for each point. *)
Definition remoteUpdateAll (strokeId : string) (ps : list Point.t)
    (m : CanvasManager.t) : CanvasManager.t :=
  foldl (λ m p, CanvasManager.applyRemoteStrokeUpdate strokeId p m) m ps.

(** The canvas manager once main.js has installed its three hooks. *)
Definition sample_canvas : CanvasManager.t :=
  CanvasManager.mk false None false (JStr "#000000") (JNum 5) [] [] ∅
    true true true.

(** ** Strokes replayed from the broadcasts of the server *)

(** A client receives the [stroke-start] of a stroke, a [stroke-update]
    for each further point and the [stroke-end]. *)
Definition replayRemote (currentUserId : option string) (data : Stroke.t)
    (ps : list Point.t) (cm : CanvasManager.t) : CanvasManager.t :=
  Main.on_stroke_end (Stroke.id data)
    (foldl (λ cm p,
              Main.on_stroke_update (Stroke.id data) (Point.x p) (Point.y p)
                cm)
       (Main.on_stroke_start currentUserId data cm) ps).

(** The local user starts a stroke, the [stroke-start] of the server for
    it arrives, then the user moves through the further points and
    releases; the hook calls after the start are returned. *)
Definition drawEchoed (p0 : Point.t) (ps : list Point.t)
    (now_id : Z) (rnd : string) (now_ts : Z)
    (currentUserId : option string) (echo : Stroke.t)
    (m : CanvasManager.t)
    : list CanvasManager.hook_call * CanvasManager.t :=
  let r1 :=
    CanvasManager.startStroke (Point.x p0) (Point.y p0) None None JNull
      now_id rnd now_ts m in
  let m2 := Main.on_stroke_start currentUserId echo r1.2 in
  let r3 := continueAll ps m2 in
  let r4 := CanvasManager.endStroke r3.2 in
  (r3.1 ++ r4.1, r4.2).

(** The stroke that the server sends back for a stroke started by the
    user of [sample_user]. *)
Definition sample_echo : Stroke.t :=
  Stroke.mk "stroke_1_1700000000002" "user_1_1700000000000"
    (JNum 1700000000001) (JStr "draw") (JStr "#000000") (JNum 5)
    [Point.mk (JNum 10) (JNum 20)].

(** The canvas of [sample_canvas] after the local user has drawn a
    stroke of two points. *)
Definition sample_drawn : CanvasManager.t :=
  Eval vm_compute in
    (drawLocal (Point.mk (JNum 10) (JNum 20)) [Point.mk (JNum 11) (JNum 21)]
       1700000000000 "k3j9x0q2z" 1700000000001 sample_canvas).2.

(** The operations other than [clearRoom]. *)
Definition not_clearRoom (o : dsm_op) : Prop :=
  match o with
  | ClearRoom _ => False
  | _ => True
  end.

(** * Properties *)

Import DrawingStateManager.

Lemma snapshot_eq s : snapshot s = s.
Proof. by destruct s. Qed.

Lemma snapshot_fmap (l : list Stroke.t) : snapshot <$> l = l.
Proof.
  induction l as [|s l IH]; [done|].
  by rewrite fmap_cons, snapshot_eq, IH.
Qed.

Lemma getFullState_state roomId m : (getFullState roomId m).2 = m.
Proof. unfold getFullState. by destruct (roomStates m !! roomId). Qed.

Lemma getFullState_strokes roomId m :
  fs_strokes (getFullState roomId m).1 = timeline roomId m.
Proof.
  unfold getFullState, timeline.
  destruct (roomStates m !! roomId); simpl; [apply snapshot_fmap|done].
Qed.

(** ** Queries on a room without state *)

(** C10: for a room key without room state, [getFullState] returns the
    object holding that key and an empty stroke list, and the manager,
    its map of room states included, is as before the query. *)
Theorem getFullState_absent_room (roomId : string) (m : t) :
  roomStates m !! roomId = None →
  getFullState roomId m = (mkFullState roomId [], m)
  ∧ roomStates (getFullState roomId m).2 = roomStates m
  ∧ roomStates (getFullState roomId m).2 !! roomId = None.
Proof.
  intros Hnone. unfold getFullState. rewrite Hnone. by simpl.
Qed.

Lemma getFullState_absent_room_witness :
  roomStates new !! "lobby" = None
  ∧ getFullState "lobby" new = (mkFullState "lobby" [], new).
Proof.
  split; [reflexivity|].
  apply (getFullState_absent_room "lobby" new). reflexivity.
Defined.

(** ** Updates that name an unknown room or stroke *)

Lemma updateStroke_not_found roomId strokeId px py m :
  Forall (λ s, Stroke.id s ≠ strokeId) (timeline roomId m) →
  updateStroke roomId strokeId px py m = (false, m).
Proof.
  unfold timeline, updateStroke. intros Hall.
  destruct (roomStates m !! roomId) as [rs|]; [|done].
  by rewrite (proj2 (list_find_None (λ s, Stroke.id s = strokeId) _) Hall).
Qed.

(** C8: an [updateStroke] that names a room without state, or a stroke id
    that the room's timeline does not hold, returns [false] and leaves the
    manager as it is; the [stroke-update] handler then emits nothing and
    the whole server state is unchanged. *)
Theorem update_unknown_stroke_rejected (roomId strokeId : string)
    (px py : jsval) (rm : RoomManager.t) (m : t) :
  (roomStates m !! roomId = None
   ∨ ∃ rs, roomStates m !! roomId = Some rs
           ∧ Forall (λ s, Stroke.id s ≠ strokeId) (strokes rs)) →
  updateStroke roomId strokeId px py m = (false, m)
  ∧ Server.on_stroke_update roomId strokeId px py (Server.mk rm m)
    = ([], Server.mk rm m).
Proof.
  intros Hunknown.
  assert (updateStroke roomId strokeId px py m = (false, m)) as Hupd.
  { apply updateStroke_not_found. unfold timeline.
    destruct Hunknown as [->|(rs & -> & Hall)]; [constructor|done]. }
  split; [done|].
  unfold Server.on_stroke_update; simpl.
  destruct (falsy_str roomId || falsy_str strokeId); [done|].
  by rewrite Hupd.
Qed.

Lemma update_unknown_stroke_rejected_witness :
  roomStates sample_shared !! "lobby" = None
  ∧ updateStroke "lobby" "stroke_1_1700000000002" (JNum 1) (JNum 1)
      sample_shared
    = (false, sample_shared).
Proof.
  assert (roomStates sample_shared !! "lobby" = None) as Hnone
    by (vm_compute; reflexivity).
  split; [exact Hnone|].
  exact (proj1 (update_unknown_stroke_rejected "lobby"
                  "stroke_1_1700000000002" (JNum 1) (JNum 1)
                  RoomManager.new sample_shared (or_introl Hnone))).
Defined.

(** ** Starting a stroke ends the redo history of its user *)

Lemma addStroke_clears_stack roomId strokeData now_id now_ts m :
  held_by roomId (UndoStack (StrokeData.userId strokeData))
    (addStroke roomId strokeData now_id now_ts m).2 = [].
Proof.
  unfold addStroke, _getRoomState, _generateStrokeId, held_by.
  destruct (roomStates m !! roomId) as [rs|]; simpl;
    by rewrite lookup_insert_eq; simpl; rewrite lookup_delete_eq.
Qed.

Lemma redo_after_addStroke roomId strokeData now_id now_ts m :
  let m' := (addStroke roomId strokeData now_id now_ts m).2 in
  redo roomId (StrokeData.userId strokeData) m' = (None, m').
Proof.
  unfold addStroke, _getRoomState, _generateStrokeId, redo.
  destruct (roomStates m !! roomId) as [rs|]; simpl;
    by rewrite lookup_insert_eq; simpl; rewrite lookup_delete_eq.
Qed.

(** C5: in any state, [addStroke] of a stroke of U leaves the undo stack
    of U in that room empty; so after [undo] by U, then [addStroke] of a
    stroke of U, the [redo] by U returns [null] and changes nothing. *)
Theorem redo_none_after_undo_and_new_stroke (roomId : string)
    (strokeData : StrokeData.t) (now_id now_ts : Z) (m : t) :
  let U := StrokeData.userId strokeData in
  let m1 := (undo roomId U m).2 in
  let m2 := (addStroke roomId strokeData now_id now_ts m1).2 in
  held_by roomId (UndoStack U)
    (addStroke roomId strokeData now_id now_ts m).2 = []
  ∧ held_by roomId (UndoStack U) m2 = []
  ∧ redo roomId U m2 = (None, m2).
Proof.
  intros U m1 m2. split_and!.
  - apply addStroke_clears_stack.
  - apply addStroke_clears_stack.
  - apply redo_after_addStroke.
Qed.

(** ** Closing a stroke *)

Lemma addStroke_timeline roomId strokeData now_id now_ts m :
  timeline roomId (addStroke roomId strokeData now_id now_ts m).2
  = timeline roomId m ++ [(addStroke roomId strokeData now_id now_ts m).1].
Proof.
  unfold addStroke, _getRoomState, _generateStrokeId, timeline.
  destruct (roomStates m !! roomId) as [rs|]; simpl;
    by rewrite lookup_insert_eq.
Qed.

(** C2, as the code has it: [finalizeStroke] does nothing, whatever the
    number of points.  After [addStroke] and the [stroke-end] handler, the
    stroke is the last one of the room's snapshot, with the points it was
    opened with. *)
Theorem closed_stroke_retained (roomId : string) (strokeData : StrokeData.t)
    (now_id now_ts : Z) (rm : RoomManager.t) (m : t) :
  let r := addStroke roomId strokeData now_id now_ts m in
  let st :=
    (Server.on_stroke_end roomId (Stroke.id r.1) (Server.mk rm r.2)).2 in
  finalizeStroke roomId (Stroke.id r.1) r.2 = r.2
  ∧ st = Server.mk rm r.2
  ∧ Stroke.path r.1 = StrokeData.path strokeData
  ∧ fs_strokes (getFullState roomId (Server.drawingStateManager st)).1
    = timeline roomId m ++ [r.1].
Proof.
  intros r st.
  assert (st = Server.mk rm r.2) as Hst.
  { unfold st, Server.on_stroke_end.
    by destruct (falsy_str roomId || falsy_str (Stroke.id r.1)). }
  split_and!; [done|done| |].
  - unfold r, addStroke, _getRoomState.
    by destruct (roomStates m !! roomId).
  - rewrite Hst; simpl. rewrite getFullState_strokes.
    apply addStroke_timeline.
Qed.

(** C2, counterexample: a stroke opened with one point and closed at once
    is still in the snapshot of its room. *)
Lemma short_stroke_discarded_counterexample :
  let m :=
    finalizeStroke "default" (Stroke.id sample_opened.1) sample_opened.2 in
  length (Stroke.path sample_opened.1) = 1
  ∧ fs_strokes (getFullState "default" m).1
    = [Stroke.mk "stroke_1_1700000000002" "user_1_1700000000000"
         (JNum 1700000000001) (JStr "draw") (JStr "#000000") (JNum 5)
         [Point.mk (JNum 0) (JNum 0)]].
Proof. vm_compute. done. Qed.

(** C3, as the code has it: closing records nothing.  When the timeline of
    the room holds a stroke with the given id, an [updateStroke] made after
    [finalizeStroke] returns [true] and appends the point to the first such
    stroke, as it does before the close. *)
Theorem update_after_close_appends (roomId strokeId : string) (px py : jsval)
    (m : t) (i : nat) (stroke : Stroke.t) :
  list_find (λ s, Stroke.id s = strokeId) (timeline roomId m)
    = Some (i, stroke) →
  let r := updateStroke roomId strokeId px py
             (finalizeStroke roomId strokeId m) in
  r = updateStroke roomId strokeId px py m
  ∧ r.1 = true
  ∧ timeline roomId r.2
    = <[i := pushPoint stroke (Point.mk px py)]> (timeline roomId m)
  ∧ Stroke.path (pushPoint stroke (Point.mk px py))
    = Stroke.path stroke ++ [Point.mk px py].
Proof.
  intros Hfind r. unfold r, finalizeStroke, updateStroke.
  unfold timeline in *.
  destruct (roomStates m !! roomId) as [rs|] eqn:Hrs; [|done].
  rewrite Hfind; simpl. by rewrite lookup_insert_eq.
Qed.

Lemma update_after_close_appends_witness :
  list_find (λ s, Stroke.id s = "stroke_1_1700000000002")
    (timeline "default" sample_opened.2)
  = Some (0, sample_opened.1)
  ∧ (updateStroke "default" "stroke_1_1700000000002" (JNum 1) (JNum 1)
       (finalizeStroke "default" "stroke_1_1700000000002" sample_opened.2)).1
    = true.
Proof.
  assert (list_find (λ s, Stroke.id s = "stroke_1_1700000000002")
            (timeline "default" sample_opened.2)
          = Some (0, sample_opened.1)) as Hfind by (vm_compute; reflexivity).
  split; [exact Hfind|].
  apply (update_after_close_appends "default" "stroke_1_1700000000002"
           (JNum 1) (JNum 1) sample_opened.2 0 sample_opened.1 Hfind).
Defined.

(** C3, counterexample: a point sent after the end event of a stroke is
    appended to it. *)
Lemma closed_stroke_frozen_counterexample :
  let closed :=
    finalizeStroke "default" (Stroke.id sample_opened.1) sample_opened.2 in
  let r :=
    updateStroke "default" (Stroke.id sample_opened.1) (JNum 7) (JNum 9)
      closed in
  r.1 = true
  ∧ Stroke.path <$> timeline "default" closed = [[Point.mk (JNum 0) (JNum 0)]]
  ∧ Stroke.path <$> timeline "default" r.2
    = [[Point.mk (JNum 0) (JNum 0); Point.mk (JNum 7) (JNum 9)]].
Proof. vm_compute. done. Qed.

(** ** Undo: the backward scan and its effect *)

Lemma lastUserStrokeIndex_Some u l n i :
  lastUserStrokeIndex u l n = Some i →
  i < n
  ∧ (∃ s, l !! i = Some s ∧ Stroke.userId s = u)
  ∧ ∀ j s, i < j < n → l !! j = Some s → Stroke.userId s ≠ u.
Proof.
  induction n as [|n IH]; simpl; [done|].
  destruct (l !! n) as [s|] eqn:Hn.
  - destruct (decide (Stroke.userId s = u)) as [Hu|Hu].
    + intros [= <-]. split_and!; [lia|by exists s|]. intros j s' ?. lia.
    + intros (Hlt & Hs & Hafter)%IH. split_and!; [lia|done|].
      intros j s' Hj Hjs.
      destruct (decide (j = n)) as [->|]; [congruence|].
      apply (Hafter j); [lia|done].
  - intros (Hlt & Hs & Hafter)%IH. split_and!; [lia|done|].
    intros j s' Hj Hjs.
    destruct (decide (j = n)) as [->|]; [congruence|].
    apply (Hafter j); [lia|done].
Qed.

Lemma lastUserStrokeIndex_None u l n :
  lastUserStrokeIndex u l n = None →
  ∀ j s, j < n → l !! j = Some s → Stroke.userId s ≠ u.
Proof.
  induction n as [|n IH]; simpl; [intros _ j s; lia|].
  destruct (l !! n) as [s|] eqn:Hn.
  - destruct (decide (Stroke.userId s = u)) as [Hu|Hu]; [done|].
    intros Hnone j s' Hj Hjs.
    destruct (decide (j = n)) as [->|]; [congruence|].
    apply (IH Hnone j); [lia|done].
  - intros Hnone j s' Hj Hjs.
    destruct (decide (j = n)) as [->|]; [congruence|].
    apply (IH Hnone j); [lia|done].
Qed.

Lemma undo_Some roomId u m s m' :
  undo roomId u m = (Some s, m') →
  ∃ rs l1 l2,
    roomStates m !! roomId = Some rs
    ∧ strokes rs = l1 ++ s :: l2
    ∧ Stroke.userId s = u
    ∧ Forall (λ s', Stroke.userId s' ≠ u) l2
    ∧ m' = mk (<[roomId :=
                   mkRoomState (l1 ++ l2)
                     (<[u := default [] (undoStacks rs !! u) ++ [s]]>
                        (undoStacks rs))]> (roomStates m))
              (strokeIdCounter m).
Proof.
  unfold undo.
  destruct (roomStates m !! roomId) as [rs|] eqn:Hrs; [|done].
  simpl.
  destruct (lastUserStrokeIndex u (strokes rs) (length (strokes rs)))
    as [i|] eqn:Hscan; [|done].
  apply lastUserStrokeIndex_Some in Hscan as (Hlt & (s' & Hi & Hu) & Hafter).
  rewrite Hi. intros [= <- <-].
  exists rs, (take i (strokes rs)), (drop (S i) (strokes rs)).
  split_and!; [done|by rewrite take_drop_middle|done| |].
  - apply Forall_lookup. intros j x Hx. rewrite lookup_drop in Hx.
    apply (Hafter (S i + j)); [|done].
    apply lookup_lt_Some in Hx. lia.
  - by rewrite delete_take_drop.
Qed.

Lemma undo_None roomId u m m' :
  undo roomId u m = (None, m') →
  m' = m ∧ Forall (λ s, Stroke.userId s ≠ u) (timeline roomId m).
Proof.
  unfold undo, timeline.
  destruct (roomStates m !! roomId) as [rs|] eqn:Hrs;
    [|by intros [= <-]].
  simpl.
  destruct (lastUserStrokeIndex u (strokes rs) (length (strokes rs)))
    as [i|] eqn:Hscan.
  - apply lastUserStrokeIndex_Some in Hscan as (_ & (s & -> & _) & _). done.
  - intros [= <-]. split; [done|].
    apply Forall_lookup. intros j s Hj.
    eapply lastUserStrokeIndex_None; [done| |done].
    by apply lookup_lt_Some in Hj.
Qed.

Lemma undo_owner roomId u m i s :
  timeline roomId m !! i = Some s → Stroke.userId s = u →
  ∃ s' m', undo roomId u m = (Some s', m').
Proof.
  intros Hi Hu.
  destruct (undo roomId u m) as [[s'|] m'] eqn:Hundo; [by eauto|].
  apply undo_None in Hundo as [_ Hall].
  rewrite Forall_lookup in Hall. by destruct (Hall i s Hi).
Qed.

Lemma filter_app_middle_out {A} (P : A → Prop) `{!∀ a, Decision (P a)}
    (l1 l2 : list A) (a : A) :
  ¬ P a → filter P (l1 ++ a :: l2) = filter P (l1 ++ l2).
Proof.
  intros Ha. rewrite !filter_app, filter_cons. by rewrite decide_False.
Qed.

(** The place of the last element with a property in a list is
    determined. *)
Lemma last_with_unique {A} (P : A → Prop) (l1 l2 l1' l2' : list A)
    (a a' : A) :
  l1 ++ a :: l2 = l1' ++ a' :: l2' →
  P a → P a' → Forall (λ x, ¬ P x) l2 → Forall (λ x, ¬ P x) l2' →
  l1 = l1' ∧ a = a' ∧ l2 = l2'.
Proof.
  revert l1'. induction l1 as [|x l1 IH]; intros [|x' l1'] Heq Ha Ha' H2 H2'.
  - by injection Heq as -> ->.
  - injection Heq as -> ->. exfalso.
    apply Forall_app in H2 as [_ [Hno _]%Forall_cons]. by apply Hno.
  - injection Heq as <- <-. exfalso.
    apply Forall_app in H2' as [_ [Hno _]%Forall_cons]. by apply Hno.
  - injection Heq as -> Heq.
    destruct (IH l1' Heq Ha Ha' H2 H2') as (-> & -> & ->). done.
Qed.

(** C6: when the timeline of the room holds a stroke of A, [undo] by A
    returns the last stroke of A, wherever it stands in the timeline, and
    the timeline becomes the old one with this single element taken out:
    the strokes before it and the strokes after it, which A does not own,
    stay in their order.  In every case [undo] by A leaves the strokes
    that A does not own in the timeline, all of them and in the same
    order, and does not touch the timeline of another room; it returns
    [null] exactly when the timeline holds no stroke of A, and then
    nothing has changed. *)
Theorem undo_keeps_other_users_strokes (roomId A : string) (m : t) :
  let r := undo roomId A m in
  filter (λ s, Stroke.userId s ≠ A) (timeline roomId r.2)
  = filter (λ s, Stroke.userId s ≠ A) (timeline roomId m)
  ∧ (∀ roomId', roomId' ≠ roomId →
       timeline roomId' r.2 = timeline roomId' m)
  ∧ match r.1 with
    | Some s =>
        Stroke.userId s = A
        ∧ ∃ l1 l2,
            timeline roomId m = l1 ++ s :: l2
            ∧ timeline roomId r.2 = l1 ++ l2
            ∧ Forall (λ s', Stroke.userId s' ≠ A) l2
    | None => r.2 = m
    end
  ∧ (∀ l1 s l2,
       timeline roomId m = l1 ++ s :: l2 →
       Stroke.userId s = A →
       Forall (λ s', Stroke.userId s' ≠ A) l2 →
       r.1 = Some s ∧ timeline roomId r.2 = l1 ++ l2)
  ∧ (r.1 = None
     ↔ Forall (λ s, Stroke.userId s ≠ A) (timeline roomId m)).
Proof.
  intros r. subst r.
  destruct (undo roomId A m) as [[s|] m'] eqn:Hundo; simpl.
  - apply undo_Some in Hundo as (rs & l1 & l2 & Hrs & Hl & Hu & Hl2 & ->).
    unfold timeline; simpl. rewrite lookup_insert_eq, Hrs, Hl.
    split; [|split; [|split; [|split]]].
    + symmetry. apply filter_app_middle_out. by intros [].
    + intros roomId' Hne. by rewrite lookup_insert_ne.
    + split; [done|]. by exists l1, l2.
    + intros k1 s' k2 Heq Hs' Hk2.
      destruct (last_with_unique (λ x, Stroke.userId x = A)
                  l1 l2 k1 k2 s s' Heq Hu Hs')
        as (-> & -> & ->); [|done..].
      apply Forall_forall. intros x Hx.
      rewrite Forall_forall in Hl2. by apply Hl2.
    + split; [done|]. intros Hall.
      apply Forall_app in Hall as [_ [Hno _]%Forall_cons]. by destruct Hno.
  - apply undo_None in Hundo as [-> Hall].
    split; [done|]. split; [done|]. split; [done|]. split; [|done].
    intros l1 s l2 Heq Hs _. rewrite Heq in Hall.
    apply Forall_app in Hall as [_ [Hno _]%Forall_cons]. by destruct Hno.
Qed.

Lemma undo_keeps_other_users_strokes_witness :
  timeline "default" sample_shared = [] ++ sample_strokeA :: [sample_strokeB]
  ∧ Stroke.userId sample_strokeA = "user_A"
  ∧ Forall (λ s', Stroke.userId s' ≠ "user_A") [sample_strokeB]
  ∧ (undo "default" "user_A" sample_shared).1 = Some sample_strokeA
  ∧ timeline "default" (undo "default" "user_A" sample_shared).2
    = [sample_strokeB].
Proof.
  assert (timeline "default" sample_shared
          = [] ++ sample_strokeA :: [sample_strokeB]) as Htl
    by (vm_compute; reflexivity).
  assert (Stroke.userId sample_strokeA = "user_A") as HA by reflexivity.
  assert (Forall (λ s', Stroke.userId s' ≠ "user_A") [sample_strokeB])
    as HB by (repeat constructor; discriminate).
  split; [exact Htl|]. split; [exact HA|]. split; [exact HB|].
  exact (proj1 (proj2 (proj2 (proj2
           (undo_keeps_other_users_strokes "default" "user_A"
              sample_shared))))
           [] sample_strokeA [sample_strokeB] Htl HA HB).
Defined.

(** ** Redo *)

Lemma redo_top roomId u m rs stack s :
  roomStates m !! roomId = Some rs →
  undoStacks rs !! u = Some (stack ++ [s]) →
  redo roomId u m
  = (Some s,
     mk (<[roomId :=
            mkRoomState (strokes rs ++ [s])
              (if decide (length stack = 0)
               then delete u (undoStacks rs)
               else <[u := stack]> (undoStacks rs))]> (roomStates m))
        (strokeIdCounter m)).
Proof.
  intros Hrs Hstack. unfold redo. rewrite Hrs, Hstack, last_snoc.
  rewrite length_app; simpl.
  replace (pred (length stack + 1)) with (length stack) by lia.
  by rewrite take_app_length.
Qed.

(** What the others do leaves the undo stack of [u] in [roomId] alone. *)
Lemma foreign_step_stack roomId u o m rs :
  foreign roomId u o →
  roomStates m !! roomId = Some rs →
  ∃ rs', roomStates (dsm_step m o) !! roomId = Some rs'
         ∧ undoStacks rs' !! u = undoStacks rs !! u.
Proof.
  intros Hforeign Hrs.
  destruct o as [r d t1 t2|r i px py|r i|r v|r v|r|r]; simpl in *.
  - unfold addStroke, _getRoomState, _generateStrokeId.
    destruct (decide (r = roomId)) as [->|Hne].
    + rewrite Hrs; simpl. rewrite lookup_insert_eq. eexists; split; [done|].
      simpl. by rewrite lookup_delete_ne.
    + destruct (roomStates m !! r); simpl;
        rewrite ?lookup_insert_ne by done; eauto.
  - unfold updateStroke.
    destruct (roomStates m !! r) as [rs0|] eqn:Hr; simpl; [|by eauto].
    destruct (list_find _ (strokes rs0)) as [[j s]|]; simpl; [|by eauto].
    destruct (decide (r = roomId)) as [->|Hne].
    + rewrite lookup_insert_eq. eexists; split; [done|]. simpl. congruence.
    + rewrite lookup_insert_ne by done. eauto.
  - eauto.
  - destruct (undo r v m) as [[s|] m'] eqn:Hundo; simpl.
    + apply undo_Some in Hundo as (rs0 & l1 & l2 & Hr & _ & _ & _ & ->).
      simpl. destruct (decide (r = roomId)) as [->|Hne].
      * rewrite lookup_insert_eq. eexists; split; [done|]. simpl.
        rewrite lookup_insert_ne by done. congruence.
      * rewrite lookup_insert_ne by done. eauto.
    + apply undo_None in Hundo as [-> _]. eauto.
  - unfold redo.
    destruct (roomStates m !! r) as [rs0|] eqn:Hr; simpl; [|by eauto].
    destruct (undoStacks rs0 !! v) as [st|] eqn:Hv; simpl; [|by eauto].
    destruct (last st) as [s|]; simpl; [|by eauto].
    destruct (decide (r = roomId)) as [->|Hne].
    + rewrite lookup_insert_eq. eexists; split; [done|]. simpl.
      assert (rs0 = rs) as -> by congruence.
      destruct (decide _);
        [by rewrite lookup_delete_ne|by rewrite lookup_insert_ne].
    + rewrite lookup_insert_ne by done. eauto.
  - rewrite getFullState_state. eauto.
  - unfold clearRoom; simpl. rewrite lookup_delete_ne by done. eauto.
Qed.

Lemma foreign_run_stack roomId u ops m rs :
  Forall (foreign roomId u) ops →
  roomStates m !! roomId = Some rs →
  ∃ rs', roomStates (dsm_run ops m) !! roomId = Some rs'
         ∧ undoStacks rs' !! u = undoStacks rs !! u.
Proof.
  intros Hops. revert m rs.
  induction Hops as [|o ops Ho _ IH]; intros m rs Hrs; simpl; [by eauto|].
  destruct (foreign_step_stack roomId u o m rs Ho Hrs) as (rs1 & Hrs1 & Heq).
  destruct (IH _ _ Hrs1) as (rs2 & Hrs2 & Heq2).
  exists rs2. split; [done|congruence].
Qed.

(** C4: when [u] owns a stroke of the timeline, [undo] by [u] takes out
    and returns the last stroke [s] of [u]; a [redo] by [u] made right
    after, or after any actions of other users (strokes added to the
    timeline among them), returns that same record [s], hence the same id,
    owner and points, and makes it the last element of the timeline. *)
Theorem undo_then_redo_restores (roomId u : string) (m : t) (i : nat)
    (s0 : Stroke.t) :
  timeline roomId m !! i = Some s0 →
  Stroke.userId s0 = u →
  ∃ s m1,
    undo roomId u m = (Some s, m1)
    ∧ (∃ l1 l2, timeline roomId m = l1 ++ s :: l2
                ∧ Forall (λ s', Stroke.userId s' ≠ u) l2
                ∧ timeline roomId m1 = l1 ++ l2)
    ∧ Stroke.userId s = u
    ∧ ∀ ops, Forall (foreign roomId u) ops →
        ∃ m3, redo roomId u (dsm_run ops m1) = (Some s, m3)
              ∧ timeline roomId m3 = timeline roomId (dsm_run ops m1) ++ [s].
Proof.
  intros Hi Hu.
  destruct (undo_owner roomId u m i s0 Hi Hu) as (s & m1 & Hundo).
  exists s, m1. split; [done|].
  apply undo_Some in Hundo as (rs & l1 & l2 & Hrs & Hl & Hs & Hl2 & ->).
  split; [|split; [done|]].
  - exists l1, l2. unfold timeline; simpl.
    by rewrite Hrs, Hl, lookup_insert_eq.
  - intros ops Hops.
    match goal with
    | |- context [dsm_run ops ?m1] =>
        destruct (foreign_run_stack roomId u ops m1 _ Hops
                    (lookup_insert_eq _ _ _)) as (rs2 & Hrs2 & Hstack)
    end.
    simpl in Hstack. rewrite lookup_insert_eq in Hstack.
    eexists. split; [by eapply redo_top|].
    unfold timeline; simpl. by rewrite lookup_insert_eq, Hrs2.
Qed.

Lemma undo_then_redo_restores_witness :
  timeline "default" sample_shared !! 0 = Some sample_strokeA
  ∧ Stroke.userId sample_strokeA = "user_A"
  ∧ ∃ s m1, undo "default" "user_A" sample_shared = (Some s, m1)
            ∧ Stroke.userId s = "user_A".
Proof.
  assert (timeline "default" sample_shared !! 0 = Some sample_strokeA)
    as Hat by (vm_compute; reflexivity).
  assert (Stroke.userId sample_strokeA = "user_A") as Hown by reflexivity.
  split; [exact Hat|]. split; [exact Hown|].
  destruct (undo_then_redo_restores "default" "user_A" sample_shared 0
              sample_strokeA Hat Hown)
    as (s & m1 & Hundo & _ & Hs & _).
  by exists s, m1.
Defined.

(** ** Stroke ids are minted once *)

Lemma pretty_N_char_no_underscore x : pretty_N_char x ≠ "_"%char.
Proof. unfold pretty_N_char. by repeat case_match. Qed.

Lemma pretty_N_go_no_underscore x s :
  no_underscore s → no_underscore (pretty_N_go x s).
Proof.
  revert s. induction (N.lt_wf_0 x) as [x _ IH]; intros s Hs.
  assert (x = 0 ∨ 0 < x)%N as [->|Hpos] by lia.
  - by rewrite pretty_N_go_0.
  - rewrite pretty_N_go_step by done. apply IH.
    + by apply N.div_lt.
    + split; [apply pretty_N_char_no_underscore|done].
Qed.

Lemma pretty_N_no_underscore (n : N) : no_underscore (pretty n).
Proof.
  unfold pretty, pretty_N. case_decide.
  - simpl. split; [discriminate|done].
  - by apply pretty_N_go_no_underscore.
Qed.

Lemma underscore_delimits a b r r' :
  no_underscore a → no_underscore b →
  a +:+ String "_" r = b +:+ String "_" r' → a = b.
Proof.
  revert b. induction a as [|c a IH]; intros [|d b]; simpl.
  - done.
  - intros _ [Hd _] [= <-]. by destruct Hd.
  - intros [Hc _] _ [= ->]. by destruct Hc.
  - intros [_ Ha] [_ Hb] [= -> Heq]. f_equal. by apply IH.
Qed.

Lemma strokeIdOf_counter n now n' now' :
  strokeIdOf n now = strokeIdOf n' now' → n = n'.
Proof.
  unfold strokeIdOf. intros Heq.
  apply (inj (String.app "stroke_")) in Heq.
  apply (inj pretty).
  eapply underscore_delimits; [apply pretty_N_no_underscore..|done].
Qed.

Lemma layout_inv_shrink L L' n n' :
  layout_inv L n →
  (∀ R c, L' R c `sublist_of` L R c) →
  (n ≤ n')%N →
  layout_inv L' n'.
Proof.
  intros [Hminted Hnodup Hapart] Hsub Hle. split.
  - intros R c x Hx.
    destruct (Hminted R c x) as (k & now & -> & Hk);
      [eapply elem_of_sublist; [exact Hx|apply Hsub]|].
    exists k, now. split; [done|lia].
  - intros R c. eapply sublist_NoDup; [apply Hnodup|apply Hsub].
  - intros R c R' c' x Hx Hx'.
    apply (Hapart R c R' c' x).
    + eapply elem_of_sublist; [exact Hx|apply Hsub].
    + eapply elem_of_sublist; [exact Hx'|apply Hsub].
Qed.

Lemma layout_inv_mint L L' n R0 now :
  layout_inv L n →
  L' R0 Timeline = L R0 Timeline ++ [strokeIdOf (n + 1) now] →
  (∀ R c, (R, c) ≠ (R0, Timeline) → L' R c = L R c) →
  layout_inv L' (n + 1).
Proof.
  intros [Hminted Hnodup Hapart] Hnew Hsame.
  set (z := strokeIdOf (n + 1) now) in *.
  assert (∀ R c, z ∉ L R c) as Hfresh.
  { intros R c (k & t & Heq & Hk)%Hminted.
    apply strokeIdOf_counter in Heq. lia. }
  assert (∀ R c x, x ∈ L' R c →
            (x ∈ L R c ∧ x ≠ z) ∨ (x = z ∧ R = R0 ∧ c = Timeline))
    as Horigin.
  { intros R c x Hx.
    destruct (decide ((R, c) = (R0, Timeline))) as [[= -> ->]|Hne].
    - rewrite Hnew in Hx. apply elem_of_app in Hx as [Hx|Hx].
      + left. split; [done|]. intros ->. by eapply Hfresh.
      + right. by apply list_elem_of_singleton in Hx.
    - rewrite Hsame in Hx by done. left. split; [done|].
      intros ->. by eapply Hfresh. }
  split.
  - intros R c x [[Hx _]|(-> & _ & _)]%Horigin.
    + destruct (Hminted R c x Hx) as (k & t & -> & Hk).
      exists k, t. split; [done|lia].
    + exists (n + 1)%N, now. split; [done|lia].
  - intros R c.
    destruct (decide ((R, c) = (R0, Timeline))) as [[= -> ->]|Hne].
    + rewrite Hnew. apply NoDup_app. split_and!; [done| |apply NoDup_singleton].
      intros x Hx ->%list_elem_of_singleton. by eapply Hfresh.
    + by rewrite Hsame.
  - intros R c R' c' x Hx Hx'.
    apply Horigin in Hx as [[Hx Hz]|(Hz & -> & ->)];
      apply Horigin in Hx' as [[Hx' Hz']|(Hz' & -> & ->)];
      [by eapply Hapart|done..].
Qed.

Lemma layout_inv_move L L' n R0 c0 c1 x l1 l2 :
  layout_inv L n →
  c0 ≠ c1 →
  L R0 c0 = l1 ++ x :: l2 →
  L' R0 c0 = l1 ++ l2 →
  L' R0 c1 = L R0 c1 ++ [x] →
  (∀ R c, (R, c) ≠ (R0, c0) → (R, c) ≠ (R0, c1) → L' R c = L R c) →
  layout_inv L' n.
Proof.
  intros [Hminted Hnodup Hapart] Hc Hfrom Hfrom' Hto' Hsame.
  assert (x ∈ L R0 c0) as Hx0.
  { rewrite Hfrom. apply elem_of_app. right. by left. }
  assert (NoDup (l1 ++ l2) ∧ x ∉ l1 ++ l2) as [Hnd12 Hx12].
  { pose proof (Hnodup R0 c0) as Hnd. rewrite Hfrom in Hnd.
    apply NoDup_app in Hnd as (Hnd1 & Hdisj & [Hx2 Hnd2]%NoDup_cons).
    split.
    - apply NoDup_app. split_and!; [done| |done].
      intros y Hy Hy2. apply (Hdisj y Hy). by right.
    - intros [Hx1|Hx2']%elem_of_app; [|done].
      apply (Hdisj x Hx1). by left. }
  assert (∀ R c, x ∈ L R c → R = R0 ∧ c = c0) as Honly.
  { intros R c Hx. by apply (Hapart R c R0 c0 x). }
  assert (∀ R c y, y ∈ L' R c →
            (y ∈ L R c ∧ y ≠ x) ∨ (y = x ∧ R = R0 ∧ c = c1))
    as Horigin.
  { intros R c y Hy.
    destruct (decide ((R, c) = (R0, c0))) as [[= -> ->]|Hne0].
    - rewrite Hfrom' in Hy. left. split; [|by intros ->].
      rewrite Hfrom. apply elem_of_app.
      apply elem_of_app in Hy as [Hy|Hy]; [by left|right; by right].
    - destruct (decide ((R, c) = (R0, c1))) as [[= -> ->]|Hne1].
      + rewrite Hto' in Hy. apply elem_of_app in Hy as [Hy|Hy].
        * left. split; [done|]. intros ->.
          destruct (Honly _ _ Hy) as [_ ?]. by destruct Hc.
        * right. by apply list_elem_of_singleton in Hy.
      + rewrite Hsame in Hy by done. left. split; [done|]. intros ->.
        destruct (Honly _ _ Hy) as [-> ->]. by destruct Hne0. }
  split.
  - intros R c y [[Hy _]|(-> & _ & _)]%Horigin; [by eapply Hminted|].
    by eapply Hminted.
  - intros R c.
    destruct (decide ((R, c) = (R0, c0))) as [[= -> ->]|Hne0];
      [by rewrite Hfrom'|].
    destruct (decide ((R, c) = (R0, c1))) as [[= -> ->]|Hne1];
      [|by rewrite Hsame].
    rewrite Hto'. apply NoDup_app. split_and!; [done| |apply NoDup_singleton].
    intros y Hy ->%list_elem_of_singleton.
    destruct (Honly _ _ Hy) as [_ ?]. by destruct Hc.
  - intros R c R' c' y Hy Hy'.
    apply Horigin in Hy as [[Hy Hne]|(Hne & -> & ->)];
      apply Horigin in Hy' as [[Hy' Hne']|(Hne' & -> & ->)];
      [by eapply Hapart|done..].
Qed.

(** ** Every operation keeps the ids apart *)

Lemma ids_at_insert roomId rs (M : gmap string RoomState) n R c :
  ids_at (mk (<[roomId := rs]> M) n) R c
  = if decide (R = roomId) then Stroke.id <$> held rs c
    else ids_at (mk M n) R c.
Proof.
  unfold ids_at; simpl. case_decide as HR.
  - subst R. by rewrite lookup_insert_eq.
  - by rewrite lookup_insert_ne.
Qed.

Lemma dsm_inv_same m m' :
  dsm_inv m →
  (∀ R c, ids_at m' R c = ids_at m R c) →
  strokeIdCounter m' = strokeIdCounter m →
  dsm_inv m'.
Proof.
  unfold dsm_inv. intros Hinv Hsame ->.
  eapply layout_inv_shrink; [done| |done].
  intros R c. by rewrite Hsame.
Qed.

Lemma dsm_inv_new : dsm_inv new.
Proof.
  split; simpl.
  - intros R c x Hx. unfold ids_at in Hx; simpl in Hx.
    rewrite lookup_empty in Hx. by apply elem_of_nil in Hx.
  - intros R c. unfold ids_at; simpl. rewrite lookup_empty. constructor.
  - intros R c R' c' x Hx. unfold ids_at in Hx; simpl in Hx.
    rewrite lookup_empty in Hx. by apply elem_of_nil in Hx.
Qed.

Lemma dsm_inv_addStroke roomId d t1 t2 m :
  dsm_inv m → dsm_inv (addStroke roomId d t1 t2 m).2.
Proof.
  intros Hinv. unfold dsm_inv in *.
  set (u := StrokeData.userId d).
  set (L1 := λ R c,
         if decide (R = roomId ∧ c = UndoStack u) then []
         else ids_at m R c).
  assert (layout_inv L1 (strokeIdCounter m)) as Hinv1.
  { eapply layout_inv_shrink; [exact Hinv| |done].
    intros R c. unfold L1. case_decide; [apply sublist_nil_l|done]. }
  assert (strokeIdCounter (addStroke roomId d t1 t2 m).2
          = (strokeIdCounter m + 1)%N) as ->.
  { unfold addStroke, _getRoomState.
    by destruct (roomStates m !! roomId). }
  assert (∀ R c,
    ids_at (addStroke roomId d t1 t2 m).2 R c
    = if decide ((R, c) = (roomId, Timeline))
      then L1 R c ++ [strokeIdOf (strokeIdCounter m + 1) t1]
      else L1 R c) as Hids.
  { intros R c. unfold addStroke, _getRoomState, _generateStrokeId, L1.
    destruct (roomStates m !! roomId) as [rs|] eqn:Hrs;
      cbn [fst snd roomStates strokeIdCounter];
      rewrite ids_at_insert; unfold ids_at; simpl.
    - destruct (decide (R = roomId)) as [->|HR].
      + rewrite Hrs. destruct c as [|v]; simpl.
        * rewrite decide_True by done.
          rewrite decide_False by (by intros [_ [=]]).
          by rewrite fmap_app.
        * rewrite decide_False by (by intros [=]).
          destruct (decide (v = u)) as [->|Hv].
          -- rewrite decide_True by done. by rewrite lookup_delete_eq.
          -- rewrite decide_False by (intros [_ [=]]; done).
             by rewrite lookup_delete_ne.
      + rewrite (decide_False (P := (R, c) = (roomId, Timeline)))
          by (intros [=]; done).
        by rewrite (decide_False (P := R = roomId ∧ c = UndoStack u))
          by (intros [? _]; done).
    - destruct (decide (R = roomId)) as [->|HR].
      + rewrite Hrs. destruct c as [|v]; simpl.
        * rewrite decide_True by done.
          by rewrite decide_False by (by intros [_ [=]]).
        * rewrite decide_False by (by intros [=]).
          rewrite lookup_delete, lookup_empty.
          by repeat case_decide.
      + rewrite (decide_False (P := (R, c) = (roomId, Timeline)))
          by (intros [=]; done).
        rewrite (decide_False (P := R = roomId ∧ c = UndoStack u))
          by (intros [? _]; done).
        by rewrite lookup_insert_ne. }
  eapply (layout_inv_mint L1 _ _ roomId t1); [exact Hinv1| |].
  - rewrite Hids. by rewrite decide_True.
  - intros R c Hne. rewrite Hids. by rewrite decide_False.
Qed.

Lemma dsm_inv_updateStroke roomId strokeId px py m :
  dsm_inv m → dsm_inv (updateStroke roomId strokeId px py m).2.
Proof.
  intros Hinv. unfold updateStroke.
  destruct (roomStates m !! roomId) as [rs|] eqn:Hrs; [|done].
  destruct (list_find _ (strokes rs)) as [[i s]|] eqn:Hfind; [|done].
  apply list_find_Some in Hfind as (Hi & _ & _).
  simpl. eapply dsm_inv_same; [exact Hinv| |done].
  intros R c. rewrite ids_at_insert. case_decide as HR; [|done].
  subst R. unfold ids_at. rewrite Hrs.
  destruct c as [|v]; simpl; [|done].
  rewrite list_fmap_insert. apply list_insert_id.
  by rewrite list_lookup_fmap, Hi.
Qed.

Lemma dsm_inv_undo roomId u m : dsm_inv m → dsm_inv (undo roomId u m).2.
Proof.
  intros Hinv.
  destruct (undo roomId u m) as [[s|] m'] eqn:Hundo; simpl.
  - apply undo_Some in Hundo as (rs & l1 & l2 & Hrs & Hl & _ & _ & ->).
    unfold dsm_inv in *; simpl.
    eapply (layout_inv_move _ _ _ roomId Timeline (UndoStack u)
              (Stroke.id s) (Stroke.id <$> l1) (Stroke.id <$> l2));
      [exact Hinv|done|..].
    + unfold ids_at. rewrite Hrs; simpl. by rewrite Hl, fmap_app.
    + rewrite ids_at_insert, decide_True by done. simpl.
      by rewrite fmap_app.
    + rewrite ids_at_insert, decide_True by done. simpl.
      rewrite lookup_insert_eq; simpl. rewrite fmap_app.
      unfold ids_at. by rewrite Hrs.
    + intros R c Hne0 Hne1. rewrite ids_at_insert.
      case_decide as HR; [|done]. subst R.
      destruct c as [|v]; [done|]. simpl.
      rewrite lookup_insert_ne by (intros ->; done).
      unfold ids_at. by rewrite Hrs.
  - by apply undo_None in Hundo as [-> _].
Qed.

Lemma redo_cases roomId u m :
  redo roomId u m = (None, m)
  ∨ ∃ rs stack s,
      roomStates m !! roomId = Some rs
      ∧ undoStacks rs !! u = Some (stack ++ [s]).
Proof.
  unfold redo.
  destruct (roomStates m !! roomId) as [rs|] eqn:Hrs; [|by left].
  destruct (undoStacks rs !! u) as [st|] eqn:Hst; [|by left].
  destruct (last st) as [s|] eqn:Hlast; [|by left].
  apply last_Some in Hlast as [stack ->]. right. by exists rs, stack, s.
Qed.

Lemma dsm_inv_redo roomId u m : dsm_inv m → dsm_inv (redo roomId u m).2.
Proof.
  intros Hinv.
  destruct (redo_cases roomId u m) as [->|(rs & stack & s & Hrs & Hst)];
    [done|].
  rewrite (redo_top roomId u m rs stack s Hrs Hst).
  unfold dsm_inv in *; simpl.
  eapply (layout_inv_move _ _ _ roomId (UndoStack u) Timeline
            (Stroke.id s) (Stroke.id <$> stack) []);
    [exact Hinv|done|..].
  - unfold ids_at. rewrite Hrs; simpl. rewrite Hst; simpl.
    by rewrite fmap_app.
  - rewrite ids_at_insert, decide_True by done. simpl.
    rewrite app_nil_r. case_decide as Hlen.
    + rewrite lookup_delete_eq. by apply length_zero_iff_nil in Hlen as ->.
    + by rewrite lookup_insert_eq.
  - rewrite ids_at_insert, decide_True by done. simpl.
    rewrite fmap_app. unfold ids_at. by rewrite Hrs.
  - intros R c Hne0 Hne1. rewrite ids_at_insert.
    case_decide as HR; [|done]. subst R.
    destruct c as [|v]; [done|]. simpl.
    assert (v ≠ u) by (intros ->; done).
    unfold ids_at. rewrite Hrs; simpl.
    case_decide; [by rewrite lookup_delete_ne|by rewrite lookup_insert_ne].
Qed.

Lemma dsm_inv_clearRoom roomId m : dsm_inv m → dsm_inv (clearRoom roomId m).
Proof.
  intros Hinv. unfold dsm_inv in *; simpl.
  eapply layout_inv_shrink; [exact Hinv| |done].
  intros R c. unfold ids_at; simpl.
  destruct (decide (R = roomId)) as [->|HR].
  - rewrite lookup_delete_eq. apply sublist_nil_l.
  - by rewrite lookup_delete_ne.
Qed.

Lemma dsm_inv_step m o : dsm_inv m → dsm_inv (dsm_step m o).
Proof.
  intros Hinv. destruct o; simpl.
  - by apply dsm_inv_addStroke.
  - by apply dsm_inv_updateStroke.
  - done.
  - by apply dsm_inv_undo.
  - by apply dsm_inv_redo.
  - by rewrite getFullState_state.
  - by apply dsm_inv_clearRoom.
Qed.

Lemma dsm_inv_run ops m : dsm_inv m → dsm_inv (dsm_run ops m).
Proof.
  revert m. induction ops as [|o ops IH]; intros m Hinv; [done|].
  simpl. apply IH. by apply dsm_inv_step.
Qed.

Lemma stroke_at_id m R c i s :
  stroke_at m R c i = Some s → ids_at m R c !! i = Some (Stroke.id s).
Proof.
  unfold stroke_at, ids_at.
  destruct (roomStates m !! R) as [rs|]; simpl; [|done].
  intros Hi. by rewrite list_lookup_fmap, Hi.
Qed.

(** C9: in every state reached from the fresh manager by the operations of
    the store, two places that hold strokes with the same id are one place:
    the same room, the same container (the timeline or the undo stack of
    one user) and the same index.  A stroke id is thus never both in a
    timeline and in an undo stack, nor in the stacks of two users. *)
Theorem stroke_held_once (ops : list dsm_op) (R R' : string)
    (c c' : container) (i i' : nat) (s s' : Stroke.t) :
  stroke_at (dsm_run ops new) R c i = Some s →
  stroke_at (dsm_run ops new) R' c' i' = Some s' →
  Stroke.id s = Stroke.id s' →
  R = R' ∧ c = c' ∧ i = i'.
Proof.
  intros Hs Hs' Hid.
  destruct (dsm_inv_run ops new dsm_inv_new) as [_ Hnodup Hapart].
  apply stroke_at_id in Hs, Hs'. rewrite <- Hid in Hs'.
  destruct (Hapart R c R' c' (Stroke.id s)) as [<- <-];
    [by eapply list_elem_of_lookup_2..|].
  split_and!; [done..|].
  by eapply NoDup_lookup.
Qed.

Lemma stroke_held_once_witness :
  stroke_at (dsm_run sample_draw new) "default" Timeline 1
    = Some sample_strokeB
  ∧ "default" = "default" ∧ Timeline = Timeline ∧ 1 = 1.
Proof.
  assert (stroke_at (dsm_run sample_draw new) "default" Timeline 1
          = Some sample_strokeB) as Hat by (vm_compute; reflexivity).
  split; [exact Hat|].
  exact (stroke_held_once sample_draw "default" "default" Timeline Timeline
           1 1 sample_strokeB sample_strokeB Hat Hat eq_refl).
Defined.

(** ** The registry: colours of the members of a room *)

Lemma member_colors_eq R m :
  member_colors R m = colors_of (RoomManager.users m) (room_members R m).
Proof.
  unfold member_colors, RoomManager.getRoomUsers, room_members, colors_of.
  by destruct (RoomManager.rooms m !! R).
Qed.

Lemma colors_of_app U l1 l2 :
  colors_of U (l1 ++ l2) = colors_of U l1 ++ colors_of U l2.
Proof. unfold colors_of. by rewrite omap_app, fmap_app. Qed.

Lemma colors_of_insert_notin U s u l :
  s ∉ l → colors_of (<[s := u]> U) l = colors_of U l.
Proof.
  unfold colors_of. intros Hs. f_equal.
  induction l as [|x l IH]; [done|].
  apply not_elem_of_cons in Hs as [Hx Hl]. specialize (IH Hl).
  simpl. rewrite lookup_insert_ne by done.
  destruct (U !! x); [f_equal|]; exact IH.
Qed.

Lemma colors_of_delete_notin U s l :
  s ∉ l → colors_of (delete s U) l = colors_of U l.
Proof.
  unfold colors_of. intros Hs. f_equal.
  induction l as [|x l IH]; [done|].
  apply not_elem_of_cons in Hs as [Hx Hl]. specialize (IH Hl).
  simpl. rewrite lookup_delete_ne by done.
  destruct (U !! x); [f_equal|]; exact IH.
Qed.

Lemma colors_of_length U l :
  (∀ x, x ∈ l → is_Some (U !! x)) → length (colors_of U l) = length l.
Proof.
  unfold colors_of. rewrite length_fmap.
  induction l as [|x l IH]; [done|]. intros Hall. simpl.
  destruct (Hall x) as [u ->]; [by left|]. simpl. f_equal.
  apply IH. intros y Hy. apply Hall. by right.
Qed.

Lemma USER_COLORS_NoDup : NoDup USER_COLORS.
Proof. apply (bool_decide_unpack _). by vm_compute. Qed.

(** With fewer used colours than the palette has, the find succeeds and
    returns a free colour. *)
Lemma firstFreeColor_free (usedColors : gset string) :
  size usedColors < length USER_COLORS →
  ∃ c, RoomManager.firstFreeColor usedColors = Some c ∧ c ∉ usedColors.
Proof.
  intros Hsize. unfold RoomManager.firstFreeColor.
  destruct (list_find (λ c, c ∉ usedColors) USER_COLORS) as [[i c]|]
    eqn:Hfind.
  - apply list_find_Some in Hfind as (_ & Hc & _). by exists c.
  - apply list_find_None in Hfind.
    assert (list_to_set USER_COLORS ⊆ usedColors) as Hsub.
    { intros c Hc%elem_of_list_to_set.
      rewrite Forall_forall in Hfind.
      destruct (decide (c ∈ usedColors)) as [|Hnot]; [done|].
      by destruct (Hfind c Hc). }
    apply subseteq_size in Hsub.
    rewrite size_list_to_set in Hsub by apply USER_COLORS_NoDup. lia.
Qed.

Lemma set_add_fresh s l : s ∉ l → RoomManager.set_add s l = l ++ [s].
Proof. intros Hs. unfold RoomManager.set_add. by rewrite decide_False. Qed.

Lemma set_delete_notin s l : s ∉ l → RoomManager.set_delete s l = l.
Proof.
  unfold RoomManager.set_delete. induction l as [|x l IH]; [done|].
  intros [Hx Hl]%not_elem_of_cons.
  rewrite filter_cons, decide_True by done. by rewrite IH.
Qed.

Lemma set_delete_middle s l1 l2 :
  s ∉ l1 → s ∉ l2 → RoomManager.set_delete s (l1 ++ s :: l2) = l1 ++ l2.
Proof.
  intros H1 H2. pose proof (set_delete_notin s l1 H1) as E1.
  pose proof (set_delete_notin s l2 H2) as E2.
  unfold RoomManager.set_delete in *.
  rewrite filter_app, filter_cons, decide_False by (by intros []).
  by rewrite E1, E2.
Qed.

Lemma room_members_NoDup R m : rm_inv m → NoDup (room_members R m).
Proof.
  intros Hinv. unfold room_members.
  destruct (RoomManager.rooms m !! R) as [l|] eqn:Hl; simpl.
  - by eapply rm_nodup.
  - constructor.
Qed.

Lemma room_members_user R m s :
  rm_inv m → s ∈ room_members R m →
  ∃ u, RoomManager.users m !! s = Some u ∧ User.roomId u = R.
Proof.
  intros Hinv. unfold room_members.
  destruct (RoomManager.rooms m !! R) as [l|] eqn:Hl; simpl.
  - by eapply rm_member_user.
  - by intros ?%elem_of_nil.
Qed.

Lemma room_members_unregistered R m s :
  rm_inv m → RoomManager.users m !! s = None → s ∉ room_members R m.
Proof.
  intros Hinv Hnone Hs.
  destruct (room_members_user R m s Hinv Hs) as (u & Hu & _). congruence.
Qed.

Lemma room_members_elsewhere R m s u :
  rm_inv m → RoomManager.users m !! s = Some u → User.roomId u ≠ R →
  s ∉ room_members R m.
Proof.
  intros Hinv Hu Hne Hs.
  destruct (room_members_user R m s Hinv Hs) as (u' & Hu' & HR). congruence.
Qed.

(** [addUser] on a consistent registry, written out. *)
Lemma addUser_result s R now rnd m :
  rm_inv m →
  let c := RoomManager.assignColor (room_used R m) rnd in
  let n := (RoomManager.userIdCounter m + 1)%N in
  let user := User.mk (RoomManager.userIdOf n now) s R c in
  RoomManager.addUser s R now rnd m
  = Some (user,
          RoomManager.mk
            (<[s := user]> (RoomManager.users m))
            (<[R := RoomManager.set_add s (room_members R m)]>
               (RoomManager.rooms m))
            (<[R := {[c]} ∪ room_used R m]> (RoomManager.roomColors m))
            n).
Proof.
  intros Hinv. unfold RoomManager.addUser, room_members, room_used.
  pose proof (rm_colors_dom m Hinv R) as Hdom.
  destruct (RoomManager.rooms m !! R) as [l|] eqn:Hl.
  - destruct (proj1 Hdom) as [cs Hcs]; [by eexists|].
    rewrite Hcs; simpl. by rewrite Hl.
  - destruct (RoomManager.roomColors m !! R) as [cs|] eqn:Hcs.
    { destruct (proj2 Hdom) as [? ?]; [by eexists|done]. }
    rewrite !lookup_insert_eq; simpl. by rewrite !insert_insert_eq.
Qed.

(** [removeUser] of a registered connection on a consistent registry,
    written out. *)
Lemma removeUser_result s m u :
  rm_inv m →
  RoomManager.users m !! s = Some u →
  let R := User.roomId u in
  s ∈ room_members R m
  ∧ RoomManager.removeUser s m
    = Some (if decide (length (RoomManager.set_delete s (room_members R m))
                       = 0)
            then RoomManager.mk
                   (delete s (RoomManager.users m))
                   (delete R (RoomManager.rooms m))
                   (delete R (RoomManager.roomColors m))
                   (RoomManager.userIdCounter m)
            else RoomManager.mk
                   (delete s (RoomManager.users m))
                   (<[R := RoomManager.set_delete s (room_members R m)]>
                      (RoomManager.rooms m))
                   (<[R := room_used R m ∖ {[User.color u]}]>
                      (RoomManager.roomColors m))
                   (RoomManager.userIdCounter m)).
Proof.
  intros Hinv Hu R.
  destruct (rm_user_member m Hinv s u Hu) as (l & Hl & Hs).
  destruct (proj1 (rm_colors_dom m Hinv R)) as [cs Hcs]; [by eexists|].
  unfold RoomManager.removeUser, room_members, room_used.
  fold R in Hl. rewrite Hu; simpl. fold R. rewrite Hl, Hcs; simpl.
  split; [done|]. by case_decide.
Qed.

Lemma removeUser_unregistered s m :
  RoomManager.users m !! s = None → RoomManager.removeUser s m = Some m.
Proof. intros Hs. unfold RoomManager.removeUser. by rewrite Hs. Qed.

Lemma rm_inv_new : rm_inv RoomManager.new.
Proof.
  split; simpl.
  - intros R l. by rewrite lookup_empty.
  - intros R l s. by rewrite lookup_empty.
  - intros s u. by rewrite lookup_empty.
  - intros R. rewrite !lookup_empty. split; by intros [? ?].
Qed.

Lemma rm_inv_addUser s R now rnd m u m' :
  rm_inv m →
  RoomManager.users m !! s = None →
  RoomManager.addUser s R now rnd m = Some (u, m') →
  rm_inv m'.
Proof.
  intros Hinv Hfresh Hadd.
  pose proof (addUser_result s R now rnd m Hinv) as Hres.
  cbv zeta in Hres. rewrite Hres in Hadd. clear Hres.
  injection Hadd as <- <-.
  pose proof (room_members_unregistered R m s Hinv Hfresh) as Hnotin.
  rewrite set_add_fresh by done.
  split; simpl.
  - intros R' l' Hl'. destruct (decide (R' = R)) as [->|HR].
    + rewrite lookup_insert_eq in Hl'. injection Hl' as <-.
      apply NoDup_app.
      split_and!; [by apply room_members_NoDup| |apply NoDup_singleton].
      by intros x Hx ->%list_elem_of_singleton.
    + rewrite lookup_insert_ne in Hl' by done. by eapply rm_nodup.
  - intros R' l' x Hl' Hx. destruct (decide (R' = R)) as [->|HR].
    + rewrite lookup_insert_eq in Hl'. injection Hl' as <-.
      apply elem_of_app in Hx as [Hx| ->%list_elem_of_singleton].
      * destruct (room_members_user R m x Hinv Hx) as (u' & Hu' & HR).
        exists u'. split; [|done].
        rewrite lookup_insert_ne; [done|]. by intros ->.
      * rewrite lookup_insert_eq. by eexists.
    + rewrite lookup_insert_ne in Hl' by done.
      destruct (rm_member_user m Hinv R' l' x Hl' Hx) as (u' & Hu' & HR').
      exists u'. split; [|done].
      rewrite lookup_insert_ne; [done|]. intros ->. congruence.
  - intros x u' Hx. destruct (decide (x = s)) as [->|Hxs].
    + rewrite lookup_insert_eq in Hx. injection Hx as <-. simpl.
      rewrite lookup_insert_eq. eexists. split; [done|].
      apply elem_of_app. right. by left.
    + rewrite lookup_insert_ne in Hx by done.
      destruct (rm_user_member m Hinv x u' Hx) as (l' & Hl' & Hxl').
      destruct (decide (User.roomId u' = R)) as [HR|HR].
      * rewrite HR, lookup_insert_eq. eexists. split; [done|].
        apply elem_of_app. left. unfold room_members.
        by rewrite <- HR, Hl'.
      * rewrite lookup_insert_ne by done. by exists l'.
  - intros R'. destruct (decide (R' = R)) as [->|HR].
    + rewrite !lookup_insert_eq. split; by eexists.
    + rewrite !lookup_insert_ne by done. by apply rm_colors_dom.
Qed.

Lemma rm_inv_removeUser s m :
  rm_inv m →
  ∃ m', RoomManager.removeUser s m = Some m' ∧ rm_inv m'.
Proof.
  intros Hinv.
  destruct (RoomManager.users m !! s) as [u|] eqn:Hu;
    [|exists m; by rewrite removeUser_unregistered].
  destruct (removeUser_result s m u Hinv Hu) as [Hs ->].
  set (R := User.roomId u). eexists. split; [done|].
  assert (∀ R' l' x, RoomManager.rooms m !! R' = Some l' → x ∈ l' →
            R' ≠ R → x ≠ s) as Hother.
  { intros R' l' x Hl' Hx HR' ->.
    destruct (rm_member_user m Hinv R' l' s Hl' Hx) as (u' & Hu' & ?).
    subst R. congruence. }
  case_decide as Hlen.
  - split; simpl.
    + intros R' l' Hl'. apply lookup_delete_Some in Hl' as [_ Hl'].
      by eapply rm_nodup.
    + intros R' l' x Hl' Hx. apply lookup_delete_Some in Hl' as [HR' Hl'].
      destruct (rm_member_user m Hinv R' l' x Hl' Hx) as (u' & Hu' & ?).
      exists u'. split; [|done]. rewrite lookup_delete_ne; [done|].
      intros <-. by eapply Hother.
    + intros x u' Hx. apply lookup_delete_Some in Hx as [Hxs Hx].
      destruct (rm_user_member m Hinv x u' Hx) as (l' & Hl' & Hxl').
      exists l'. split; [|done]. rewrite lookup_delete_ne; [done|].
      intros HR. apply length_zero_iff_nil in Hlen.
      assert (x ∈ RoomManager.set_delete s (room_members R m)) as Hin.
      { unfold RoomManager.set_delete, room_members.
        apply list_elem_of_filter. split; [done|].
        by rewrite HR, Hl'. }
      rewrite Hlen in Hin. by apply elem_of_nil in Hin.
    + intros R'. destruct (decide (R' = R)) as [->|HR].
      * rewrite !lookup_delete_eq. split; by intros [? ?].
      * rewrite !lookup_delete_ne by done. by apply rm_colors_dom.
  - split; simpl.
    + intros R' l' Hl'. destruct (decide (R' = R)) as [->|HR].
      * rewrite lookup_insert_eq in Hl'. injection Hl' as <-.
        apply NoDup_filter. by apply room_members_NoDup.
      * rewrite lookup_insert_ne in Hl' by done. by eapply rm_nodup.
    + intros R' l' x Hl' Hx. destruct (decide (R' = R)) as [->|HR].
      * rewrite lookup_insert_eq in Hl'. injection Hl' as <-.
        apply list_elem_of_filter in Hx as [Hxs Hx].
        destruct (room_members_user R m x Hinv Hx) as (u' & Hu' & ?).
        exists u'. split; [|done]. by rewrite lookup_delete_ne.
      * rewrite lookup_insert_ne in Hl' by done.
        destruct (rm_member_user m Hinv R' l' x Hl' Hx) as (u' & Hu' & ?).
        exists u'. split; [|done]. rewrite lookup_delete_ne; [done|].
        intros <-. by eapply Hother.
    + intros x u' Hx. apply lookup_delete_Some in Hx as [Hxs Hx].
      destruct (rm_user_member m Hinv x u' Hx) as (l' & Hl' & Hxl').
      destruct (decide (User.roomId u' = R)) as [HR|HR].
      * rewrite HR, lookup_insert_eq. eexists. split; [done|].
        apply list_elem_of_filter. split; [done|].
        unfold room_members. by rewrite <- HR, Hl'.
      * rewrite lookup_insert_ne by done. by exists l'.
    + intros R'. destruct (decide (R' = R)) as [->|HR].
      * rewrite !lookup_insert_eq. split; by eexists.
      * rewrite !lookup_insert_ne by done. by apply rm_colors_dom.
Qed.

Lemma palette_exact_size R m :
  rm_inv m → palette_exact R m →
  size (room_used R m) = length (room_members R m).
Proof.
  intros Hinv [Hnd ->]. rewrite size_list_to_set by done.
  rewrite member_colors_eq. apply colors_of_length.
  intros x Hx. destruct (room_members_user R m x Hinv Hx) as (u & -> & _).
  by eexists.
Qed.

Lemma palette_exact_frame R m m' :
  palette_exact R m →
  room_members R m' = room_members R m →
  room_used R m' = room_used R m →
  colors_of (RoomManager.users m') (room_members R m)
  = colors_of (RoomManager.users m) (room_members R m) →
  palette_exact R m'.
Proof.
  unfold palette_exact. rewrite !member_colors_eq.
  by intros Hgood -> -> ->.
Qed.

Lemma palette_exact_addUser R s R0 now rnd m u m' :
  rm_inv m →
  palette_exact R m →
  RoomManager.users m !! s = None →
  RoomManager.addUser s R0 now rnd m = Some (u, m') →
  RoomManager.getRoomUserCount R m' ≤ length USER_COLORS →
  palette_exact R m'.
Proof.
  intros Hinv Hgood Hfresh Hadd Hcount.
  pose proof (addUser_result s R0 now rnd m Hinv) as Hres.
  cbv zeta in Hres. rewrite Hres in Hadd. clear Hres.
  injection Hadd as <- <-.
  pose proof (room_members_unregistered R m s Hinv Hfresh) as Hnotin.
  destruct (decide (R = R0)) as [<-|HR].
  - rewrite set_add_fresh in * by done.
    unfold RoomManager.getRoomUserCount in Hcount; simpl in Hcount.
    rewrite lookup_insert_eq, length_app in Hcount; simpl in Hcount.
    destruct (firstFreeColor_free (room_used R m)) as (c & Hc & Hfree).
    { rewrite palette_exact_size by done.
      change (length USER_COLORS) with 10 in *. lia. }
    unfold RoomManager.assignColor. rewrite Hc.
    destruct Hgood as [Hnd Hused].
    match goal with |- palette_exact _ ?x => set (m' := x) end.
    assert (member_colors R m' = member_colors R m ++ [c]) as Hmc.
    { rewrite !member_colors_eq. unfold room_members at 1. simpl.
      rewrite lookup_insert_eq; simpl.
      rewrite colors_of_app, colors_of_insert_notin by done.
      unfold colors_of at 2; simpl. by rewrite lookup_insert_eq. }
    assert (room_used R m' = {[c]} ∪ room_used R m) as Hru.
    { unfold room_used at 1. simpl. by rewrite lookup_insert_eq. }
    assert (c ∉ member_colors R m) as Hcmc.
    { intros Hin. apply Hfree. rewrite Hused.
      by apply elem_of_list_to_set. }
    unfold palette_exact. rewrite Hmc, Hru. split.
    + apply NoDup_app. split_and!; [done| |apply NoDup_singleton].
      by intros x Hx ->%list_elem_of_singleton.
    + rewrite Hused, list_to_set_app_L. simpl.
      rewrite (right_id_L ∅ (∪)). apply (comm_L (∪)).
  - eapply palette_exact_frame; [exact Hgood|..].
    + unfold room_members; simpl. by rewrite lookup_insert_ne.
    + unfold room_used; simpl. by rewrite lookup_insert_ne.
    + simpl. by apply colors_of_insert_notin.
Qed.

Lemma palette_exact_removeUser R s m m' :
  rm_inv m →
  palette_exact R m →
  RoomManager.removeUser s m = Some m' →
  palette_exact R m'.
Proof.
  intros Hinv Hgood Hrem.
  destruct (RoomManager.users m !! s) as [u|] eqn:Hu;
    [|rewrite removeUser_unregistered in Hrem by done; congruence].
  destruct (removeUser_result s m u Hinv Hu) as [Hs Hres].
  rewrite Hres in Hrem. clear Hres. injection Hrem as <-.
  destruct (decide (R = User.roomId u)) as [->|HR].
  - set (R := User.roomId u) in *.
    case_decide as Hlen.
    + unfold palette_exact. rewrite member_colors_eq.
      unfold room_members, room_used; simpl.
      rewrite !lookup_delete_eq; simpl. split; [constructor|done].
    + apply list_elem_of_split in Hs as (l1 & l2 & Hl).
      pose proof (room_members_NoDup R m Hinv) as Hnd. rewrite Hl in Hnd.
      apply NoDup_app in Hnd as (_ & Hdisj & [Hs2 _]%NoDup_cons).
      assert (s ∉ l1) as Hs1.
      { intros Hin. apply (Hdisj s Hin). by left. }
      set (U := RoomManager.users m) in *.
      assert (member_colors R m
              = colors_of U l1 ++ User.color u :: colors_of U l2) as Hmc.
      { rewrite member_colors_eq, Hl, colors_of_app. f_equal.
        change (s :: l2) with ([s] ++ l2). rewrite colors_of_app.
        unfold colors_of at 1; simpl. fold U. by rewrite Hu. }
      match goal with |- palette_exact _ ?x => set (m' := x) end.
      assert (member_colors R m' = colors_of U l1 ++ colors_of U l2) as Hmc'.
      { rewrite member_colors_eq. unfold room_members at 1. simpl.
        rewrite lookup_insert_eq; simpl.
        rewrite Hl, set_delete_middle by done.
        rewrite colors_of_delete_notin
          by (intros [?|?]%elem_of_app; done).
        apply colors_of_app. }
      assert (room_used R m' = room_used R m ∖ {[User.color u]}) as Hru.
      { unfold room_used at 1. simpl. by rewrite lookup_insert_eq. }
      destruct Hgood as [Hndc Hused]. rewrite Hmc in Hndc, Hused.
      apply NoDup_app in Hndc as (Hnd1 & Hdisjc & [Hc2 Hnd2]%NoDup_cons).
      assert (User.color u ∉ colors_of U l1) as Hc1.
      { intros Hin. apply (Hdisjc _ Hin). by left. }
      unfold palette_exact. rewrite Hmc', Hru. split.
      * apply NoDup_app. split_and!; [done| |done].
        intros x Hx Hx2. apply (Hdisjc x Hx). by right.
      * rewrite Hused. apply set_eq. intros c.
        rewrite elem_of_difference, !elem_of_list_to_set, !elem_of_app,
          elem_of_cons, elem_of_singleton.
        split.
        -- intros [[?|[?|?]] ?]; tauto.
        -- intros [?|?]; (split; [tauto|by intros ->]).
  - pose proof (room_members_elsewhere R m s u Hinv Hu) as Hnotin.
    eapply palette_exact_frame; [exact Hgood|..].
    + unfold room_members. case_decide; simpl;
        by rewrite ?lookup_delete_ne, ?lookup_insert_ne.
    + unfold room_used. case_decide; simpl;
        by rewrite ?lookup_delete_ne, ?lookup_insert_ne.
    + case_decide; simpl; apply colors_of_delete_notin; by apply Hnotin.
Qed.

Lemma rm_step_good R o m :
  rm_inv m →
  palette_exact R m →
  match o with
  | Join s _ _ _ => RoomManager.users m !! s = None
  | Leave _ => True
  end →
  ∃ m', rm_step m o = Some m'
        ∧ rm_inv m'
        ∧ (RoomManager.getRoomUserCount R m' ≤ length USER_COLORS →
           palette_exact R m').
Proof.
  intros Hinv Hgood Hfresh. destruct o as [s R0 now rnd|s]; simpl.
  - pose proof (addUser_result s R0 now rnd m Hinv) as Hres.
    cbv zeta in Hres. eexists.
    split; [by rewrite Hres|].
    split; [exact (rm_inv_addUser s R0 now rnd m _ _ Hinv Hfresh Hres)|].
    intros Hcount.
    exact (palette_exact_addUser R s R0 now rnd m _ _ Hinv Hgood Hfresh
             Hres Hcount).
  - destruct (rm_inv_removeUser s m Hinv) as (m' & Hrem & Hinv').
    exists m'. split; [exact Hrem|]. split; [exact Hinv'|].
    intros _. exact (palette_exact_removeUser R s m m' Hinv Hgood Hrem).
Qed.

Lemma rm_run_good R ops :
  ∀ m, rm_inv m → palette_exact R m →
       fresh_joins ops m → within_palette R ops m →
       ∀ n, ∃ m', rm_run (take n ops) m = Some m'
                  ∧ rm_inv m' ∧ palette_exact R m'
                  ∧ fresh_joins (drop n ops) m'
                  ∧ within_palette R (drop n ops) m'.
Proof.
  induction ops as [|o ops IH]; intros m Hinv Hgood Hfresh Hwithin n.
  - rewrite take_nil, drop_nil. by exists m.
  - destruct n as [|n]; [by exists m|].
    destruct Hfresh as [Ho Hfresh]. destruct Hwithin as [_ Hwithin].
    destruct (rm_step_good R o m Hinv Hgood Ho)
      as (m1 & Hstep & Hinv1 & Hgood1).
    simpl. rewrite Hstep in *. simpl.
    apply IH; [done| |done..].
    apply Hgood1. destruct ops; by destruct Hwithin.
Qed.

Lemma palette_exact_new R : palette_exact R RoomManager.new.
Proof.
  unfold palette_exact, member_colors, RoomManager.getRoomUsers, room_used.
  simpl. rewrite !lookup_empty. simpl. split; [constructor|done].
Qed.

(** The colour given by a join is the first colour of the palette that no
    member of the room has. *)
Lemma addUser_first_fit s R now rnd m u m' :
  rm_inv m → palette_exact R m →
  length (room_members R m) < length USER_COLORS →
  RoomManager.addUser s R now rnd m = Some (u, m') →
  ∃ i : nat,
    (USER_COLORS !! i) = Some (User.color u)
    ∧ (User.color u ∉ member_colors R m)
    ∧ (∀ j c, j < i → USER_COLORS !! j = Some c → c ∈ member_colors R m).
Proof.
  intros Hinv Hgood Hlen Hadd.
  pose proof (addUser_result s R now rnd m Hinv) as Hres.
  cbv zeta in Hres. rewrite Hres in Hadd. clear Hres.
  injection Hadd as <- <-. simpl.
  destruct (firstFreeColor_free (room_used R m)) as (c & Hc & _).
  { by rewrite palette_exact_size. }
  unfold RoomManager.assignColor. rewrite Hc.
  unfold RoomManager.firstFreeColor in Hc.
  destruct (list_find _ USER_COLORS) as [[i c']|] eqn:Hfind; [|done].
  injection Hc as ->.
  apply list_find_Some in Hfind as (Hi & Hfree & Hbefore).
  destruct Hgood as [_ Hused]. rewrite Hused in Hfree, Hbefore.
  exists i. split_and!; [done| |].
  - by rewrite elem_of_list_to_set in Hfree.
  - intros j c' Hj Hc'. specialize (Hbefore j c' Hc' Hj).
    destruct (decide (c' ∈ member_colors R m)) as [|Hnot]; [done|].
    destruct Hbefore. by rewrite elem_of_list_to_set.
Qed.

(** Where the registry does keep colours apart: along every sequence of
    joins and leaves that starts from the empty registry, in which each
    join is made by a connection without a user at that time and the
    member count of the room stays within the 10 colours of the palette,
    every step succeeds, the members of the room have pairwise distinct
    colours after each step, and the used colours of the room are exactly
    the colours of its members (a colour is free again once its member has
    left).  A join of the sequence gives the new member the first colour
    of the palette that no member of the room has. *)
Lemma distinct_colors_fresh_joins (R : string) (ops : list rm_op)
    (n : nat) :
  fresh_joins ops RoomManager.new →
  within_palette R ops RoomManager.new →
  ∃ m, rm_run (take n ops) RoomManager.new = Some m
       ∧ NoDup (member_colors R m)
       ∧ room_used R m = list_to_set (member_colors R m)
       ∧ ∀ s now rnd,
           ops !! n = Some (Join s R now rnd) →
           ∃ u m' (i : nat),
             RoomManager.addUser s R now rnd m = Some (u, m')
             ∧ (USER_COLORS !! i) = Some (User.color u)
             ∧ (User.color u ∉ member_colors R m)
             ∧ (∀ j c, j < i → USER_COLORS !! j = Some c →
                       c ∈ member_colors R m).
Proof.
  intros Hfresh Hwithin.
  destruct (rm_run_good R ops RoomManager.new rm_inv_new
              (palette_exact_new R) Hfresh Hwithin n)
    as (m & Hrun & Hinv & Hgood & Hfresh' & Hwithin').
  exists m. destruct Hgood as [Hnd Hused]. split_and!; [done..|].
  intros s now rnd Hn.
  rewrite (drop_S _ _ _ Hn) in Hfresh', Hwithin'.
  destruct Hfresh' as [Hs _]. destruct Hwithin' as [_ Hnext].
  pose proof (addUser_result s R now rnd m Hinv) as Hres.
  cbv zeta in Hres. simpl in Hnext. rewrite Hres in Hnext. simpl in Hnext.
  assert (RoomManager.getRoomUserCount R
            (RoomManager.mk
               (<[s := User.mk
                         (RoomManager.userIdOf
                            (RoomManager.userIdCounter m + 1) now)
                         s R (RoomManager.assignColor (room_used R m) rnd)]>
                  (RoomManager.users m))
               (<[R := RoomManager.set_add s (room_members R m)]>
                  (RoomManager.rooms m))
               (<[R := {[RoomManager.assignColor (room_used R m) rnd]}
                       ∪ room_used R m]> (RoomManager.roomColors m))
               (RoomManager.userIdCounter m + 1))
          ≤ length USER_COLORS) as Hcount.
  { destruct (drop (S n) ops); by destruct Hnext. }
  unfold RoomManager.getRoomUserCount in Hcount. simpl in Hcount.
  rewrite lookup_insert_eq in Hcount.
  rewrite set_add_fresh in Hcount
    by (by apply room_members_unregistered).
  rewrite length_app in Hcount. simpl in Hcount.
  assert (length (room_members R m) < length USER_COLORS) as Hlt.
  { change (length USER_COLORS) with 10. lia. }
  edestruct (addUser_first_fit s R now rnd m) as (i & Hi & Hfree & Hfirst);
    [exact Hinv|exact (conj Hnd Hused)|exact Hlt|exact Hres|].
  eexists _, _, i. split; [exact Hres|]. by split_and!.
Qed.

(** C7: [addUser] does not keep the colours of the members of a room
    apart when a connection joins again.  The registry tracks the used
    colours of a room to give its members different colours and frees a
    colour when its member leaves, but a [join-room] of a connection that
    already has a user gives it a new colour and leaves the old one marked
    as used.  At [rejoin_trace] the member count of the room never exceeds
    the palette size, the ten joins of the first connection use up the
    palette with one member in the room, and the second member gets, at
    random, the colour of the first: the room has two members and both
    have the colour "#52BE80". *)
Theorem rejoin_shares_color :
  within_palette "default" rejoin_trace RoomManager.new
  ∧ (RoomManager.getRoomUserCount "default"
       <$> rm_run rejoin_trace RoomManager.new) = Some 2
  ∧ (member_colors "default" <$> rm_run rejoin_trace RoomManager.new)
    = Some ["#52BE80"; "#52BE80"]
  ∧ (room_used "default" <$> rm_run (take 10 rejoin_trace) RoomManager.new)
    = Some (list_to_set USER_COLORS)
  ∧ (RoomManager.getRoomUserCount "default"
       <$> rm_run (take 10 rejoin_trace) RoomManager.new) = Some 1.
Proof.
  split; [vm_compute; repeat split; lia|].
  split; [vm_compute; reflexivity|].
  split; [vm_compute; reflexivity|].
  split; vm_compute; reflexivity.
Qed.

(** ** Leaving a room *)

Lemma falsy_str_false (s : string) : s ≠ "" → falsy_str s = false.
Proof. intros Hs. unfold falsy_str. by apply String.eqb_neq. Qed.

(** * Further properties of the drawing state *)

(** ** What [updateStroke] changes *)

Lemma updateStroke_found roomId strokeId px py m rs i s :
  roomStates m !! roomId = Some rs →
  list_find (λ s, Stroke.id s = strokeId) (strokes rs) = Some (i, s) →
  updateStroke roomId strokeId px py m
  = (true,
     mk (<[roomId :=
            mkRoomState (<[i := pushPoint s (Point.mk px py)]> (strokes rs))
              (undoStacks rs)]> (roomStates m))
        (strokeIdCounter m)).
Proof. intros Hrs Hfind. unfold updateStroke. by rewrite Hrs, Hfind. Qed.

Lemma updateStroke_cases roomId strokeId px py m :
  (updateStroke roomId strokeId px py m = (false, m)
   ∧ Forall (λ s, Stroke.id s ≠ strokeId) (timeline roomId m))
  ∨ ∃ rs i s,
      roomStates m !! roomId = Some rs
      ∧ list_find (λ s, Stroke.id s = strokeId) (strokes rs) = Some (i, s)
      ∧ updateStroke roomId strokeId px py m
        = (true,
           mk (<[roomId :=
                  mkRoomState
                    (<[i := pushPoint s (Point.mk px py)]> (strokes rs))
                    (undoStacks rs)]> (roomStates m))
              (strokeIdCounter m)).
Proof.
  unfold timeline.
  destruct (roomStates m !! roomId) as [rs|] eqn:Hrs.
  - destruct (list_find (λ s, Stroke.id s = strokeId) (strokes rs))
      as [[i s]|] eqn:Hfind.
    + right. exists rs, i, s. split_and!; [done..|].
      by apply updateStroke_found.
    + left. split;
        [|exact (proj1 (list_find_None
                          (λ s, Stroke.id s = strokeId) _) Hfind)].
      unfold updateStroke. by rewrite Hrs, Hfind.
  - left. split; [|constructor]. unfold updateStroke. by rewrite Hrs.
Qed.

Lemma timeline_insert roomId rs (M : gmap string RoomState) n R :
  timeline R (mk (<[roomId := rs]> M) n)
  = if decide (R = roomId) then strokes rs else timeline R (mk M n).
Proof.
  unfold timeline; simpl. case_decide as HR.
  - subst R. by rewrite lookup_insert_eq.
  - by rewrite lookup_insert_ne.
Qed.

Lemma held_by_insert roomId rs (M : gmap string RoomState) n R c :
  held_by R c (mk (<[roomId := rs]> M) n)
  = if decide (R = roomId) then held rs c else held_by R c (mk M n).
Proof.
  unfold held_by; simpl. case_decide as HR.
  - subst R. by rewrite lookup_insert_eq.
  - by rewrite lookup_insert_ne.
Qed.

Lemma mk_eta (m : t) : mk (roomStates m) (strokeIdCounter m) = m.
Proof. by destruct m. Qed.

(** X1: [updateStroke], whether it finds the stroke or not, keeps the
    number, the order, the ids and the owners of the strokes of every
    timeline, every undo stack and the id counter; a stroke whose id is not
    the given one, or that is in another room, is left as it is.  It
    returns [true] exactly when the room's timeline holds a stroke with the
    given id; then the first stroke of the timeline with that id gets the
    given point at the end of its path, keeps its other fields, and the
    rest of the timeline is as before.  When it returns [false] the
    manager is unchanged. *)
Theorem updateStroke_frame (roomId strokeId : string) (px py : jsval)
    (m : t) :
  let r := updateStroke roomId strokeId px py m in
  (∀ R, Stroke.id <$> timeline R r.2 = Stroke.id <$> timeline R m)
  ∧ (∀ R, Stroke.userId <$> timeline R r.2
          = Stroke.userId <$> timeline R m)
  ∧ (∀ R u, held_by R (UndoStack u) r.2 = held_by R (UndoStack u) m)
  ∧ strokeIdCounter r.2 = strokeIdCounter m
  ∧ (∀ R j s, timeline R m !! j = Some s →
              R ≠ roomId ∨ Stroke.id s ≠ strokeId →
              timeline R r.2 !! j = Some s)
  ∧ (r.1 = true ↔ strokeId ∈ Stroke.id <$> timeline roomId m)
  ∧ (∀ i s,
       list_find (λ s, Stroke.id s = strokeId) (timeline roomId m)
       = Some (i, s) →
       r.1 = true
       ∧ timeline roomId r.2
         = <[i := Stroke.mk (Stroke.id s) (Stroke.userId s)
                    (Stroke.timestamp s) (Stroke.type s) (Stroke.color s)
                    (Stroke.size s) (Stroke.path s ++ [Point.mk px py])]>
             (timeline roomId m))
  ∧ (r.1 = false → r.2 = m).
Proof.
  intros r. subst r.
  destruct (updateStroke_cases roomId strokeId px py m)
    as [[-> Hall]|(rs & i & s & Hrs & Hfind & ->)]; simpl.
  - split; [done|]. split; [done|]. split; [done|]. split; [done|].
    split; [done|]. split; [|split; [|done]].
    + split; [done|]. intros Hin.
      apply list_elem_of_fmap in Hin as (s & Hid & Hs).
      rewrite Forall_forall in Hall. by destruct (Hall s Hs).
    + intros i s Hfind. exfalso.
      apply list_find_Some in Hfind as (Hi & Hid & _).
      rewrite Forall_lookup in Hall. by apply (Hall i s Hi).
  - pose proof Hfind as (Hi & Hid & Hfirst)%list_find_Some.
    assert (∀ R, timeline R
                   (mk (<[roomId :=
                          mkRoomState
                            (<[i := pushPoint s (Point.mk px py)]>
                               (strokes rs)) (undoStacks rs)]>
                          (roomStates m)) (strokeIdCounter m))
                 = if decide (R = roomId)
                   then <[i := pushPoint s (Point.mk px py)]> (strokes rs)
                   else timeline R m) as Htl.
    { intros R. rewrite timeline_insert. by rewrite mk_eta. }
    split_and!.
    + intros R. rewrite Htl. case_decide as HR; [|done]. subst R.
      unfold timeline. rewrite Hrs, list_fmap_insert. simpl.
      apply list_insert_id. by rewrite list_lookup_fmap, Hi.
    + intros R. rewrite Htl. case_decide as HR; [|done]. subst R.
      unfold timeline. rewrite Hrs, list_fmap_insert. simpl.
      apply list_insert_id. by rewrite list_lookup_fmap, Hi.
    + intros R u. rewrite held_by_insert, mk_eta.
      case_decide as HR; [|done]. subst R. unfold held_by. by rewrite Hrs.
    + done.
    + intros R j s' Hj Hne. rewrite Htl. case_decide as HR; [|done].
      subst R. unfold timeline in Hj. rewrite Hrs in Hj.
      destruct Hne as [?|Hne]; [done|].
      rewrite list_lookup_insert_ne; [done|]. intros ->. congruence.
    + split; [intros _|done]. unfold timeline. rewrite Hrs.
      apply list_elem_of_fmap. exists s. split; [done|].
      by eapply list_elem_of_lookup_2.
    + intros i' s' Hfind'. split; [done|]. rewrite Htl, decide_True by done.
      unfold timeline in Hfind' |- *. rewrite Hrs in Hfind' |- *.
      rewrite Hfind in Hfind'. by injection Hfind' as <- <-.
    + done.
Qed.

Lemma updateStroke_frame_witness :
  list_find (λ s, Stroke.id s = "stroke_1_1700000000002")
    (timeline "default" sample_shared)
  = Some (0, sample_strokeA)
  ∧ timeline "default"
      (updateStroke "default" "stroke_1_1700000000002" (JNum 3) (JNum 4)
         sample_shared).2
    = [Stroke.mk (Stroke.id sample_strokeA) (Stroke.userId sample_strokeA)
         (Stroke.timestamp sample_strokeA) (Stroke.type sample_strokeA)
         (Stroke.color sample_strokeA) (Stroke.size sample_strokeA)
         (Stroke.path sample_strokeA ++ [Point.mk (JNum 3) (JNum 4)]);
       sample_strokeB].
Proof.
  assert (list_find (λ s, Stroke.id s = "stroke_1_1700000000002")
            (timeline "default" sample_shared)
          = Some (0, sample_strokeA)) as Hfind by (vm_compute; reflexivity).
  split; [exact Hfind|].
  destruct (updateStroke_frame "default" "stroke_1_1700000000002"
              (JNum 3) (JNum 4) sample_shared)
    as (_ & _ & _ & _ & _ & _ & Hfound & _).
  destruct (Hfound 0 sample_strokeA Hfind) as [_ Htl].
  rewrite Htl. vm_compute. reflexivity.
Defined.

(** ** Points appended to a stroke that was just opened *)

Lemma addStroke_id roomId d t1 t2 m :
  Stroke.id (addStroke roomId d t1 t2 m).1
  = strokeIdOf (strokeIdCounter m + 1) t1.
Proof.
  unfold addStroke, _getRoomState. by destruct (roomStates m !! roomId).
Qed.

Lemma addStroke_counter roomId d t1 t2 m :
  strokeIdCounter (addStroke roomId d t1 t2 m).2
  = (strokeIdCounter m + 1)%N.
Proof.
  unfold addStroke, _getRoomState. by destruct (roomStates m !! roomId).
Qed.

Lemma addStroke_path roomId d t1 t2 m :
  Stroke.path (addStroke roomId d t1 t2 m).1 = StrokeData.path d.
Proof.
  unfold addStroke, _getRoomState. by destruct (roomStates m !! roomId).
Qed.

Lemma addStroke_id_fresh roomId d t1 t2 m R c :
  dsm_inv m → Stroke.id (addStroke roomId d t1 t2 m).1 ∉ ids_at m R c.
Proof.
  intros [Hminted _ _] Hin. rewrite addStroke_id in Hin.
  destruct (Hminted R c _ Hin) as (k & t & Heq & Hk).
  apply strokeIdOf_counter in Heq. lia.
Qed.

Lemma pushPoint_id s p : Stroke.id (pushPoint s p) = Stroke.id s.
Proof. done. Qed.

Lemma pushPoints_path s ps :
  Stroke.path (foldl pushPoint s ps) = Stroke.path s ++ ps.
Proof.
  revert s. induction ps as [|p ps IH]; intros s; simpl.
  - by rewrite app_nil_r.
  - rewrite IH. simpl. by rewrite <- app_assoc.
Qed.

Lemma list_find_last_only (l : list Stroke.t) (s : Stroke.t) :
  Forall (λ s', Stroke.id s' ≠ Stroke.id s) l →
  list_find (λ s', Stroke.id s' = Stroke.id s) (l ++ [s])
  = Some (length l, s).
Proof.
  intros Hall. apply list_find_Some. split_and!.
  - by rewrite lookup_app_r, Nat.sub_diag.
  - done.
  - intros j y Hj Hlt. rewrite lookup_app_l in Hj by done.
    rewrite Forall_lookup in Hall. by apply (Hall j y).
Qed.

Lemma updateAll_last roomId ps :
  ∀ m l s,
    timeline roomId m = l ++ [s] →
    Forall (λ s', Stroke.id s' ≠ Stroke.id s) l →
    (updateAll roomId (Stroke.id s) ps m).1 = replicate (length ps) true
    ∧ timeline roomId (updateAll roomId (Stroke.id s) ps m).2
      = l ++ [foldl pushPoint s ps].
Proof.
  induction ps as [|p ps IH]; intros m l s Htl Hall; [done|].
  simpl.
  unfold timeline in Htl.
  destruct (roomStates m !! roomId) as [rs|] eqn:Hrs;
    [|by destruct l].
  rewrite (updateStroke_found roomId (Stroke.id s) (Point.x p) (Point.y p)
             m rs (length l) s Hrs)
    by (rewrite Htl; by apply list_find_last_only).
  assert (Point.mk (Point.x p) (Point.y p) = p) as -> by (by destruct p).
  match goal with
  | |- context [updateAll _ _ ps ?m1] =>
      destruct (IH m1 l (pushPoint s p)) as [Hres Htl'];
        [|done|]
  end.
  { rewrite timeline_insert, decide_True by done. simpl.
    rewrite Htl, insert_app_r_alt, Nat.sub_diag by done. done. }
  rewrite pushPoint_id in Hres, Htl'.
  destruct (updateAll roomId (Stroke.id s) ps _) as [bs m2].
  simpl in *. by rewrite Hres.
Qed.

(** X2: in a state reached from the fresh manager, a stroke is opened by
    [addStroke] and [updateStroke] is then called with its id once for
    each point of a list: every call returns [true], the timeline of the
    room is the old one followed by this stroke, and the stroke holds the
    points it was opened with followed by the appended points, in order
    (1 + N points for the one point of a [stroke-start] and N updates). *)
Theorem opened_stroke_collects_points (ops : list dsm_op) (roomId : string)
    (d : StrokeData.t) (t1 t2 : Z) (ps : list Point.t) :
  let m := dsm_run ops new in
  let r := addStroke roomId d t1 t2 m in
  let u := updateAll roomId (Stroke.id r.1) ps r.2 in
  u.1 = replicate (length ps) true
  ∧ (∃ s, timeline roomId u.2 = timeline roomId m ++ [s]
          ∧ Stroke.id s = Stroke.id r.1
          ∧ Stroke.userId s = StrokeData.userId d
          ∧ Stroke.path s = StrokeData.path d ++ ps
          ∧ length (Stroke.path s) = length (StrokeData.path d) + length ps).
Proof.
  intros m r u. subst u r.
  assert (dsm_inv m) as Hinv by apply dsm_inv_run, dsm_inv_new.
  set (r := addStroke roomId d t1 t2 m).
  destruct (updateAll_last roomId ps r.2 (timeline roomId m) r.1)
    as [Hres Htl].
  { apply addStroke_timeline. }
  { apply Forall_forall. intros s Hs Heq.
    apply (addStroke_id_fresh roomId d t1 t2 m roomId Timeline Hinv).
    fold r. rewrite <- Heq. unfold ids_at, timeline in *.
    destruct (roomStates m !! roomId) as [rs|]; simpl in *;
      [|by apply elem_of_nil in Hs].
    apply list_elem_of_fmap. by exists s. }
  split; [exact Hres|].
  exists (foldl pushPoint r.1 ps). split; [exact Htl|].
  assert (∀ s qs, Stroke.id (foldl pushPoint s qs) = Stroke.id s
                  ∧ Stroke.userId (foldl pushPoint s qs) = Stroke.userId s)
    as Hkeep.
  { intros s qs. revert s. induction qs as [|q qs IH]; intros s; [done|].
    simpl. destruct (IH (pushPoint s q)) as [-> ->]. done. }
  destruct (Hkeep r.1 ps) as [-> ->].
  rewrite pushPoints_path, length_app.
  unfold r. rewrite addStroke_path.
  split_and!; try done.
  unfold addStroke, _getRoomState. by destruct (roomStates m !! roomId).
Qed.

(** ** Ids are issued once *)

Lemma dsm_step_counter m o :
  (strokeIdCounter m ≤ strokeIdCounter (dsm_step m o))%N.
Proof.
  destruct o as [r d t1 t2|r i px py|r i|r v|r v|r|r]; simpl.
  - rewrite addStroke_counter. lia.
  - destruct (updateStroke_cases r i px py m)
      as [[-> _]|(? & ? & ? & _ & _ & ->)]; simpl; lia.
  - unfold finalizeStroke. lia.
  - destruct (undo r v m) as [[s|] m'] eqn:Hundo; simpl.
    + apply undo_Some in Hundo as (? & ? & ? & _ & _ & _ & _ & ->).
      simpl. lia.
    + apply undo_None in Hundo as [-> _]. lia.
  - destruct (redo_cases r v m) as [->|(rs & stack & s & Hrs & Hst)];
      [simpl; lia|].
    rewrite (redo_top r v m rs stack s Hrs Hst). simpl. lia.
  - rewrite getFullState_state. lia.
  - simpl. lia.
Qed.

Lemma dsm_run_counter ops m :
  (strokeIdCounter m ≤ strokeIdCounter (dsm_run ops m))%N.
Proof.
  revert m. induction ops as [|o ops IH]; intros m; simpl; [lia|].
  etrans; [apply (dsm_step_counter m o)|apply IH].
Qed.

(** X3: a stroke id is issued once.  Whatever the state, the id returned
    by an [addStroke] differs from the id returned by any later
    [addStroke], whatever happened in between (undo, redo, [clearRoom],
    strokes in other rooms); in a state reached from the fresh manager it
    also differs from every id held in a timeline or an undo stack. *)
Theorem stroke_id_never_reissued (m : t) (ops : list dsm_op)
    (R1 R2 : string) (d1 d2 : StrokeData.t) (t1 t1' t2 t2' : Z) :
  let a := addStroke R1 d1 t1 t1' m in
  let b := addStroke R2 d2 t2 t2' (dsm_run ops a.2) in
  Stroke.id a.1 ≠ Stroke.id b.1
  ∧ (∀ ops0 R c i s,
       m = dsm_run ops0 new →
       stroke_at m R c i = Some s →
       Stroke.id s ≠ Stroke.id a.1).
Proof.
  intros a b. subst b a. split.
  - rewrite !addStroke_id. intros Heq%strokeIdOf_counter.
    pose proof (dsm_run_counter ops (addStroke R1 d1 t1 t1' m).2) as Hle.
    rewrite addStroke_counter in Hle. lia.
  - intros ops0 R c i s -> Hs Heq.
    apply (addStroke_id_fresh R1 d1 t1 t1' (dsm_run ops0 new) R c).
    { apply dsm_inv_run, dsm_inv_new. }
    rewrite <- Heq. apply stroke_at_id in Hs.
    by eapply list_elem_of_lookup_2.
Qed.

Lemma stroke_id_never_reissued_witness :
  stroke_at sample_shared "default" Timeline 0 = Some sample_strokeA
  ∧ Stroke.id sample_strokeA
    ≠ Stroke.id (addStroke "default" sample_strokeData 5 6 sample_shared).1.
Proof.
  assert (stroke_at sample_shared "default" Timeline 0 = Some sample_strokeA)
    as Hat by (vm_compute; reflexivity).
  split; [exact Hat|].
  exact (proj2 (stroke_id_never_reissued sample_shared [] "default" "default"
                  sample_strokeData sample_strokeData 5 6 5 6)
           sample_draw "default" Timeline 0 sample_strokeA eq_refl Hat).
Defined.

(** ** Nothing to undo, nothing to redo *)

Lemma owned_by_nil u l :
  owned_by u l = [] ↔ Forall (λ s, Stroke.userId s ≠ u) l.
Proof.
  unfold owned_by. induction l as [|s l IH]; [by split; [constructor|]|].
  rewrite filter_cons. case_decide as Hs.
  - split; [done|]. by intros [? _]%Forall_cons.
  - rewrite IH. split; [by constructor|by intros [_ ?]%Forall_cons].
Qed.

Lemma not_owned_by_all u l :
  Forall (λ s, Stroke.userId s ≠ u) l → not_owned_by u l = l.
Proof.
  unfold not_owned_by. induction 1 as [|s l Hs _ IH]; [done|].
  by rewrite filter_cons, decide_True, IH.
Qed.

Lemma undo_nothing roomId u m :
  Forall (λ s, Stroke.userId s ≠ u) (timeline roomId m) →
  undo roomId u m = (None, m).
Proof.
  intros Hall.
  destruct (undo roomId u m) as [[s|] m'] eqn:Hundo.
  - apply undo_Some in Hundo as (rs & l1 & l2 & Hrs & Hl & Hu & _ & _).
    unfold timeline in Hall. rewrite Hrs, Hl in Hall.
    apply Forall_app in Hall as [_ [Hs _]%Forall_cons]. done.
  - by apply undo_None in Hundo as [-> _].
Qed.

Lemma redo_nothing roomId u m :
  held_by roomId (UndoStack u) m = [] → redo roomId u m = (None, m).
Proof.
  unfold held_by, redo.
  destruct (roomStates m !! roomId) as [rs|]; [|done]. simpl.
  destruct (undoStacks rs !! u) as [st|]; [|done]. simpl.
  by intros ->.
Qed.

(** X4: [undo] returns [null] exactly when the timeline of the room holds
    no stroke of the user (the room may have no state), and [redo] returns
    [null] exactly when the user has no undone stroke in the room; in both
    cases the manager is left as it is. *)
Theorem undo_redo_null_cases (roomId u : string) (m : t) :
  ((undo roomId u m).1 = None ↔ owned_by u (timeline roomId m) = [])
  ∧ ((undo roomId u m).1 = None → (undo roomId u m).2 = m)
  ∧ ((redo roomId u m).1 = None ↔ held_by roomId (UndoStack u) m = [])
  ∧ ((redo roomId u m).1 = None → (redo roomId u m).2 = m).
Proof.
  split_and!.
  - rewrite owned_by_nil. split.
    + destruct (undo roomId u m) as [[s|] m'] eqn:Hundo; [done|].
      intros _. by apply undo_None in Hundo as [_ ?].
    + intros Hall. by rewrite undo_nothing.
  - destruct (undo roomId u m) as [[s|] m'] eqn:Hundo; [done|].
    intros _. by apply undo_None in Hundo as [-> _].
  - split.
    + destruct (redo_cases roomId u m)
        as [Hnone|(rs & stack & s & Hrs & Hst)].
      * intros _. unfold redo, held_by in *.
        destruct (roomStates m !! roomId) as [rs|]; [|done]. simpl in *.
        destruct (undoStacks rs !! u) as [st|]; [|done]. simpl in *.
        destruct (last st) eqn:Hlast; [done|]. by apply last_None.
      * by rewrite (redo_top roomId u m rs stack s Hrs Hst).
    + intros Hnil. by rewrite redo_nothing.
  - destruct (redo_cases roomId u m)
      as [->|(rs & stack & s & Hrs & Hst)]; [done|].
    by rewrite (redo_top roomId u m rs stack s Hrs Hst).
Qed.

Lemma undo_redo_null_cases_witness :
  (undo "default" "user_C" sample_shared).1 = None
  ∧ (undo "default" "user_C" sample_shared).2 = sample_shared.
Proof.
  assert ((undo "default" "user_C" sample_shared).1 = None) as Hnone
    by (vm_compute; reflexivity).
  split; [exact Hnone|].
  exact (proj1 (proj2 (undo_redo_null_cases "default" "user_C"
                         sample_shared)) Hnone).
Defined.

(** ** Undo stacks belong to their users *)

Lemma stacks_owned_insert roomId rs m :
  stacks_owned m →
  (∀ u stack, undoStacks rs !! u = Some stack →
              stack ≠ [] ∧ Forall (λ s, Stroke.userId s = u) stack) →
  stacks_owned (mk (<[roomId := rs]> (roomStates m)) (strokeIdCounter m)).
Proof.
  intros Hm Hrs R rs' u stack HR Hst. simpl in HR.
  destruct (decide (R = roomId)) as [->|Hne].
  - rewrite lookup_insert_eq in HR. injection HR as <-. by apply Hrs.
  - rewrite lookup_insert_ne in HR by done. by eapply Hm.
Qed.

Lemma stacks_owned_step m o : stacks_owned m → stacks_owned (dsm_step m o).
Proof.
  intros Hm.
  destruct o as [r d t1 t2|r i px py|r i|r v|r v|r|r]; simpl.
  - unfold addStroke, _getRoomState, _generateStrokeId.
    destruct (roomStates m !! r) as [rs|] eqn:Hrs; simpl.
    + intros R rs' u stack HR Hst. simpl in HR.
      destruct (decide (R = r)) as [->|Hne].
      * rewrite lookup_insert_eq in HR. injection HR as <-. simpl in Hst.
        apply lookup_delete_Some in Hst as [_ Hst]. by eapply Hm.
      * rewrite lookup_insert_ne in HR by done. by eapply Hm.
    + intros R rs' u stack HR Hst. simpl in HR.
      destruct (decide (R = r)) as [->|Hne].
      * rewrite lookup_insert_eq in HR. injection HR as <-. simpl in Hst.
        by rewrite lookup_delete, lookup_empty in Hst; case_decide.
      * rewrite !lookup_insert_ne in HR by done. by eapply Hm.
  - destruct (updateStroke_cases r i px py m)
      as [[-> _]|(rs & j & s & Hrs & _ & ->)]; [done|]. simpl.
    apply stacks_owned_insert; [done|]. simpl. intros u stack Hst.
    by eapply Hm.
  - done.
  - destruct (undo r v m) as [[s|] m'] eqn:Hundo; simpl.
    + apply undo_Some in Hundo as (rs & l1 & l2 & Hrs & _ & Hs & _ & ->).
      apply stacks_owned_insert; [done|]. simpl. intros u stack Hst.
      destruct (decide (u = v)) as [->|Hne].
      * rewrite lookup_insert_eq in Hst. injection Hst as <-.
        split; [by destruct (default [] _)|].
        apply Forall_app. split; [|by repeat constructor].
        destruct (undoStacks rs !! v) as [st|] eqn:Hv; simpl; [|constructor].
        by eapply Hm.
      * rewrite lookup_insert_ne in Hst by done. by eapply Hm.
    + by apply undo_None in Hundo as [-> _].
  - destruct (redo_cases r v m) as [->|(rs & stack & s & Hrs & Hst)];
      [done|].
    rewrite (redo_top r v m rs stack s Hrs Hst). simpl.
    apply stacks_owned_insert; [done|]. simpl. intros u st Hu.
    destruct (Hm r rs v _ Hrs Hst) as [_ [Hown _]%Forall_app].
    case_decide as Hlen.
    + apply lookup_delete_Some in Hu as [_ Hu]. by eapply Hm.
    + destruct (decide (u = v)) as [->|Hne].
      * rewrite lookup_insert_eq in Hu. injection Hu as <-.
        split; [|done]. intros ->. by destruct Hlen.
      * rewrite lookup_insert_ne in Hu by done. by eapply Hm.
  - by rewrite getFullState_state.
  - intros R rs u stack HR Hst. simpl in HR.
    apply lookup_delete_Some in HR as [_ HR]. by eapply Hm.
Qed.

Lemma stacks_owned_run ops m : stacks_owned m → stacks_owned (dsm_run ops m).
Proof.
  revert m. induction ops as [|o ops IH]; intros m Hm; [done|].
  simpl. apply IH. by apply stacks_owned_step.
Qed.

Lemma stacks_owned_new : stacks_owned new.
Proof.
  intros R rs u stack HR. unfold new in HR. simpl in HR.
  by rewrite lookup_empty in HR.
Qed.

(** X5: in every state reached from the fresh manager, the undo stack of
    a user holds strokes of that user only, and a stored undo stack is
    never an empty array ([redo] deletes the stack it empties). *)
Theorem undo_stack_owned (ops : list dsm_op) (R u : string) :
  (∀ i s, stroke_at (dsm_run ops new) R (UndoStack u) i = Some s →
          Stroke.userId s = u)
  ∧ (∀ rs, roomStates (dsm_run ops new) !! R = Some rs →
           undoStacks rs !! u ≠ Some []).
Proof.
  pose proof (stacks_owned_run ops new stacks_owned_new) as Hown.
  split.
  - intros i s Hs. unfold stroke_at in Hs.
    destruct (roomStates (dsm_run ops new) !! R) as [rs|] eqn:Hrs;
      [|done].
    simpl in Hs.
    destruct (undoStacks rs !! u) as [stack|] eqn:Hst; [|done].
    simpl in Hs. destruct (Hown R rs u stack Hrs Hst) as [_ Hall].
    rewrite Forall_lookup in Hall. by eapply Hall.
  - intros rs Hrs Hst. by destruct (Hown R rs u [] Hrs Hst) as [? _].
Qed.

Lemma undo_stack_owned_witness :
  stroke_at (dsm_run (sample_draw ++ [Undo "default" "user_A"]) new)
    "default" (UndoStack "user_A") 0 = Some sample_strokeA
  ∧ Stroke.userId sample_strokeA = "user_A".
Proof.
  assert (stroke_at (dsm_run (sample_draw ++ [Undo "default" "user_A"]) new)
            "default" (UndoStack "user_A") 0 = Some sample_strokeA) as Hat
    by (vm_compute; reflexivity).
  split; [exact Hat|].
  exact (proj1 (undo_stack_owned (sample_draw ++ [Undo "default" "user_A"])
                  "default" "user_A") 0 sample_strokeA Hat).
Defined.

(** ** Redo followed by undo *)

Lemma undo_last roomId u m rs l s :
  roomStates m !! roomId = Some rs →
  strokes rs = l ++ [s] →
  Stroke.userId s = u →
  undo roomId u m
  = (Some s,
     mk (<[roomId :=
            mkRoomState l
              (<[u := default [] (undoStacks rs !! u) ++ [s]]>
                 (undoStacks rs))]> (roomStates m))
        (strokeIdCounter m)).
Proof.
  intros Hrs Hl Hu.
  destruct (undo roomId u m) as [[s'|] m'] eqn:Hundo.
  - apply undo_Some in Hundo
      as (rs' & l1 & l2 & Hrs' & Hl' & Hu' & Hl2 & ->).
    assert (rs' = rs) as -> by congruence.
    rewrite Hl in Hl'.
    destruct l2 as [|y l2 _] using rev_ind.
    + apply app_inj_tail in Hl' as [-> ->]. by rewrite app_nil_r.
    + rewrite app_comm_cons, app_assoc in Hl'.
      apply app_inj_tail in Hl' as [_ ->].
      apply Forall_app in Hl2 as [_ [Hy _]%Forall_cons]. done.
  - apply undo_None in Hundo as [_ Hall]. unfold timeline in Hall.
    rewrite Hrs, Hl in Hall.
    apply Forall_app in Hall as [_ [Hs _]%Forall_cons]. done.
Qed.

(** X6: in a state reached from the fresh manager, a [redo] that returns
    a stroke followed by an [undo] of the same user returns that stroke
    again and brings the manager back to the state before the [redo]:
    same timelines, same undo stacks, same counter. *)
Theorem redo_then_undo_restores (ops : list dsm_op) (roomId u : string)
    (s : Stroke.t) (m1 : t) :
  redo roomId u (dsm_run ops new) = (Some s, m1) →
  undo roomId u m1 = (Some s, dsm_run ops new).
Proof.
  pose proof (stacks_owned_run ops new stacks_owned_new) as Hown.
  set (m := dsm_run ops new) in *. intros Hredo.
  destruct (redo_cases roomId u m) as [Hnone|(rs & stack & s' & Hrs & Hst)];
    [congruence|].
  rewrite (redo_top roomId u m rs stack s' Hrs Hst) in Hredo.
  injection Hredo as -> <-.
  destruct (Hown roomId rs u _ Hrs Hst) as [_ [_ [Hs _]%Forall_cons]%Forall_app].
  erewrite undo_last;
    [|simpl; apply lookup_insert_eq|simpl; reflexivity|exact Hs].
  simpl. f_equal. rewrite insert_insert_eq.
  assert (<[u := default []
                   ((if decide (length stack = 0)
                     then delete u (undoStacks rs)
                     else <[u := stack]> (undoStacks rs)) !! u) ++ [s]]>
            (if decide (length stack = 0)
             then delete u (undoStacks rs)
             else <[u := stack]> (undoStacks rs))
          = undoStacks rs) as ->.
  { case_decide as Hlen.
    - apply length_zero_iff_nil in Hlen. subst stack.
      rewrite lookup_delete_eq. simpl.
      rewrite insert_delete_eq. by apply insert_id.
    - rewrite lookup_insert_eq. simpl.
      rewrite insert_insert_eq. by apply insert_id. }
  assert (mkRoomState (strokes rs) (undoStacks rs) = rs) as ->
    by (by destruct rs).
  rewrite insert_id by done. apply mk_eta.
Qed.

Lemma redo_then_undo_restores_witness :
  redo "default" "user_A" sample_undone
  = (Some sample_strokeA, (redo "default" "user_A" sample_undone).2)
  ∧ undo "default" "user_A" (redo "default" "user_A" sample_undone).2
    = (Some sample_strokeA, sample_undone).
Proof.
  assert (redo "default" "user_A" sample_undone
          = (Some sample_strokeA, (redo "default" "user_A" sample_undone).2))
    as Hredo by (vm_compute; reflexivity).
  split; [exact Hredo|].
  exact (redo_then_undo_restores (sample_draw ++ [Undo "default" "user_A"])
           "default" "user_A" sample_strokeA _ Hredo).
Defined.

(** ** Undoing and redoing everything *)

Lemma owned_by_app u l1 l2 :
  owned_by u (l1 ++ l2) = owned_by u l1 ++ owned_by u l2.
Proof. apply filter_app. Qed.

Lemma owned_by_split u l1 s l2 :
  Stroke.userId s = u →
  Forall (λ s', Stroke.userId s' ≠ u) l2 →
  owned_by u (l1 ++ s :: l2) = owned_by u l1 ++ [s]
  ∧ owned_by u (l1 ++ l2) = owned_by u l1.
Proof.
  intros Hs Hl2. apply owned_by_nil in Hl2.
  rewrite !owned_by_app, Hl2, app_nil_r. split; [|done].
  unfold owned_by at 2. rewrite filter_cons, decide_True by done.
  fold (owned_by u l2). by rewrite Hl2.
Qed.

Lemma undoN_spec roomId u n :
  ∀ m,
    length (owned_by u (timeline roomId m)) = n →
    (undoN n roomId u m).1 = Some <$> reverse (owned_by u (timeline roomId m))
    ∧ timeline roomId (undoN n roomId u m).2
      = not_owned_by u (timeline roomId m)
    ∧ held_by roomId (UndoStack u) (undoN n roomId u m).2
      = held_by roomId (UndoStack u) m
        ++ reverse (owned_by u (timeline roomId m))
    ∧ (∀ v, v ≠ u →
            held_by roomId (UndoStack v) (undoN n roomId u m).2
            = held_by roomId (UndoStack v) m).
Proof.
  induction n as [|n IH]; intros m Hlen.
  - apply length_zero_iff_nil in Hlen. rewrite Hlen. simpl.
    rewrite app_nil_r. split_and!; try done.
    symmetry. apply not_owned_by_all. by apply owned_by_nil.
  - simpl.
    destruct (undo roomId u m) as [[s|] m1] eqn:Hundo.
    + apply undo_Some in Hundo as (rs & l1 & l2 & Hrs & Hl & Hs & Hl2 & ->).
      destruct (owned_by_split u l1 s l2 Hs Hl2) as [Hown Hown'].
      assert (timeline roomId m = l1 ++ s :: l2) as Htl
        by (unfold timeline; by rewrite Hrs).
      rewrite Htl, Hown in *. rewrite length_app in Hlen. simpl in Hlen.
      match goal with
      | |- context [undoN n roomId u ?m1] =>
          destruct (IH m1) as (Hres & Htl1 & Hst1 & Hoth1)
      end.
      { rewrite timeline_insert, decide_True by done. simpl.
        rewrite Hown'. lia. }
      rewrite timeline_insert, decide_True in Hres, Htl1, Hst1 by done.
      rewrite held_by_insert, decide_True in Hst1 by done.
      simpl in Hres, Htl1, Hst1. rewrite Hown' in Hres, Hst1.
      rewrite lookup_insert_eq in Hst1. simpl in Hst1.
      destruct (undoN n roomId u _) as [rs' m2]. simpl in *.
      rewrite Hres, Htl1, Hst1, reverse_snoc.
      split_and!.
      * done.
      * unfold not_owned_by. symmetry. apply filter_app_middle_out.
        by intros [].
      * unfold held_by. rewrite Hrs. simpl. by rewrite <- app_assoc.
      * intros v Hv. rewrite (Hoth1 v Hv).
        rewrite held_by_insert, decide_True by done. simpl.
        rewrite lookup_insert_ne by done. unfold held_by. by rewrite Hrs.
    + apply undo_None in Hundo as [_ Hall]. apply owned_by_nil in Hall.
      rewrite Hall in Hlen. done.
Qed.

(** X7: when a user undoes as many times as the timeline of the room
    holds strokes of that user, the calls return these strokes from the
    most recent to the oldest, the timeline is left with the strokes of
    the other users, all of them and in their order, the undo stack of the
    user has received the strokes in the order of the calls, the undo
    stacks of the other users are as before, and one more [undo] returns
    [null]. *)
Theorem undo_all_own_strokes (roomId u : string) (m : t) :
  let own := owned_by u (timeline roomId m) in
  let r := undoN (length own) roomId u m in
  r.1 = Some <$> reverse own
  ∧ timeline roomId r.2 = not_owned_by u (timeline roomId m)
  ∧ held_by roomId (UndoStack u) r.2
    = held_by roomId (UndoStack u) m ++ reverse own
  ∧ (∀ v, v ≠ u →
          held_by roomId (UndoStack v) r.2 = held_by roomId (UndoStack v) m)
  ∧ undo roomId u r.2 = (None, r.2).
Proof.
  intros own r. subst r own.
  destruct (undoN_spec roomId u _ m eq_refl) as (Hres & Htl & Hst & Hoth).
  split_and!; try done.
  apply undo_nothing. rewrite Htl. unfold not_owned_by.
  apply Forall_forall. by intros s [? _]%list_elem_of_filter.
Qed.

Lemma undo_all_own_strokes_witness :
  "user_B" ≠ "user_A"
  ∧ held_by "default" (UndoStack "user_B")
      (undoN 1 "default" "user_A" sample_shared).2
    = held_by "default" (UndoStack "user_B") sample_shared.
Proof.
  assert ("user_B" ≠ "user_A") as Hne by discriminate.
  split; [exact Hne|].
  destruct (undo_all_own_strokes "default" "user_A" sample_shared)
    as (_ & _ & _ & Hoth & _).
  exact (Hoth "user_B" Hne).
Defined.

Lemma held_by_snoc roomId u m st s :
  held_by roomId (UndoStack u) m = st ++ [s] →
  ∃ rs, roomStates m !! roomId = Some rs
        ∧ undoStacks rs !! u = Some (st ++ [s]).
Proof.
  unfold held_by. destruct (roomStates m !! roomId) as [rs|];
    [|intros H; destruct st; discriminate H].
  simpl. destruct (undoStacks rs !! u) as [stack|] eqn:Hstack; simpl;
    [|intros H; destruct st; discriminate H].
  intros ->. by exists rs.
Qed.

Lemma redoN_spec roomId u n :
  ∀ m st0 st,
    held_by roomId (UndoStack u) m = st0 ++ st →
    length st = n →
    (redoN n roomId u m).1 = Some <$> reverse st
    ∧ timeline roomId (redoN n roomId u m).2
      = timeline roomId m ++ reverse st
    ∧ held_by roomId (UndoStack u) (redoN n roomId u m).2 = st0
    ∧ (∀ v, v ≠ u →
            held_by roomId (UndoStack v) (redoN n roomId u m).2
            = held_by roomId (UndoStack v) m).
Proof.
  induction n as [|n IH]; intros m st0 st Hheld Hlen.
  - apply length_zero_iff_nil in Hlen. subst st. simpl.
    by rewrite !app_nil_r in *.
  - destruct st as [|s st _] using rev_ind; [done|].
    rewrite length_app in Hlen. simpl in Hlen.
    rewrite app_assoc in Hheld.
    destruct (held_by_snoc roomId u m (st0 ++ st) s Hheld)
      as (rs & Hrs & Hstack).
    simpl. rewrite (redo_top roomId u m rs (st0 ++ st) s Hrs Hstack).
    match goal with
    | |- context [redoN n roomId u ?m1] =>
        assert (held_by roomId (UndoStack u) m1 = st0 ++ st) as Hst1;
          [|assert (timeline roomId m1 = timeline roomId m ++ [s]) as Htl1;
            [|assert (∀ v, v ≠ u →
                        held_by roomId (UndoStack v) m1
                        = held_by roomId (UndoStack v) m) as Hoth1;
              [|destruct (IH m1 st0 st) as (Hres & Htl & Hnil & Hoth)]]]
    end.
    { rewrite held_by_insert, decide_True by done. simpl.
      case_decide as Hl0.
      - rewrite lookup_delete_eq. simpl.
        by apply length_zero_iff_nil in Hl0.
      - by rewrite lookup_insert_eq. }
    { rewrite timeline_insert, decide_True by done. simpl.
      unfold timeline. by rewrite Hrs. }
    { intros v Hv. rewrite held_by_insert, decide_True by done. simpl.
      unfold held_by. rewrite Hrs. simpl.
      case_decide; by rewrite ?lookup_delete_ne, ?lookup_insert_ne. }
    { exact Hst1. }
    { lia. }
    rewrite Htl1 in Htl.
    destruct (redoN n roomId u _) as [rs' m2]. simpl in *.
    rewrite Hres, Htl, reverse_snoc.
    split_and!; [done|by rewrite <- app_assoc|done|].
    intros v Hv. by rewrite (Hoth v Hv), (Hoth1 v Hv).
Qed.

(** X8: when a user redoes as many times as its undo stack in the room
    holds strokes, the calls return these strokes from the last undone to
    the first undone and append them to the timeline in that order, the
    undo stack of the user ends empty, the undo stacks of the other users
    are as before, and one more [redo] returns [null]. *)
Theorem redo_all_undone_strokes (roomId u : string) (m : t) :
  let undone := held_by roomId (UndoStack u) m in
  let r := redoN (length undone) roomId u m in
  r.1 = Some <$> reverse undone
  ∧ timeline roomId r.2 = timeline roomId m ++ reverse undone
  ∧ held_by roomId (UndoStack u) r.2 = []
  ∧ (∀ v, v ≠ u →
          held_by roomId (UndoStack v) r.2 = held_by roomId (UndoStack v) m)
  ∧ redo roomId u r.2 = (None, r.2).
Proof.
  intros undone r. subst r undone.
  destruct (redoN_spec roomId u _ m [] _ eq_refl eq_refl)
    as (Hres & Htl & Hnil & Hoth).
  split_and!; try done. by apply redo_nothing.
Qed.

Lemma redo_all_undone_strokes_witness :
  "user_B" ≠ "user_A"
  ∧ held_by "default" (UndoStack "user_B")
      (redoN 1 "default" "user_A" sample_undone).2
    = held_by "default" (UndoStack "user_B") sample_undone.
Proof.
  assert ("user_B" ≠ "user_A") as Hne by discriminate.
  split; [exact Hne|].
  destruct (redo_all_undone_strokes "default" "user_A" sample_undone)
    as (_ & _ & _ & Hoth & _).
  exact (Hoth "user_B" Hne).
Defined.

(** X9: when a user undoes all its strokes of a room and then redoes as
    many times, the timeline holds the strokes of the other users in their
    order, followed by the strokes of the user in their former order (the
    strokes of the user have moved on top of the others), and the undo
    stack of the user is as it was before. *)
Theorem undo_all_redo_all_moves_on_top (roomId u : string) (m : t) :
  let own := owned_by u (timeline roomId m) in
  let m1 := (undoN (length own) roomId u m).2 in
  let m2 := (redoN (length own) roomId u m1).2 in
  timeline roomId m2 = not_owned_by u (timeline roomId m) ++ own
  ∧ held_by roomId (UndoStack u) m2 = held_by roomId (UndoStack u) m.
Proof.
  intros own m1 m2. subst m2 m1 own.
  destruct (undoN_spec roomId u _ m eq_refl) as (_ & Htl & Hst & _).
  set (m1 := (undoN _ roomId u m).2) in *.
  destruct (redoN_spec roomId u (length (owned_by u (timeline roomId m))) m1
              _ _ Hst)
    as (_ & Htl2 & Hnil & _).
  { by rewrite length_reverse. }
  rewrite Htl2, Hnil, Htl, reverse_involutive. done.
Qed.

(** ** Points sent for a stroke that was undone *)

(** X10: in a state reached from the fresh manager, once [undo] has
    returned a stroke, an [updateStroke] with the id of that stroke
    returns [false] and changes nothing (the stroke is in no timeline);
    after the [redo] of the same user the update returns [true] again and
    appends the point to that stroke, now the last of the timeline. *)
Theorem undone_stroke_rejects_points (ops : list dsm_op) (roomId u : string)
    (s : Stroke.t) (m1 : t) (px py : jsval) :
  undo roomId u (dsm_run ops new) = (Some s, m1) →
  updateStroke roomId (Stroke.id s) px py m1 = (false, m1)
  ∧ (redo roomId u m1).1 = Some s
  ∧ (updateStroke roomId (Stroke.id s) px py (redo roomId u m1).2).1 = true
  ∧ timeline roomId
      (updateStroke roomId (Stroke.id s) px py (redo roomId u m1).2).2
    = timeline roomId m1 ++ [pushPoint s (Point.mk px py)].
Proof.
  intros Hundo.
  assert (dsm_inv (dsm_run ops new)) as Hinv
    by apply dsm_inv_run, dsm_inv_new.
  set (m := dsm_run ops new) in *.
  apply undo_Some in Hundo as (rs & l1 & l2 & Hrs & Hl & Hs & Hl2 & ->).
  assert (Forall (λ s', Stroke.id s' ≠ Stroke.id s) (l1 ++ l2)) as Hfresh.
  { pose proof (inv_nodup _ _ Hinv roomId Timeline) as Hnd.
    unfold ids_at in Hnd. rewrite Hrs in Hnd. simpl in Hnd.
    rewrite Hl, fmap_app, fmap_cons in Hnd.
    apply NoDup_app in Hnd as (_ & Hdisj & [Hs2 _]%NoDup_cons).
    apply Forall_forall. intros s' [Hin|Hin]%elem_of_app Heq.
    - apply (Hdisj (Stroke.id s')); [apply list_elem_of_fmap; by exists s'|].
      rewrite Heq. by left.
    - apply Hs2. rewrite <- Heq. apply list_elem_of_fmap. by exists s'. }
  split.
  { apply updateStroke_not_found.
    by rewrite timeline_insert, decide_True. }
  erewrite redo_top;
    [|simpl; apply lookup_insert_eq|simpl; apply lookup_insert_eq].
  simpl. split; [done|].
  erewrite updateStroke_found;
    [|simpl; apply lookup_insert_eq|simpl; by apply list_find_last_only].
  simpl. split; [done|].
  rewrite !timeline_insert, !decide_True by done. simpl.
  rewrite insert_app_r_alt, Nat.sub_diag by done.
  by rewrite decide_True.
Qed.

Lemma undone_stroke_rejects_points_witness :
  undo "default" "user_A" (dsm_run sample_draw new)
  = (Some sample_strokeA, sample_undone)
  ∧ updateStroke "default" (Stroke.id sample_strokeA) (JNum 1) (JNum 2)
      sample_undone
    = (false, sample_undone).
Proof.
  assert (undo "default" "user_A" (dsm_run sample_draw new)
          = (Some sample_strokeA, sample_undone)) as Hundo
    by (vm_compute; reflexivity).
  split; [exact Hundo|].
  exact (proj1 (undone_stroke_rejects_points sample_draw "default" "user_A"
                  sample_strokeA sample_undone (JNum 1) (JNum 2) Hundo)).
Defined.

(** ** Clearing a room *)

(** X11: after [clearRoom], the room has no state: its snapshot is empty,
    [undo] and [redo] return [null] for every user, [updateStroke] returns
    [false] for every id, and none of these calls changes the manager; the
    timelines and undo stacks of the other rooms and the id counter are as
    before, and clearing again changes nothing. *)
Theorem clearRoom_forgets_room (roomId : string) (m : t) :
  let m' := clearRoom roomId m in
  getFullState roomId m' = (mkFullState roomId [], m')
  ∧ (∀ u, undo roomId u m' = (None, m'))
  ∧ (∀ u, redo roomId u m' = (None, m'))
  ∧ (∀ i px py, updateStroke roomId i px py m' = (false, m'))
  ∧ (∀ R c, R ≠ roomId → held_by R c m' = held_by R c m)
  ∧ strokeIdCounter m' = strokeIdCounter m
  ∧ clearRoom roomId m' = m'.
Proof.
  intros m'. subst m'.
  assert (roomStates (clearRoom roomId m) !! roomId = None) as Hnone
    by (simpl; apply lookup_delete_eq).
  split_and!.
  - unfold getFullState. by rewrite Hnone.
  - intros u. unfold undo. by rewrite Hnone.
  - intros u. unfold redo. by rewrite Hnone.
  - intros i px py. unfold updateStroke. by rewrite Hnone.
  - intros R c HR. unfold held_by. simpl. by rewrite lookup_delete_ne.
  - done.
  - unfold clearRoom. simpl. f_equal. by apply delete_id.
Qed.

Lemma clearRoom_forgets_room_witness :
  "lobby" ≠ "default"
  ∧ held_by "lobby" Timeline (clearRoom "default" sample_shared)
    = held_by "lobby" Timeline sample_shared.
Proof.
  assert ("lobby" ≠ "default") as Hne by discriminate.
  split; [exact Hne|].
  destruct (clearRoom_forgets_room "default" sample_shared)
    as (_ & _ & _ & _ & Hoth & _).
  exact (Hoth "lobby" Timeline Hne).
Defined.

(** * Further properties of the registry *)

Lemma userIdOf_counter n now n' now' :
  RoomManager.userIdOf n now = RoomManager.userIdOf n' now' → n = n'.
Proof.
  unfold RoomManager.userIdOf. intros Heq.
  apply (inj (String.app "user_")) in Heq.
  apply (inj pretty).
  eapply underscore_delimits; [apply pretty_N_no_underscore..|done].
Qed.

Lemma assignColor_palette used rnd :
  RoomManager.assignColor used rnd ∈ USER_COLORS.
Proof.
  unfold RoomManager.assignColor, RoomManager.firstFreeColor.
  destruct (list_find (λ c, c ∉ used) USER_COLORS) as [[i c]|] eqn:Hfind;
    simpl.
  - apply list_find_Some in Hfind as (Hi & _ & _).
    by eapply list_elem_of_lookup_2.
  - apply list_elem_of_lookup_total_2. apply fin_to_nat_lt.
Qed.

(** [addUser] written out, for a registry whose rooms and colour sets
    have the same keys. *)
Lemma addUser_synced s R now rnd m :
  (∀ R, is_Some (RoomManager.rooms m !! R)
        ↔ is_Some (RoomManager.roomColors m !! R)) →
  let c := RoomManager.assignColor (room_used R m) rnd in
  let n := (RoomManager.userIdCounter m + 1)%N in
  let user := User.mk (RoomManager.userIdOf n now) s R c in
  RoomManager.addUser s R now rnd m
  = Some (user,
          RoomManager.mk
            (<[s := user]> (RoomManager.users m))
            (<[R := RoomManager.set_add s (room_members R m)]>
               (RoomManager.rooms m))
            (<[R := {[c]} ∪ room_used R m]> (RoomManager.roomColors m))
            n).
Proof.
  intros Hdom. specialize (Hdom R).
  unfold RoomManager.addUser, room_members, room_used.
  destruct (RoomManager.rooms m !! R) as [l|] eqn:Hl.
  - destruct (proj1 Hdom) as [cs Hcs]; [by eexists|].
    rewrite Hcs; simpl. by rewrite Hl.
  - destruct (RoomManager.roomColors m !! R) as [cs|] eqn:Hcs.
    { destruct (proj2 Hdom) as [? ?]; [by eexists|done]. }
    rewrite !lookup_insert_eq; simpl. by rewrite !insert_insert_eq.
Qed.

Lemma set_add_nonempty s l : RoomManager.set_add s l ≠ [].
Proof.
  unfold RoomManager.set_add. case_decide as Hs.
  - intros ->. by apply elem_of_nil in Hs.
  - by destruct l.
Qed.

Lemma rm_basic_new : rm_basic RoomManager.new.
Proof.
  split; simpl.
  - intros s u. by rewrite lookup_empty.
  - intros s u. by rewrite lookup_empty.
  - intros s1 s2 u1 u2. by rewrite lookup_empty.
  - intros s u. by rewrite lookup_empty.
  - intros R cs c. by rewrite lookup_empty.
  - intros R. rewrite !lookup_empty. split; by intros [? ?].
  - intros R l. by rewrite lookup_empty.
Qed.

Lemma rm_basic_addUser s R now rnd m :
  rm_basic m →
  ∃ u m', RoomManager.addUser s R now rnd m = Some (u, m')
          ∧ rm_basic m'
          ∧ User.userId u
            = RoomManager.userIdOf (RoomManager.userIdCounter m + 1) now
          ∧ RoomManager.userIdCounter m'
            = (RoomManager.userIdCounter m + 1)%N.
Proof.
  intros Hb.
  pose proof (addUser_synced s R now rnd m (rm_dom m Hb)) as Hres.
  cbv zeta in Hres. eexists _, _. split; [exact Hres|].
  split; [|done].
  set (user := User.mk _ s R _).
  assert (∀ x u', <[s := user]> (RoomManager.users m) !! x = Some u' →
            (x = s ∧ u' = user)
            ∨ (x ≠ s ∧ RoomManager.users m !! x = Some u')) as Hcases.
  { intros x u' Hx. destruct (decide (x = s)) as [->|Hne].
    - rewrite lookup_insert_eq in Hx. left. split; congruence.
    - rewrite lookup_insert_ne in Hx by done. by right. }
  split; simpl.
  - intros x u' [[-> ->]|[_ Hx]]%Hcases; [done|]. by eapply rm_socket.
  - intros x u' [[-> ->]|[_ Hx]]%Hcases.
    + eexists _, _. split; [done|]. simpl. lia.
    + destruct (rm_user_minted m Hb x u' Hx) as (k & t & -> & Hk).
      exists k, t. split; [done|]. lia.
  - intros x1 x2 u1 u2 [[-> ->]|[Hne1 Hx1]]%Hcases
      [[-> ->]|[Hne2 Hx2]]%Hcases Heq; [done| | |].
    + destruct (rm_user_minted m Hb x2 u2 Hx2) as (k & t & Hid & Hk).
      simpl in Heq. rewrite Hid in Heq.
      apply userIdOf_counter in Heq. lia.
    + destruct (rm_user_minted m Hb x1 u1 Hx1) as (k & t & Hid & Hk).
      simpl in Heq. rewrite Hid in Heq.
      apply userIdOf_counter in Heq. lia.
    + by eapply rm_user_ids.
  - intros x u' [[-> ->]|[_ Hx]]%Hcases; [|by eapply rm_user_color].
    simpl. apply assignColor_palette.
  - intros R' cs c HR' Hc. destruct (decide (R' = R)) as [->|Hne].
    + rewrite lookup_insert_eq in HR'. injection HR' as <-.
      apply elem_of_union in Hc as [->%elem_of_singleton|Hc];
        [apply assignColor_palette|].
      unfold room_used in Hc.
      destruct (RoomManager.roomColors m !! R) as [cs|] eqn:Hcs;
        simpl in Hc; [by eapply rm_used_palette|].
      by apply elem_of_empty in Hc.
    + rewrite lookup_insert_ne in HR' by done. by eapply rm_used_palette.
  - intros R'. destruct (decide (R' = R)) as [->|Hne].
    + rewrite !lookup_insert_eq. split; by eexists.
    + rewrite !lookup_insert_ne by done. by apply rm_dom.
  - intros R' l HR'. destruct (decide (R' = R)) as [->|Hne].
    + rewrite lookup_insert_eq in HR'. injection HR' as <-.
      apply set_add_nonempty.
    + rewrite lookup_insert_ne in HR' by done. by eapply rm_nonempty.
Qed.

Lemma rm_basic_removeUser s m :
  rm_basic m →
  ∃ m', RoomManager.removeUser s m = Some m'
        ∧ rm_basic m'
        ∧ RoomManager.users m' = delete s (RoomManager.users m)
        ∧ RoomManager.userIdCounter m' = RoomManager.userIdCounter m.
Proof.
  intros Hb. unfold RoomManager.removeUser.
  destruct (RoomManager.users m !! s) as [u|] eqn:Hu.
  2:{ exists m. split_and!; [done..| |done].
      symmetry. by apply delete_id. }
  assert (∀ (rooms' : gmap string (list string))
            (colors' : gmap string (gset string)),
            (∀ R cs c, colors' !! R = Some cs → c ∈ cs → c ∈ USER_COLORS) →
            (∀ R, is_Some (rooms' !! R) ↔ is_Some (colors' !! R)) →
            (∀ R l, rooms' !! R = Some l → l ≠ []) →
            rm_basic (RoomManager.mk (delete s (RoomManager.users m))
                        rooms' colors' (RoomManager.userIdCounter m)))
    as Hbuild.
  { intros rooms' colors' Hpal Hdom Hne. split; simpl; try done.
    - intros x u' [_ Hx]%lookup_delete_Some. by eapply rm_socket.
    - intros x u' [_ Hx]%lookup_delete_Some. by eapply rm_user_minted.
    - intros x1 x2 u1 u2 [_ Hx1]%lookup_delete_Some
        [_ Hx2]%lookup_delete_Some. by eapply rm_user_ids.
    - intros x u' [_ Hx]%lookup_delete_Some. by eapply rm_user_color. }
  simpl.
  destruct (RoomManager.rooms m !! User.roomId u) as [l|] eqn:Hl.
  - case_decide as Hlen.
    + eexists. split; [done|]. split; [|done].
      apply Hbuild.
      * intros R cs c [_ HR]%lookup_delete_Some. by eapply rm_used_palette.
      * intros R. destruct (decide (R = User.roomId u)) as [->|Hne].
        -- rewrite !lookup_delete_eq. split; by intros [? ?].
        -- rewrite !lookup_delete_ne by done. by apply rm_dom.
      * intros R l' [_ HR]%lookup_delete_Some. by eapply rm_nonempty.
    + destruct (proj1 (rm_dom m Hb (User.roomId u))) as [cs Hcs];
        [by eexists|].
      rewrite Hcs. simpl. eexists. split; [done|]. split; [|done].
      apply Hbuild.
      * intros R cs' c HR Hc.
        destruct (decide (R = User.roomId u)) as [->|Hne].
        -- rewrite lookup_insert_eq in HR. injection HR as <-.
           apply elem_of_difference in Hc as [Hc _].
           by eapply rm_used_palette.
        -- rewrite lookup_insert_ne in HR by done.
           by eapply rm_used_palette.
      * intros R. destruct (decide (R = User.roomId u)) as [->|Hne].
        -- rewrite !lookup_insert_eq. split; by eexists.
        -- rewrite !lookup_insert_ne by done. by apply rm_dom.
      * intros R l' HR.
        destruct (decide (R = User.roomId u)) as [->|Hne].
        -- rewrite lookup_insert_eq in HR. injection HR as <-.
           intros Hnil. apply Hlen. by rewrite Hnil.
        -- rewrite lookup_insert_ne in HR by done. by eapply rm_nonempty.
  - eexists. split; [done|]. split; [|done].
    apply Hbuild; [by eapply rm_used_palette|by apply rm_dom|
                   by eapply rm_nonempty].
Qed.

Lemma rm_basic_step m o :
  rm_basic m →
  ∃ m', rm_step m o = Some m' ∧ rm_basic m'
        ∧ (RoomManager.userIdCounter m ≤ RoomManager.userIdCounter m')%N.
Proof.
  intros Hb. destruct o as [s R now rnd|s]; simpl.
  - destruct (rm_basic_addUser s R now rnd m Hb)
      as (u & m' & -> & Hb' & _ & Hctr).
    exists m'. simpl. split_and!; [done..|]. lia.
  - destruct (rm_basic_removeUser s m Hb) as (m' & -> & Hb' & _ & Hctr).
    exists m'. split_and!; [done..|]. lia.
Qed.

Lemma rm_basic_run ops :
  ∀ m, rm_basic m →
       ∃ m', rm_run ops m = Some m' ∧ rm_basic m'
             ∧ (RoomManager.userIdCounter m
                ≤ RoomManager.userIdCounter m')%N.
Proof.
  induction ops as [|o ops IH]; intros m Hb; simpl.
  - exists m. split_and!; [done..|]. lia.
  - destruct (rm_basic_step m o Hb) as (m1 & -> & Hb1 & Hle1). simpl.
    destruct (IH m1 Hb1) as (m2 & Hrun & Hb2 & Hle2).
    exists m2. split_and!; [done..|]. lia.
Qed.

(** ** Any sequence of joins and leaves *)

(** X12: no sequence of [addUser] and [removeUser] calls on the fresh
    registry fails, repeated joins of one connection and leaves of unknown
    connections included.  In the state it reaches, every user record is
    stored under its own socket id and has a palette colour, no two
    connections have the same user id, and a room is present exactly when
    its member count is not 0, together with its set of used colours. *)
Theorem registry_never_fails (ops : list rm_op) :
  ∃ m, rm_run ops RoomManager.new = Some m
       ∧ (∀ s u, RoomManager.users m !! s = Some u →
                 User.socketId u = s ∧ User.color u ∈ USER_COLORS)
       ∧ (∀ s1 s2 u1 u2,
            RoomManager.users m !! s1 = Some u1 →
            RoomManager.users m !! s2 = Some u2 →
            s1 ≠ s2 → User.userId u1 ≠ User.userId u2)
       ∧ (∀ R, RoomManager.getRoomUserCount R m = 0
               ↔ RoomManager.rooms m !! R = None)
       ∧ (∀ R, RoomManager.rooms m !! R = None
               ↔ RoomManager.roomColors m !! R = None).
Proof.
  destruct (rm_basic_run ops RoomManager.new rm_basic_new)
    as (m & Hrun & Hb & _).
  exists m. split_and!; [done|..].
  - intros s u Hu. split; [by eapply rm_socket|by eapply rm_user_color].
  - intros s1 s2 u1 u2 H1 H2 Hne Heq. apply Hne. by eapply rm_user_ids.
  - intros R. unfold RoomManager.getRoomUserCount.
    destruct (RoomManager.rooms m !! R) as [l|] eqn:Hl; [|done].
    split; [|done]. intros Hlen%length_zero_iff_nil.
    by destruct (rm_nonempty m Hb R l Hl).
  - intros R. destruct (rm_dom m Hb R) as [Hto Hfrom].
    destruct (RoomManager.rooms m !! R) as [l|],
      (RoomManager.roomColors m !! R) as [cs|]; try done.
    + by destruct Hto as [? ?].
    + by destruct Hfrom as [? ?].
Qed.

Lemma registry_never_fails_witness :
  ∃ m u, rm_run sample_trace RoomManager.new = Some m
         ∧ RoomManager.users m !! "socket_B" = Some u
         ∧ User.socketId u = "socket_B".
Proof.
  destruct (registry_never_fails sample_trace) as (m & Hrun & Hsock & _).
  assert (m = sample_registry) as ->.
  { assert (rm_run sample_trace RoomManager.new = Some sample_registry)
      as Hrun' by (vm_compute; reflexivity).
    congruence. }
  assert (∃ u, RoomManager.users sample_registry !! "socket_B" = Some u)
    as [u Hu] by (eexists; vm_compute; reflexivity).
  exists sample_registry, u. split; [exact Hrun|]. split; [exact Hu|].
  exact (proj1 (Hsock "socket_B" u Hu)).
Defined.

(** X13: a user id is issued once.  From any state reached from the
    fresh registry, the user created by a join and the user created by any
    later join have different user ids, whatever joins and leaves happened
    in between (the same connection joining again included). *)
Theorem user_id_never_reissued (ops0 ops : list rm_op) (s1 R1 s2 R2 : string)
    (t1 t2 : Z) (rnd1 rnd2 : fin (length USER_COLORS)) :
  ∃ m0 u1 m1 m2 u2 m3,
    rm_run ops0 RoomManager.new = Some m0
    ∧ RoomManager.addUser s1 R1 t1 rnd1 m0 = Some (u1, m1)
    ∧ rm_run ops m1 = Some m2
    ∧ RoomManager.addUser s2 R2 t2 rnd2 m2 = Some (u2, m3)
    ∧ User.userId u1 ≠ User.userId u2.
Proof.
  destruct (rm_basic_run ops0 RoomManager.new rm_basic_new)
    as (m0 & Hrun0 & Hb0 & _).
  destruct (rm_basic_addUser s1 R1 t1 rnd1 m0 Hb0)
    as (u1 & m1 & Hadd1 & Hb1 & Hid1 & Hctr1).
  destruct (rm_basic_run ops m1 Hb1) as (m2 & Hrun & Hb2 & Hle).
  destruct (rm_basic_addUser s2 R2 t2 rnd2 m2 Hb2)
    as (u2 & m3 & Hadd2 & _ & Hid2 & _).
  exists m0, u1, m1, m2, u2, m3. split_and!; [done..|].
  rewrite Hid1, Hid2. intros Heq%userIdOf_counter. lia.
Qed.

(** ** Sequences in which a connection joins once *)

Lemma rm_inv_run ops :
  ∀ m, rm_inv m → fresh_joins ops m →
       ∀ m', rm_run ops m = Some m' → rm_inv m'.
Proof.
  induction ops as [|o ops IH]; intros m Hinv Hfresh m' Hrun; simpl in *.
  - by injection Hrun as <-.
  - destruct Hfresh as [Ho Hfresh].
    destruct (rm_step m o) as [m1|] eqn:Hstep; [|done]. simpl in Hrun.
    apply (IH m1); [|done..].
    destruct o as [s R now rnd|s]; simpl in Hstep.
    + destruct (RoomManager.addUser s R now rnd m) as [[u m1']|] eqn:Hadd;
        [|done].
      injection Hstep as ->. by eapply rm_inv_addUser.
    + destruct (rm_inv_removeUser s m Hinv) as (m1' & Hrem & Hinv1).
      congruence.
Qed.

Lemma getRoomUsers_members R m :
  RoomManager.getRoomUsers R m
  = omap (λ s, RoomManager.users m !! s) (room_members R m).
Proof.
  unfold RoomManager.getRoomUsers, room_members.
  by destruct (RoomManager.rooms m !! R).
Qed.

Lemma getRoomUserCount_members R m :
  RoomManager.getRoomUserCount R m = length (room_members R m).
Proof.
  unfold RoomManager.getRoomUserCount, room_members.
  by destruct (RoomManager.rooms m !! R).
Qed.

Lemma omap_all_Some {A B} (f : A → option B) (l : list A) :
  (∀ x, x ∈ l → is_Some (f x)) → length (omap f l) = length l.
Proof.
  induction l as [|x l IH]; [done|]. intros Hall. simpl.
  destruct (Hall x) as [y Hy]; [by left|]. rewrite Hy. simpl. f_equal.
  apply IH. intros z Hz. apply Hall. by right.
Qed.

(** X14: along a sequence of joins and leaves on the fresh registry in
    which each join is made by a connection without a user at that time,
    [getRoomUsers] of a room returns as many users as [getRoomUserCount]
    counts (no socket of the room lacks a user), the users it returns are
    exactly the registered users whose [roomId] is that room, each of them
    once. *)
Theorem room_members_are_registered_users (ops : list rm_op)
    (m : RoomManager.t) (R : string) :
  fresh_joins ops RoomManager.new →
  rm_run ops RoomManager.new = Some m →
  length (RoomManager.getRoomUsers R m) = RoomManager.getRoomUserCount R m
  ∧ (∀ u, u ∈ RoomManager.getRoomUsers R m
          ↔ RoomManager.users m !! User.socketId u = Some u
            ∧ User.roomId u = R)
  ∧ NoDup (User.socketId <$> RoomManager.getRoomUsers R m).
Proof.
  intros Hfresh Hrun.
  pose proof (rm_inv_run ops RoomManager.new rm_inv_new Hfresh m Hrun)
    as Hinv.
  destruct (rm_basic_run ops RoomManager.new rm_basic_new)
    as (m' & Hrun' & Hb & _).
  assert (m' = m) as -> by congruence.
  rewrite getRoomUsers_members, getRoomUserCount_members.
  split_and!.
  - apply omap_all_Some. intros s Hs.
    destruct (room_members_user R m s Hinv Hs) as (u & -> & _). by eexists.
  - intros u. rewrite list_elem_of_omap. split.
    + intros (s & Hs & Hu).
      destruct (room_members_user R m s Hinv Hs) as (u' & Hu' & HR).
      assert (u' = u) as -> by congruence.
      rewrite (rm_socket m Hb s u Hu). done.
    + intros [Hu HR]. exists (User.socketId u). split; [|done].
      destruct (rm_user_member m Hinv _ u Hu) as (l & Hl & Hin).
      unfold room_members. by rewrite <- HR, Hl.
  - assert (User.socketId <$> omap (λ s, RoomManager.users m !! s)
                                (room_members R m)
            = room_members R m) as ->;
      [|by apply room_members_NoDup].
    assert (∀ s, s ∈ room_members R m →
                 ∃ u, RoomManager.users m !! s = Some u
                      ∧ User.socketId u = s) as Hall.
    { intros s Hs.
      destruct (room_members_user R m s Hinv Hs) as (u & Hu & _).
      exists u. split; [done|]. by eapply rm_socket. }
    induction (room_members R m) as [|s l IH]; [done|]. simpl.
    destruct (Hall s) as (u & -> & Hsock); [by left|]. simpl.
    rewrite Hsock. f_equal. apply IH. intros z Hz. apply Hall. by right.
Qed.

Lemma room_members_are_registered_users_witness :
  fresh_joins sample_trace RoomManager.new
  ∧ rm_run sample_trace RoomManager.new = Some sample_registry
  ∧ length (RoomManager.getRoomUsers "default" sample_registry)
    = RoomManager.getRoomUserCount "default" sample_registry.
Proof.
  assert (fresh_joins sample_trace RoomManager.new) as Hfresh.
  { vm_compute. repeat split. }
  assert (rm_run sample_trace RoomManager.new = Some sample_registry)
    as Hrun by (vm_compute; reflexivity).
  split; [exact Hfresh|]. split; [exact Hrun|].
  exact (proj1 (room_members_are_registered_users sample_trace
                  sample_registry "default" Hfresh Hrun)).
Defined.

(** ** Joining and leaving again *)

Lemma set_delete_snoc s l :
  s ∉ l → RoomManager.set_delete s (l ++ [s]) = l.
Proof.
  intros Hs.
  pose proof (set_delete_middle s l [] Hs) as Hmid.
  rewrite app_nil_r in Hmid. apply Hmid. by intros ?%elem_of_nil.
Qed.

Lemma removeUser_after_join s R (user : User.t) l cs
    (U : gmap string User.t) (Rm : gmap string (list string))
    (Cm : gmap string (gset string)) n :
  User.roomId user = R →
  s ∉ l →
  RoomManager.removeUser s
    (RoomManager.mk (<[s := user]> U) (<[R := l ++ [s]]> Rm)
       (<[R := cs]> Cm) n)
  = Some (if decide (length l = 0)
          then RoomManager.mk (delete s U) (delete R Rm) (delete R Cm) n
          else RoomManager.mk (delete s U) (<[R := l]> Rm)
                 (<[R := cs ∖ {[User.color user]}]> Cm) n).
Proof.
  intros HR Hs. unfold RoomManager.removeUser. simpl.
  rewrite lookup_insert_eq. simpl. rewrite HR, lookup_insert_eq.
  rewrite set_delete_snoc by done.
  case_decide.
  - by rewrite !delete_insert_eq.
  - rewrite lookup_insert_eq. simpl.
    by rewrite delete_insert_eq, !insert_insert_eq.
Qed.

(** X15: in a state reached by joins of connections that had no user, a
    connection without a user joins a room that has a free palette colour
    and leaves at once: both calls succeed and the registry is back to
    its users, rooms and sets of used colours (a room created by the join
    is deleted again); only the user id counter has advanced by one. *)
Theorem join_then_leave_restores (ops : list rm_op) (m : RoomManager.t)
    (s R : string) (now : Z) (rnd : fin (length USER_COLORS)) :
  fresh_joins ops RoomManager.new →
  rm_run ops RoomManager.new = Some m →
  RoomManager.users m !! s = None →
  size (room_used R m) < length USER_COLORS →
  ∃ u m1 m2,
    RoomManager.addUser s R now rnd m = Some (u, m1)
    ∧ RoomManager.removeUser s m1 = Some m2
    ∧ RoomManager.users m2 = RoomManager.users m
    ∧ RoomManager.rooms m2 = RoomManager.rooms m
    ∧ RoomManager.roomColors m2 = RoomManager.roomColors m
    ∧ RoomManager.userIdCounter m2
      = (RoomManager.userIdCounter m + 1)%N.
Proof.
  intros Hfresh Hrun Hs Hsize.
  pose proof (rm_inv_run ops RoomManager.new rm_inv_new Hfresh m Hrun)
    as Hinv.
  destruct (rm_basic_run ops RoomManager.new rm_basic_new)
    as (m' & Hrun' & Hb & _).
  assert (m' = m) as -> by congruence.
  pose proof (addUser_result s R now rnd m Hinv) as Hadd.
  cbv zeta in Hadd.
  destruct (firstFreeColor_free (room_used R m) Hsize) as (c & Hc & Hfree).
  unfold RoomManager.assignColor in Hadd. rewrite Hc in Hadd.
  pose proof (room_members_unregistered R m s Hinv Hs) as Hnotin.
  rewrite set_add_fresh in Hadd by done.
  eexists _, _, _. split; [exact Hadd|].
  rewrite removeUser_after_join by done.
  split; [reflexivity|].
  assert (({[c]} ∪ room_used R m) ∖ {[c]} = room_used R m) as Hdiff.
  { apply set_eq. intros x.
    rewrite elem_of_difference, elem_of_union, elem_of_singleton.
    split; [by intros [[?|?] ?]|].
    intros Hx. split; [by right|]. by intros ->. }
  pose proof (delete_id (RoomManager.users m) s Hs) as Husers.
  case_decide as Hlen;
    cbn [RoomManager.users RoomManager.rooms RoomManager.roomColors
         RoomManager.userIdCounter User.color];
    rewrite Husers.
  - apply length_zero_iff_nil in Hlen. unfold room_members in Hlen.
    destruct (RoomManager.rooms m !! R) as [l|] eqn:Hl.
    { simpl in Hlen. subst l. by destruct (rm_nonempty m Hb R [] Hl). }
    assert (RoomManager.roomColors m !! R = None) as Hcs.
    { destruct (RoomManager.roomColors m !! R) eqn:Hcs; [|done].
      destruct (proj2 (rm_colors_dom m Hinv R)) as [? ?];
        [by eexists|congruence]. }
    by rewrite !delete_id.
  - rewrite Hdiff. unfold room_members, room_used in *.
    destruct (RoomManager.rooms m !! R) as [l|] eqn:Hl; [|done].
    destruct (proj1 (rm_colors_dom m Hinv R)) as [cs Hcs]; [by eexists|].
    rewrite Hcs.
    cbn [default from_option].
    rewrite (insert_id (RoomManager.rooms m)) by done.
    by rewrite (insert_id (RoomManager.roomColors m)).
Qed.

Lemma join_then_leave_restores_witness :
  fresh_joins sample_trace RoomManager.new
  ∧ rm_run sample_trace RoomManager.new = Some sample_registry
  ∧ RoomManager.users sample_registry !! "socket_D" = None
  ∧ size (room_used "default" sample_registry) < length USER_COLORS
  ∧ ∃ u m1 m2,
      RoomManager.addUser "socket_D" "default" 5 0%fin sample_registry
      = Some (u, m1)
      ∧ RoomManager.removeUser "socket_D" m1 = Some m2
      ∧ RoomManager.rooms m2 = RoomManager.rooms sample_registry.
Proof.
  assert (fresh_joins sample_trace RoomManager.new) as Hfresh.
  { vm_compute. repeat split. }
  assert (rm_run sample_trace RoomManager.new = Some sample_registry)
    as Hrun by (vm_compute; reflexivity).
  assert (RoomManager.users sample_registry !! "socket_D" = None) as Hs
    by (vm_compute; reflexivity).
  assert (size (room_used "default" sample_registry) < length USER_COLORS)
    as Hsize by (vm_compute; lia).
  split; [exact Hfresh|]. split; [exact Hrun|].
  split; [exact Hs|]. split; [exact Hsize|].
  destruct (join_then_leave_restores sample_trace sample_registry "socket_D"
              "default" 5 0%fin Hfresh Hrun Hs Hsize)
    as (u & m1 & m2 & Hadd & Hrem & _ & Hrooms & _).
  by exists u, m1, m2.
Defined.

(** ** A room that has used the whole palette *)

(** X16: in a state reached from the fresh registry by any joins and
    leaves, when the set of used colours of a room has the size of the
    palette, a join to the room gets the palette colour at the index drawn
    at random, a colour that is already in the set, and the set is as
    before. *)
Theorem exhausted_palette_reuses_color (ops : list rm_op)
    (m m' : RoomManager.t) (s R : string) (now : Z)
    (rnd : fin (length USER_COLORS)) (u : User.t) :
  rm_run ops RoomManager.new = Some m →
  size (room_used R m) = length USER_COLORS →
  RoomManager.addUser s R now rnd m = Some (u, m') →
  User.color u = USER_COLORS !!! fin_to_nat rnd
  ∧ User.color u ∈ room_used R m
  ∧ room_used R m' = room_used R m.
Proof.
  intros Hrun Hsize Hadd.
  destruct (rm_basic_run ops RoomManager.new rm_basic_new)
    as (m0 & Hrun' & Hb & _).
  assert (m0 = m) as -> by congruence.
  pose proof (addUser_synced s R now rnd m (rm_dom m Hb)) as Hres.
  cbv zeta in Hres. rewrite Hres in Hadd. clear Hres.
  injection Hadd as <- <-. simpl.
  assert (room_used R m = list_to_set USER_COLORS) as Hall.
  { apply set_subseteq_size_eq.
    - intros c Hc. apply elem_of_list_to_set. unfold room_used in Hc.
      destruct (RoomManager.roomColors m !! R) as [cs|] eqn:Hcs;
        simpl in Hc; [by eapply (rm_used_palette m Hb)|].
      by apply elem_of_empty in Hc.
    - rewrite size_list_to_set by apply USER_COLORS_NoDup. lia. }
  assert (RoomManager.firstFreeColor (room_used R m) = None) as Hnone.
  { unfold RoomManager.firstFreeColor.
    destruct (list_find _ USER_COLORS) as [[i c]|] eqn:Hfind; [|done].
    apply list_find_Some in Hfind as (Hi & Hfree & _).
    destruct Hfree. rewrite Hall. apply elem_of_list_to_set.
    by eapply list_elem_of_lookup_2. }
  unfold RoomManager.assignColor. rewrite Hnone.
  assert (USER_COLORS !!! fin_to_nat rnd ∈ room_used R m) as Hin.
  { rewrite Hall. apply elem_of_list_to_set.
    apply list_elem_of_lookup_total_2. apply fin_to_nat_lt. }
  split_and!; [done..|].
  unfold room_used at 1. simpl. rewrite lookup_insert_eq. simpl.
  apply set_eq. intros x. rewrite elem_of_union, elem_of_singleton.
  split; [by intros [->|?]|by right].
Qed.

Lemma exhausted_palette_reuses_color_witness :
  rm_run sample_rejoins RoomManager.new = Some sample_exhausted
  ∧ size (room_used "default" sample_exhausted) = length USER_COLORS
  ∧ ∃ u m',
      RoomManager.addUser "socket_B" "default" 1700000000001 9%fin
        sample_exhausted = Some (u, m')
      ∧ User.color u ∈ room_used "default" sample_exhausted.
Proof.
  assert (rm_run sample_rejoins RoomManager.new = Some sample_exhausted)
    as Hrun by (vm_compute; reflexivity).
  assert (size (room_used "default" sample_exhausted) = length USER_COLORS)
    as Hsize by (vm_compute; reflexivity).
  split; [exact Hrun|]. split; [exact Hsize|].
  destruct (RoomManager.addUser "socket_B" "default" 1700000000001 9%fin
              sample_exhausted) as [[u m']|] eqn:Hadd;
    [|by vm_compute in Hadd].
  exists u, m'. split; [reflexivity|].
  exact (proj1 (proj2 (exhausted_palette_reuses_color sample_rejoins
                         sample_exhausted m' "socket_B" "default"
                         1700000000001 9%fin u Hrun Hsize Hadd))).
Defined.

(** * Further properties of the socket handlers *)

Lemma falsy_str_empty : falsy_str "" = true.
Proof. done. Qed.

Lemma server_mk_eta (st : Server.t) :
  Server.mk (Server.roomManager st) (Server.drawingStateManager st) = st.
Proof. by destruct st. Qed.

(** X17: an event whose payload lacks its room key or its stroke id, or
    that comes from a connection without a user where the handler needs
    one ([stroke-start], [cursor-move], [undo], [redo], [disconnect]), is
    dropped: nothing is emitted and the state of the server is unchanged.
    A [join-room] whose payload has no room key sends the error to the
    sender only and changes nothing.  An event sent without any payload
    is not dropped: its handler throws. *)
Theorem malformed_events_dropped (st : Server.t) (e : server_event)
    (s : string) (now : Z) (rnd : fin (length USER_COLORS))
    (name : event_name) :
  (dropped st e → server_step st e = Some ([], st))
  ∧ server_step st (EvJoinRoom s "" now rnd)
    = Some ([(Server.ToSender, Server.MError "Room ID is required")], st)
  ∧ server_step st (EvNoPayload name s) = None.
Proof.
  split; [|done].
  destruct e as [s' r t k|s' r px py c sz ty t1 t2 t3|r i px py|r i
                |s' r px py|s' r|s' r|s'|nm s']; simpl; [done|..|done].
  - intros [->|Hu]; unfold Server.on_stroke_start.
    + done.
    + rewrite Hu. by destruct (falsy_str r).
  - intros [->| ->]; unfold Server.on_stroke_update; [done|].
    by rewrite falsy_str_empty, orb_true_r.
  - intros [->| ->]; unfold Server.on_stroke_end; [done|].
    by rewrite falsy_str_empty, orb_true_r.
  - intros [->|Hu]; unfold Server.on_cursor_move.
    + done.
    + rewrite Hu. by destruct (falsy_str r).
  - intros [->|Hu]; unfold Server.on_undo.
    + done.
    + rewrite Hu. by destruct (falsy_str r).
  - intros [->|Hu]; unfold Server.on_redo.
    + done.
    + rewrite Hu. by destruct (falsy_str r).
  - intros Hu. unfold Server.on_disconnect. by rewrite Hu.
Qed.

Lemma malformed_events_dropped_witness :
  dropped Server.new (EvUndo "socket_A" "default")
  ∧ server_step Server.new (EvUndo "socket_A" "default")
    = Some ([], Server.new)
  ∧ server_step Server.new (EvNoPayload OnUndo "socket_A") = None.
Proof.
  assert (dropped Server.new (EvUndo "socket_A" "default")) as Hd
    by (right; reflexivity).
  split; [exact Hd|]. split.
  - exact (proj1 (malformed_events_dropped Server.new
                    (EvUndo "socket_A" "default") "socket_A" 0 0%fin OnUndo)
             Hd).
  - exact (proj2 (proj2 (malformed_events_dropped Server.new
                           (EvUndo "socket_A" "default") "socket_A" 0 0%fin
                           OnUndo))).
Defined.

(** X18: the handlers keep the two managers apart: only [join-room] and
    [disconnect] change the registry, and only [stroke-start],
    [stroke-update], [undo] and [redo] change the drawing state;
    [stroke-end] and [cursor-move] change nothing at all. *)
Theorem handlers_touch_one_manager (st st' : Server.t) (e : server_event)
    (out : list Server.emission) :
  server_step st e = Some (out, st') →
  (registry_event e = false →
   Server.roomManager st' = Server.roomManager st)
  ∧ (drawing_event e = false →
     Server.drawingStateManager st' = Server.drawingStateManager st).
Proof.
  destruct e as [s r t k|s r px py c sz ty t1 t2 t3|r i px py|r i
                |s r px py|s r|s r|s|nm s]; simpl; [..|done].
  - unfold Server.on_join_room. destruct (falsy_str r).
    + intros [= <- <-]. done.
    + destruct (RoomManager.addUser s r t k _) as [[u rm]|]; [|done].
      simpl. rewrite (surjective_pairing (getFullState r _)).
      rewrite getFullState_state. intros [= <- <-]. done.
  - unfold Server.on_stroke_start. destruct (falsy_str r).
    + intros [= <- <-]. done.
    + destruct (RoomManager.getUser s _) as [u|].
      * rewrite (surjective_pairing (addStroke _ _ _ _ _)).
        intros [= <- <-]. done.
      * intros [= <- <-]. done.
  - unfold Server.on_stroke_update.
    destruct (falsy_str r || falsy_str i).
    + intros [= <- <-]. done.
    + rewrite (surjective_pairing (updateStroke _ _ _ _ _)).
      destruct (updateStroke r i px py _).1; intros [= <- <-]; done.
  - unfold Server.on_stroke_end, finalizeStroke.
    destruct (falsy_str r || falsy_str i); intros [= <- <-]; [done|].
    simpl. done.
  - unfold Server.on_cursor_move. destruct (falsy_str r).
    + intros [= <- <-]. done.
    + destruct (RoomManager.getUser s _); intros [= <- <-]; done.
  - unfold Server.on_undo. destruct (falsy_str r).
    + intros [= <- <-]. done.
    + destruct (RoomManager.getUser s _) as [u|].
      * rewrite (surjective_pairing (undo _ _ _)).
        destruct (undo r (User.userId u) _).1; intros [= <- <-]; done.
      * intros [= <- <-]. done.
  - unfold Server.on_redo. destruct (falsy_str r).
    + intros [= <- <-]. done.
    + destruct (RoomManager.getUser s _) as [u|].
      * rewrite (surjective_pairing (redo _ _ _)).
        destruct (redo r (User.userId u) _).1; intros [= <- <-]; done.
      * intros [= <- <-]. done.
  - unfold Server.on_disconnect.
    destruct (RoomManager.getUser s _) as [u|].
    + destruct (RoomManager.removeUser s _) as [rm|]; [|done].
      simpl. intros [= <- <-]. done.
    + intros [= <- <-]. done.
Qed.

Lemma handlers_touch_one_manager_witness :
  server_step sample_alone sample_foreign_start
  = Some (server_step_result sample_alone sample_foreign_start)
  ∧ Server.roomManager (server_step_result sample_alone
                          sample_foreign_start).2
    = Server.roomManager sample_alone.
Proof.
  assert (server_step sample_alone sample_foreign_start
          = Some (server_step_result sample_alone sample_foreign_start))
    as Hstep by reflexivity.
  split; [exact Hstep|].
  exact (proj1 (handlers_touch_one_manager sample_alone _
                  sample_foreign_start _
                  (eq_trans Hstep
                     (f_equal Some
                        (surjective_pairing
                           (server_step_result sample_alone
                              sample_foreign_start)))))
           eq_refl).
Defined.

Lemma falsy_str_nonempty (r : string) : r ≠ "" → falsy_str r = false.
Proof. intros Hr. unfold falsy_str. by apply String.eqb_neq. Qed.

Lemma js_or_idem (a b : jsval) :
  truthy b = true → js_or (js_or a b) b = js_or a b.
Proof.
  intros Hb. unfold js_or. destruct (truthy a) eqn:Ha.
  - by rewrite Ha.
  - by rewrite Hb.
Qed.

Lemma held_by_addStroke roomId d t1 t2 m R c :
  held_by R c (addStroke roomId d t1 t2 m).2
  = if decide (R = roomId) then
      match c with
      | Timeline => timeline roomId m ++ [(addStroke roomId d t1 t2 m).1]
      | UndoStack u =>
          if decide (u = StrokeData.userId d) then []
          else held_by roomId (UndoStack u) m
      end
    else held_by R c m.
Proof.
  unfold addStroke, _getRoomState, _generateStrokeId, timeline.
  destruct (roomStates m !! roomId) as [rs|] eqn:Hrs; simpl.
  - rewrite held_by_insert. case_decide as HR; [subst R|].
    + destruct c as [|u]; simpl; [done|].
      unfold held_by. rewrite Hrs. simpl. case_decide as Hu.
      * subst u. by rewrite lookup_delete_eq.
      * by rewrite lookup_delete_ne.
    + unfold held_by. done.
  - rewrite held_by_insert. case_decide as HR; [subst R|].
    + destruct c as [|u]; simpl; [done|].
      unfold held_by. rewrite Hrs. simpl.
      case_decide as Hu.
      * subst u. by rewrite lookup_delete_eq.
      * by rewrite lookup_delete_ne, lookup_empty.
    + rewrite held_by_insert. by rewrite decide_False.
Qed.

(** X19: [stroke-start] from a connection with a user, for any non-empty
    room key -- the room the user has joined or another one -- stores one
    new stroke at the end of the timeline of that room: it is owned by the
    user of the connection, carries the next id of the counter and the one
    point of the payload, with type "draw" when the payload has none.  The
    stroke is sent to the room, the redo stack of the user in that room is
    emptied, every other container and the registry are left as they
    were. *)
Theorem stroke_start_stores_stroke (st : Server.t) (s R : string)
    (px py color size type : jsval) (now_h now_id now_ts : Z)
    (user : User.t) :
  RoomManager.getUser s (Server.roomManager st) = Some user →
  R ≠ "" →
  let dsm := Server.drawingStateManager st in
  let stroke :=
    Stroke.mk (strokeIdOf (strokeIdCounter dsm + 1) now_id)
      (User.userId user) (js_or (JNum now_h) (JNum now_ts))
      (js_or type (JStr "draw")) color size [Point.mk px py] in
  ∃ dsm',
    Server.on_stroke_start s R px py color size type now_h now_id now_ts st
    = ([(Server.ToRoom R, Server.MStrokeStart stroke R)],
       Server.mk (Server.roomManager st) dsm')
    ∧ timeline R dsm' = timeline R dsm ++ [stroke]
    ∧ held_by R (UndoStack (User.userId user)) dsm' = []
    ∧ strokeIdCounter dsm' = (strokeIdCounter dsm + 1)%N
    ∧ ∀ R' c,
        (R', c) ≠ (R, Timeline) →
        (R', c) ≠ (R, UndoStack (User.userId user)) →
        held_by R' c dsm' = held_by R' c dsm.
Proof.
  intros Hu HR dsm stroke.
  set (d := StrokeData.mk (User.userId user) (JNum now_h)
              (js_or type (JStr "draw")) color size [Point.mk px py]).
  assert ((addStroke R d now_id now_ts dsm).1 = stroke) as Hstroke.
  { unfold addStroke, _getRoomState, _generateStrokeId, stroke.
    destruct (roomStates dsm !! R); simpl; by rewrite js_or_idem. }
  exists (addStroke R d now_id now_ts dsm).2.
  split; [|split; [|split; [|split]]].
  - unfold Server.on_stroke_start.
    rewrite falsy_str_nonempty, Hu by done. fold dsm d.
    rewrite (surjective_pairing (addStroke R d now_id now_ts dsm)).
    by rewrite Hstroke.
  - by rewrite addStroke_timeline, Hstroke.
  - rewrite held_by_addStroke. rewrite decide_True by done.
    by rewrite decide_True.
  - apply addStroke_counter.
  - intros R' c H1 H2. rewrite held_by_addStroke.
    case_decide as HR'; [subst R'|done].
    destruct c as [|u]; [done|].
    rewrite decide_False; [done|]. intros ->. done.
Qed.

Lemma stroke_start_stores_stroke_witness :
  RoomManager.getUser "socket_A" (Server.roomManager sample_alone)
  = Some sample_user
  ∧ "lobby" ≠ ""
  ∧ ∃ dsm',
      server_step sample_alone sample_foreign_start
      = Some ([(Server.ToRoom "lobby",
                Server.MStrokeStart
                  (Stroke.mk "stroke_2_1700000000006" "user_1_1700000000000"
                     (JNum 1700000000005) (JStr "draw") (JStr "#000000")
                     (JNum 5) [Point.mk (JNum 1) (JNum 2)]) "lobby")],
              Server.mk (Server.roomManager sample_alone) dsm').
Proof.
  assert (RoomManager.getUser "socket_A" (Server.roomManager sample_alone)
          = Some sample_user) as Hu by (vm_compute; reflexivity).
  assert ("lobby" ≠ "") as HR by discriminate.
  split; [exact Hu|]. split; [exact HR|].
  destruct (stroke_start_stores_stroke sample_alone "socket_A" "lobby"
              (JNum 1) (JNum 2) (JStr "#000000") (JNum 5) JUndefined
              1700000000005 1700000000006 1700000000007 sample_user Hu HR)
    as (dsm' & Hstep & _).
  exists dsm'. simpl. f_equal. exact Hstep.
Defined.

Lemma getFullState_eq roomId m :
  getFullState roomId m = (mkFullState roomId (timeline roomId m), m).
Proof.
  unfold getFullState, timeline.
  destruct (roomStates m !! roomId); simpl; [|done].
  by rewrite snapshot_fmap.
Qed.

Lemma omap_insert_notin (U : gmap string User.t) s u (l : list string) :
  s ∉ l → omap (λ x, <[s := u]> U !! x) l = omap (λ x, U !! x) l.
Proof.
  intros Hs. induction l as [|x l IH]; [done|].
  apply not_elem_of_cons in Hs as [Hx Hl]. specialize (IH Hl).
  simpl. rewrite lookup_insert_ne by done.
  destruct (U !! x); [f_equal|]; exact IH.
Qed.

Lemma omap_delete_notin (U : gmap string User.t) s (l : list string) :
  s ∉ l → omap (λ x, delete s U !! x) l = omap (λ x, U !! x) l.
Proof.
  intros Hs. induction l as [|x l IH]; [done|].
  apply not_elem_of_cons in Hs as [Hx Hl]. specialize (IH Hl).
  simpl. rewrite lookup_delete_ne by done.
  destruct (U !! x); [f_equal|]; exact IH.
Qed.

Lemma filter_Forall_id {A} (P : A → Prop) `{∀ x, Decision (P x)}
    (l : list A) :
  Forall P l → filter P l = l.
Proof.
  induction 1 as [|x l Hx _ IH]; [done|].
  by rewrite filter_cons, decide_True, IH.
Qed.

Lemma omap_delete_filter (U : gmap string User.t) s (user : User.t)
    (l : list string) :
  U !! s = Some user →
  (∀ x u, x ∈ l → U !! x = Some u →
          User.userId u = User.userId user → x = s) →
  omap (λ x, delete s U !! x) (RoomManager.set_delete s l)
  = filter (λ u, User.userId u ≠ User.userId user)
      (omap (λ x, U !! x) l).
Proof.
  intros Hs. unfold RoomManager.set_delete.
  induction l as [|x l IH]; [done|]. intros Hids.
  assert (omap (λ x, delete s U !! x) (filter (λ x, x ≠ s) l)
          = filter (λ u, User.userId u ≠ User.userId user)
              (omap (λ x, U !! x) l)) as IH'.
  { apply IH. intros y u Hy. apply Hids. by right. }
  rewrite filter_cons. destruct (decide (x = s)) as [->|Hx].
  - rewrite decide_False by (by intros []).
    change (omap (λ x, U !! x) (s :: l))
      with (match U !! s with
            | Some u => u :: omap (λ x, U !! x) l
            | None => omap (λ x, U !! x) l
            end).
    rewrite Hs, filter_cons, decide_False by (by intros []). exact IH'.
  - rewrite decide_True by done.
    change (omap (λ x, delete s U !! x) (x :: filter (λ x, x ≠ s) l))
      with (match delete s U !! x with
            | Some u => u :: omap (λ x, delete s U !! x)
                               (filter (λ x, x ≠ s) l)
            | None => omap (λ x, delete s U !! x) (filter (λ x, x ≠ s) l)
            end).
    change (omap (λ x, U !! x) (x :: l))
      with (match U !! x with
            | Some u => u :: omap (λ x, U !! x) l
            | None => omap (λ x, U !! x) l
            end).
    rewrite lookup_delete_ne by done.
    destruct (U !! x) as [u|] eqn:Hu; [|exact IH'].
    rewrite filter_cons, decide_True; [by rewrite IH'|].
    intros Hid. apply Hx. apply (Hids x u); [by left|done|done].
Qed.

Lemma set_delete_length s l :
  NoDup l → s ∈ l →
  length (RoomManager.set_delete s l) = pred (length l).
Proof.
  intros Hnd (l1 & l2 & ->)%list_elem_of_split.
  apply NoDup_app in Hnd as (_ & H1 & [H2 _]%NoDup_cons).
  rewrite set_delete_middle; [|intros Hin; by apply (H1 s Hin); left|done].
  rewrite !length_app. simpl. lia.
Qed.

Lemma rm_reachable ops m :
  fresh_joins ops RoomManager.new →
  rm_run ops RoomManager.new = Some m →
  rm_inv m ∧ rm_basic m.
Proof.
  intros Hfresh Hrun. split.
  - exact (rm_inv_run ops RoomManager.new rm_inv_new Hfresh m Hrun).
  - destruct (rm_basic_run ops RoomManager.new rm_basic_new)
      as (m' & Hrun' & Hb & _).
    by assert (m' = m) as -> by congruence.
Qed.

(** X20: [join-room] with a room key, from a connection that has no user,
    on a registry reached by joins of connections without a user and by
    leaves.  The sender is told its new user id and colour and is sent the
    (id, colour) pairs of exactly the users who were in the room before,
    in joining order; the others are told the newcomer and the former
    count plus one; the sender is sent the timeline of the room.  The
    newcomer is registered last in the room and the drawing state is not
    changed. *)
Theorem join_room_announces (ops : list rm_op) (st : Server.t)
    (s R : string) (now : Z) (rnd : fin (length USER_COLORS)) :
  fresh_joins ops RoomManager.new →
  rm_run ops RoomManager.new = Some (Server.roomManager st) →
  RoomManager.getUser s (Server.roomManager st) = None →
  R ≠ "" →
  let rm := Server.roomManager st in
  let uid := RoomManager.userIdOf (RoomManager.userIdCounter rm + 1) now in
  let c := RoomManager.assignColor (room_used R rm) rnd in
  ∃ rm',
    Server.on_join_room s R now rnd st
    = Some ([ (Server.ToSender, Server.MUserInfo uid c);
              (Server.ToSender,
               Server.MExistingUsers
                 ((λ u, (User.userId u, User.color u))
                    <$> RoomManager.getRoomUsers R rm));
              (Server.ToRoomExceptSender R,
               Server.MUserJoined uid c
                 (S (RoomManager.getRoomUserCount R rm)));
              (Server.ToSender,
               Server.MFullStateSync
                 (mkFullState R
                    (timeline R (Server.drawingStateManager st)))) ],
            Server.mk rm' (Server.drawingStateManager st))
    ∧ RoomManager.getUser s rm' = Some (User.mk uid s R c)
    ∧ RoomManager.getRoomUsers R rm'
      = RoomManager.getRoomUsers R rm ++ [User.mk uid s R c].
Proof.
  intros Hfresh Hrun Hnone HR rm uid c.
  destruct (rm_reachable ops rm Hfresh Hrun) as [Hinv Hb].
  pose proof (addUser_result s R now rnd rm Hinv) as Hadd.
  cbv zeta in Hadd. fold uid c in Hadd.
  set (user := User.mk uid s R c) in *.
  assert (s ∉ room_members R rm) as Hfreshs.
  { intros Hin.
    destruct (room_members_user R rm s Hinv Hin) as (u & Hu & _).
    change (RoomManager.users rm !! s = None) in Hnone. congruence. }
  rewrite set_add_fresh in Hadd by done.
  set (rm' := RoomManager.mk _ _ _ _) in Hadd.
  assert (RoomManager.getRoomUsers R rm'
          = RoomManager.getRoomUsers R rm ++ [user]) as Husers.
  { rewrite (getRoomUsers_members R rm).
    unfold RoomManager.getRoomUsers, rm'.
    cbn [RoomManager.rooms RoomManager.users].
    rewrite lookup_insert_eq, omap_app, omap_insert_notin by done.
    f_equal.
    change (omap (λ x, <[s:=user]> (RoomManager.users rm) !! x) [s])
      with (match <[s:=user]> (RoomManager.users rm) !! s with
            | Some u => [u]
            | None => []
            end).
    by rewrite lookup_insert_eq. }
  assert (RoomManager.getRoomUserCount R rm'
          = S (RoomManager.getRoomUserCount R rm)) as Hcount.
  { rewrite (getRoomUserCount_members R rm).
    unfold RoomManager.getRoomUserCount, rm'. cbn [RoomManager.rooms].
    rewrite lookup_insert_eq, length_app. simpl. lia. }
  assert (filter (λ u, User.userId u ≠ User.userId user)
            (RoomManager.getRoomUsers R rm')
          = RoomManager.getRoomUsers R rm) as Hothers.
  { rewrite Husers, filter_app, filter_cons, decide_False
      by (by intros []).
    rewrite filter_nil, app_nil_r. apply filter_Forall_id.
    apply Forall_forall. intros u Hu.
    rewrite getRoomUsers_members, list_elem_of_omap in Hu.
    destruct Hu as (x & _ & Hx).
    destruct (rm_user_minted rm Hb x u Hx) as (k & t & -> & Hk).
    cbn [User.userId user]. unfold uid. intros Heq.
    apply userIdOf_counter in Heq. fold rm in Hk. lia. }
  exists rm'. split; [|split; [|done]].
  - unfold Server.on_join_room.
    rewrite falsy_str_nonempty by done. fold rm. rewrite Hadd.
    cbn [mbind option_bind]. rewrite getFullState_eq.
    rewrite Hothers, Hcount. done.
  - unfold RoomManager.getUser, rm'. cbn [RoomManager.users].
    by rewrite lookup_insert_eq.
Qed.

Lemma join_room_announces_witness :
  fresh_joins sample_alone_ops RoomManager.new
  ∧ rm_run sample_alone_ops RoomManager.new
    = Some (Server.roomManager sample_alone)
  ∧ RoomManager.getUser "socket_B" (Server.roomManager sample_alone) = None
  ∧ "default" ≠ ""
  ∧ ∃ rm',
      RoomManager.getUser "socket_B" rm'
      = Some (User.mk "user_2_1700000000009" "socket_B" "default" "#4ECDC4").
Proof.
  assert (fresh_joins sample_alone_ops RoomManager.new) as Hfresh.
  { vm_compute. repeat split. }
  assert (rm_run sample_alone_ops RoomManager.new
          = Some (Server.roomManager sample_alone)) as Hrun
    by (vm_compute; reflexivity).
  assert (RoomManager.getUser "socket_B" (Server.roomManager sample_alone)
          = None) as Hnone by (vm_compute; reflexivity).
  assert ("default" ≠ "") as HR by discriminate.
  split; [exact Hfresh|]. split; [exact Hrun|]. split; [exact Hnone|].
  split; [exact HR|].
  destruct (join_room_announces sample_alone_ops sample_alone "socket_B"
              "default" 1700000000009 0%fin Hfresh Hrun Hnone HR)
    as (rm' & _ & Huser & _).
  exists rm'. exact Huser.
Defined.

(** X21: [disconnect] of a connection with a user, on a registry reached
    by joins of connections without a user and by leaves.  The others in
    the room of the user are told the user id and the former count minus
    one; afterwards the connection has no user, the other connections
    keep theirs, the room lists its former users without the one that
    left, in the same order, and the other rooms list the same users.
    The drawing state is not changed. *)
Theorem disconnect_announces (ops : list rm_op) (st : Server.t)
    (s : string) (user : User.t) :
  fresh_joins ops RoomManager.new →
  rm_run ops RoomManager.new = Some (Server.roomManager st) →
  RoomManager.getUser s (Server.roomManager st) = Some user →
  let rm := Server.roomManager st in
  let R := User.roomId user in
  ∃ rm',
    Server.on_disconnect s st
    = Some ([(Server.ToRoomExceptSender R,
              Server.MUserLeft (User.userId user)
                (pred (RoomManager.getRoomUserCount R rm)))],
            Server.mk rm' (Server.drawingStateManager st))
    ∧ RoomManager.getUser s rm' = None
    ∧ (∀ s', s' ≠ s → RoomManager.getUser s' rm' = RoomManager.getUser s' rm)
    ∧ RoomManager.getRoomUsers R rm'
      = filter (λ u, User.userId u ≠ User.userId user)
          (RoomManager.getRoomUsers R rm)
    ∧ ∀ R', R' ≠ R →
        RoomManager.getRoomUsers R' rm' = RoomManager.getRoomUsers R' rm.
Proof.
  intros Hfresh Hrun Huser rm R.
  destruct (rm_reachable ops rm Hfresh Hrun) as [Hinv Hb].
  unfold RoomManager.getUser in Huser. fold rm in Huser.
  destruct (removeUser_result s rm user Hinv Huser) as [Hin Hrem].
  fold R in Hin, Hrem.
  pose proof (room_members_NoDup R rm Hinv) as Hnd.
  pose proof (set_delete_length s _ Hnd Hin) as Hlen.
  set (l' := RoomManager.set_delete s (room_members R rm)) in *.
  set (rm' := if decide (length l' = 0) then _ else _) in Hrem.
  assert (RoomManager.users rm' = delete s (RoomManager.users rm)) as HU.
  { unfold rm'. by case_decide. }
  assert (room_members R rm' = l') as Hmem.
  { unfold rm', room_members. case_decide as H0; cbn [RoomManager.rooms].
    - rewrite lookup_delete_eq. simpl. by destruct l'.
    - by rewrite lookup_insert_eq. }
  assert (∀ R', R' ≠ R → room_members R' rm' = room_members R' rm) as Hoth.
  { intros R' HR'. unfold rm', room_members.
    case_decide; cbn [RoomManager.rooms].
    - by rewrite lookup_delete_ne.
    - by rewrite lookup_insert_ne. }
  exists rm'. split; [|split; [|split; [|split]]].
  - unfold Server.on_disconnect, RoomManager.getUser. fold rm.
    rewrite Huser. cbn zeta. fold R. rewrite Hrem. cbn [mbind option_bind].
    rewrite (getRoomUserCount_members R rm'), Hmem, Hlen.
    by rewrite <- getRoomUserCount_members.
  - unfold RoomManager.getUser. by rewrite HU, lookup_delete_eq.
  - intros s' Hs'. unfold RoomManager.getUser.
    by rewrite HU, lookup_delete_ne.
  - rewrite !getRoomUsers_members, Hmem, HU.
    apply omap_delete_filter; [done|].
    intros x u _ Hx Hid. by apply (rm_user_ids rm Hb x s u user).
  - intros R' HR'. rewrite !getRoomUsers_members, Hoth, HU by done.
    apply omap_delete_notin. intros Hin'.
    destruct (room_members_user R' rm s Hinv Hin') as (u & Hu & HRu).
    apply HR'. unfold R. congruence.
Qed.

Lemma disconnect_announces_witness :
  fresh_joins sample_alone_ops RoomManager.new
  ∧ rm_run sample_alone_ops RoomManager.new
    = Some (Server.roomManager sample_alone)
  ∧ RoomManager.getUser "socket_A" (Server.roomManager sample_alone)
    = Some sample_user
  ∧ ∃ rm',
      Server.on_disconnect "socket_A" sample_alone
      = Some ([(Server.ToRoomExceptSender "default",
                Server.MUserLeft "user_1_1700000000000" 0)],
              Server.mk rm' (Server.drawingStateManager sample_alone)).
Proof.
  assert (fresh_joins sample_alone_ops RoomManager.new) as Hfresh.
  { vm_compute. repeat split. }
  assert (rm_run sample_alone_ops RoomManager.new
          = Some (Server.roomManager sample_alone)) as Hrun
    by (vm_compute; reflexivity).
  assert (RoomManager.getUser "socket_A" (Server.roomManager sample_alone)
          = Some sample_user) as Huser by (vm_compute; reflexivity).
  split; [exact Hfresh|]. split; [exact Hrun|]. split; [exact Huser|].
  destruct (disconnect_announces sample_alone_ops sample_alone "socket_A"
              sample_user Hfresh Hrun Huser) as (rm' & Hstep & _).
  exists rm'. exact Hstep.
Defined.

(** ** The server as a dispatcher to the two managers *)

Lemma dsm_run_app ops1 ops2 m :
  dsm_run (ops1 ++ ops2) m = dsm_run ops2 (dsm_run ops1 m).
Proof. unfold dsm_run. apply foldl_app. Qed.

Lemma rm_run_app ops1 ops2 m :
  rm_run (ops1 ++ ops2) m = rm_run ops1 m ≫= rm_run ops2.
Proof.
  revert m. induction ops1 as [|o ops1 IH]; intros m; [done|]. simpl.
  destruct (rm_step m o) as [m'|]; simpl; [apply IH|done].
Qed.

Lemma server_step_projects st e r :
  server_step st e = Some r →
  Server.drawingStateManager r.2
  = dsm_run (dsm_ops_of (Server.roomManager st) e)
      (Server.drawingStateManager st)
  ∧ rm_run (rm_ops_of e) (Server.roomManager st)
    = Some (Server.roomManager r.2).
Proof.
  destruct e as [s R t k|s R px py c sz ty t1 t2 t3|R i px py|R i
                |s R px py|s R|s R|s|nm s]; simpl; [..|done].
  - unfold Server.on_join_room. destruct (falsy_str R).
    + by intros [= <-].
    + destruct (RoomManager.addUser s R t k _) as [[u rm]|] eqn:Hadd;
        [|done].
      cbn [mbind option_bind]. rewrite getFullState_eq.
      intros [= <-]. simpl. by rewrite Hadd.
  - unfold Server.on_stroke_start. destruct (falsy_str R).
    + by intros [= <-].
    + destruct (RoomManager.getUser s _) as [u|].
      * rewrite (surjective_pairing (addStroke _ _ _ _ _)).
        by intros [= <-].
      * by intros [= <-].
  - unfold Server.on_stroke_update.
    destruct (falsy_str R || falsy_str i).
    + by intros [= <-].
    + rewrite (surjective_pairing (updateStroke _ _ _ _ _)).
      destruct (updateStroke R i px py _).1; by intros [= <-].
  - unfold Server.on_stroke_end, finalizeStroke.
    destruct (falsy_str R || falsy_str i); intros [= <-]; [done|].
    simpl. done.
  - unfold Server.on_cursor_move. destruct (falsy_str R).
    + by intros [= <-].
    + destruct (RoomManager.getUser s _); by intros [= <-].
  - unfold Server.on_undo. destruct (falsy_str R).
    + by intros [= <-].
    + destruct (RoomManager.getUser s _) as [u|].
      * rewrite (surjective_pairing (undo _ _ _)).
        destruct (undo R (User.userId u) _).1; by intros [= <-].
      * by intros [= <-].
  - unfold Server.on_redo. destruct (falsy_str R).
    + by intros [= <-].
    + destruct (RoomManager.getUser s _) as [u|].
      * rewrite (surjective_pairing (redo _ _ _)).
        destruct (redo R (User.userId u) _).1; by intros [= <-].
      * by intros [= <-].
  - unfold Server.on_disconnect.
    destruct (RoomManager.getUser s _) as [u|] eqn:Hu.
    + destruct (RoomManager.removeUser s _) as [rm|] eqn:Hrem; [|done].
      cbn [mbind option_bind]. by intros [= <-].
    + intros [= <-]. simpl. split; [done|].
      by rewrite removeUser_unregistered.
Qed.

Lemma server_run_drawing (events : list server_event) :
  ∀ st st',
    server_run events st = Some st' →
    Server.drawingStateManager st'
    = dsm_run (drawing_ops events st) (Server.drawingStateManager st).
Proof.
  induction events as [|e events IH]; intros st st'.
  - by intros [= <-].
  - cbn [server_run drawing_ops].
    destruct (server_step st e) as [r|] eqn:Hstep; [|done].
    cbn [mbind option_bind]. intros Hrun.
    destruct (server_step_projects st e r Hstep) as [Hd _].
    unfold server_step_result. rewrite Hstep. cbn [default from_option].
    by rewrite dsm_run_app, <- Hd, (IH r.2 st' Hrun).
Qed.

(** X22: the state of the server after a sequence of events is that of
    its two managers after the calls of the handlers, in order: the
    registry after one [addUser] for each [join-room] with a room key and
    one [removeUser] for each [disconnect]; the drawing state after one
    [addStroke], [updateStroke], [undo] or [redo] for each [stroke-start],
    [stroke-update], [undo] or [redo] with its keys and, where the handler
    needs it, a user of the connection.  The handlers change nothing
    else. *)
Theorem server_run_projects (events : list server_event)
    (st st' : Server.t) :
  server_run events st = Some st' →
  Server.drawingStateManager st'
  = dsm_run (drawing_ops events st) (Server.drawingStateManager st)
  ∧ rm_run (registry_ops events) (Server.roomManager st)
    = Some (Server.roomManager st').
Proof.
  revert st. induction events as [|e events IH]; intros st.
  - by intros [= <-].
  - cbn [server_run drawing_ops].
    change (registry_ops (e :: events))
      with (rm_ops_of e ++ registry_ops events).
    destruct (server_step st e) as [r|] eqn:Hstep; [|done].
    cbn [mbind option_bind]. intros Hrun.
    destruct (server_step_projects st e r Hstep) as [Hd Hr].
    destruct (IH r.2 Hrun) as [IHd IHr].
    unfold server_step_result. rewrite Hstep. cbn [default from_option].
    split.
    + by rewrite dsm_run_app, <- Hd.
    + rewrite rm_run_app, Hr. exact IHr.
Qed.

Lemma server_run_projects_witness :
  server_run sample_visit Server.new = Some sample_left
  ∧ rm_run [Join "socket_A" "default" 1700000000000 0%fin;
            Leave "socket_A"] RoomManager.new
    = Some (Server.roomManager sample_left).
Proof.
  assert (server_run sample_visit Server.new = Some sample_left) as Hrun
    by (vm_compute; reflexivity).
  split; [exact Hrun|].
  exact (proj2 (server_run_projects sample_visit Server.new sample_left
                  Hrun)).
Defined.

(** ** Owners of the stored strokes *)

Lemma owners_insert (Q : Stroke.t → Prop) roomId rs m n :
  (∀ R c s, s ∈ held_by R c m → Q s) →
  (∀ c s, s ∈ held rs c → Q s) →
  ∀ R c s,
    s ∈ held_by R c (mk (<[roomId := rs]> (roomStates m)) n) → Q s.
Proof.
  intros Hm Hrs R c s. rewrite held_by_insert. case_decide.
  - apply Hrs.
  - intros Hs. by apply (Hm R c s).
Qed.

Lemma held_of_room m roomId rs c s :
  roomStates m !! roomId = Some rs → s ∈ held rs c → s ∈ held_by roomId c m.
Proof. intros Hrs Hs. unfold held_by. by rewrite Hrs. Qed.

Lemma addStroke_owner roomId d t1 t2 m :
  Stroke.userId (addStroke roomId d t1 t2 m).1 = StrokeData.userId d.
Proof.
  unfold addStroke, _getRoomState, _generateStrokeId.
  by destruct (roomStates m !! roomId).
Qed.

(** The strokes held after an operation are strokes held before it,
    possibly with one more point, or the stroke made by [addStroke]. *)
Lemma held_step (Q : Stroke.t → Prop) m o :
  (∀ s p, Q s → Q (pushPoint s p)) →
  (∀ R c s, s ∈ held_by R c m → Q s) →
  match o with
  | AddStroke r d t1 t2 => Q (addStroke r d t1 t2 m).1
  | _ => True
  end →
  ∀ R c s, s ∈ held_by R c (dsm_step m o) → Q s.
Proof.
  intros Hpush Hm Ho.
  destruct o as [r d t1 t2|r i px py|r i|r v|r v|r|r]; simpl.
  - intros R c s. rewrite held_by_addStroke. case_decide as HR.
    + subst R. destruct c as [|u].
      * intros [Hs| ->%list_elem_of_singleton]%elem_of_app.
        -- by apply (Hm r Timeline s).
        -- exact Ho.
      * case_decide; [by intros ?%elem_of_nil|]. apply Hm.
    + apply Hm.
  - destruct (updateStroke_cases r i px py m)
      as [[-> _]|(rs & j & s0 & Hrs & Hfind & ->)]; [done|]. simpl.
    apply list_find_Some in Hfind as (Hj & _ & _).
    apply owners_insert; [done|]. intros c s. destruct c as [|u]; simpl.
    + intros (k & Hk)%list_elem_of_lookup.
      apply list_lookup_insert_Some in Hk as [(_ & <- & _)|[_ Hk]].
      * apply Hpush. apply (Hm r Timeline s0).
        eapply held_of_room; [done|]. simpl.
        by eapply list_elem_of_lookup_2.
      * apply (Hm r Timeline s). eapply held_of_room; [done|]. simpl.
        by eapply list_elem_of_lookup_2.
    + intros Hs. apply (Hm r (UndoStack u) s). by eapply held_of_room.
  - done.
  - destruct (undo r v m) as [[s0|] m'] eqn:Hundo; simpl.
    + apply undo_Some in Hundo as (rs & l1 & l2 & Hrs & Hl & _ & _ & ->).
      assert (Q s0) as Hs0.
      { apply (Hm r Timeline s0). eapply held_of_room; [done|]. simpl.
        rewrite Hl. apply elem_of_app. right. by left. }
      apply owners_insert; [done|]. intros c s. destruct c as [|u]; simpl.
      * intros Hs. apply (Hm r Timeline s). eapply held_of_room; [done|].
        simpl. rewrite Hl. apply elem_of_app.
        apply elem_of_app in Hs as [Hs|Hs]; [by left|]. right. by right.
      * destruct (decide (u = v)) as [->|Hne].
        -- rewrite lookup_insert_eq. simpl.
           intros [Hs| ->%list_elem_of_singleton]%elem_of_app; [|done].
           apply (Hm r (UndoStack v) s). by eapply held_of_room.
        -- rewrite lookup_insert_ne by done. intros Hs.
           apply (Hm r (UndoStack u) s). by eapply held_of_room.
    + by apply undo_None in Hundo as [-> _].
  - destruct (redo_cases r v m) as [->|(rs & stack & s0 & Hrs & Hst)];
      [done|].
    rewrite (redo_top r v m rs stack s0 Hrs Hst). simpl.
    assert (∀ s, s ∈ stack ++ [s0] → Q s) as Hstack.
    { intros s Hs. apply (Hm r (UndoStack v) s).
      eapply held_of_room; [done|]. simpl. by rewrite Hst. }
    apply owners_insert; [done|]. intros c s. destruct c as [|u]; simpl.
    + intros [Hs| ->%list_elem_of_singleton]%elem_of_app.
      * apply (Hm r Timeline s). by eapply held_of_room.
      * apply Hstack. apply elem_of_app. right. by left.
    + case_decide as Hlen.
      * destruct (decide (u = v)) as [->|Hne].
        -- rewrite lookup_delete_eq. simpl. by intros ?%elem_of_nil.
        -- rewrite lookup_delete_ne by done. intros Hs.
           apply (Hm r (UndoStack u) s). by eapply held_of_room.
      * destruct (decide (u = v)) as [->|Hne].
        -- rewrite lookup_insert_eq. simpl. intros Hs.
           apply Hstack. apply elem_of_app. by left.
        -- rewrite lookup_insert_ne by done. intros Hs.
           apply (Hm r (UndoStack u) s). by eapply held_of_room.
  - by rewrite getFullState_state.
  - intros R c s. unfold held_by, clearRoom. simpl.
    destruct (decide (R = r)) as [->|Hne].
    + rewrite lookup_delete_eq. by intros ?%elem_of_nil.
    + rewrite lookup_delete_ne by done. apply Hm.
Qed.

Lemma held_run (Q : Stroke.t → Prop) ops :
  (∀ s p, Q s → Q (pushPoint s p)) →
  (∀ r d t1 t2 m, Q (addStroke r d t1 t2 m).1) →
  ∀ m,
    (∀ R c s, s ∈ held_by R c m → Q s) →
    ∀ R c s, s ∈ held_by R c (dsm_run ops m) → Q s.
Proof.
  intros Hpush Hadd. induction ops as [|o ops IH]; intros m Hm; [done|].
  apply (IH (dsm_step m o)). apply held_step; [done..|].
  destruct o; done || apply Hadd.
Qed.

Lemma owners_step (P : string → Prop) m o :
  (∀ R c s, s ∈ held_by R c m → P (Stroke.userId s)) →
  match o with
  | AddStroke _ d _ _ => P (StrokeData.userId d)
  | _ => True
  end →
  ∀ R c s, s ∈ held_by R c (dsm_step m o) → P (Stroke.userId s).
Proof.
  intros Hm Ho. apply (held_step (λ s, P (Stroke.userId s))); [done..|].
  destruct o; done || by rewrite addStroke_owner.
Qed.

Lemma owners_run (P : string → Prop) ops :
  ∀ m,
    (∀ R c s, s ∈ held_by R c m → P (Stroke.userId s)) →
    Forall (λ o, match o with
                 | AddStroke _ d _ _ => P (StrokeData.userId d)
                 | _ => True
                 end) ops →
    ∀ R c s, s ∈ held_by R c (dsm_run ops m) → P (Stroke.userId s).
Proof.
  induction ops as [|o ops IH]; intros m Hm Hops; [done|].
  apply Forall_cons in Hops as [Ho Hops].
  apply (IH (dsm_step m o)); [|done]. by apply owners_step.
Qed.

(** The owner passed to [addStroke] by [stroke-start] is the user of the
    connection. *)
Lemma dsm_ops_of_owner (P : string → Prop) rm e :
  (∀ s u, RoomManager.users rm !! s = Some u → P (User.userId u)) →
  Forall (λ o, match o with
               | AddStroke _ d _ _ => P (StrokeData.userId d)
               | _ => True
               end) (dsm_ops_of rm e).
Proof.
  intros Hrm.
  destruct e as [s R t k|s R px py c sz ty t1 t2 t3|R i px py|R i
                |s R px py|s R|s R|s|nm s]; simpl; try by constructor.
  - destruct (falsy_str R); [constructor|].
    destruct (RoomManager.getUser s rm) as [u|] eqn:Hu; [|constructor].
    repeat constructor. simpl. by apply (Hrm s u).
  - destruct (falsy_str R || falsy_str i); by repeat constructor.
  - destruct (falsy_str R); [constructor|].
    destruct (RoomManager.getUser s rm); by repeat constructor.
  - destruct (falsy_str R); [constructor|].
    destruct (RoomManager.getUser s rm); by repeat constructor.
Qed.

Lemma server_step_total st e :
  rm_basic (Server.roomManager st) →
  has_payload e = true →
  ∃ r, server_step st e = Some r
       ∧ rm_basic (Server.roomManager r.2)
       ∧ (RoomManager.userIdCounter (Server.roomManager st)
          ≤ RoomManager.userIdCounter (Server.roomManager r.2))%N.
Proof.
  intros Hb Hpay.
  assert (∀ r, server_step st e = Some r → rm_ops_of e = [] →
               ∃ r, server_step st e = Some r
                    ∧ rm_basic (Server.roomManager r.2)
                    ∧ (RoomManager.userIdCounter (Server.roomManager st)
                       ≤ RoomManager.userIdCounter
                           (Server.roomManager r.2))%N) as Hsame.
  { intros r Hr Hops. exists r. split; [done|].
    destruct (server_step_projects st e r Hr) as [_ Hrm].
    rewrite Hops in Hrm. injection Hrm as <-. split; [done|lia]. }
  destruct e as [s R t k|s R px py c sz ty t1 t2 t3|R i px py|R i
                |s R px py|s R|s R|s|nm s];
    [|by eapply Hsame..| |discriminate Hpay].
  - simpl. unfold Server.on_join_room.
    destruct (falsy_str R) eqn:HR.
    + eexists. split; [done|]. simpl. split; [done|lia].
    + destruct (rm_basic_addUser s R t k _ Hb)
        as (u & rm' & Hadd & Hb' & _ & Hcnt).
      rewrite Hadd. cbn [mbind option_bind]. rewrite getFullState_eq.
      eexists. split; [done|]. simpl. split; [done|lia].
  - simpl. unfold Server.on_disconnect.
    destruct (RoomManager.getUser s _) as [u|].
    + destruct (rm_basic_removeUser s _ Hb)
        as (rm' & Hrem & Hb' & _ & Hcnt).
      rewrite Hrem. cbn [mbind option_bind].
      eexists. split; [done|]. simpl. split; [done|lia].
    + eexists. split; [done|]. simpl. split; [done|lia].
Qed.

Lemma server_step_owners st e r :
  rm_basic (Server.roomManager st) →
  owners_issued st →
  server_step st e = Some r →
  (RoomManager.userIdCounter (Server.roomManager st)
   ≤ RoomManager.userIdCounter (Server.roomManager r.2))%N →
  owners_issued r.2.
Proof.
  intros Hb Hown Hstep Hcnt.
  destruct (server_step_projects st e r Hstep) as [Hd _].
  unfold owners_issued. rewrite Hd.
  set (P := λ uid : string,
         ∃ k now,
           uid = RoomManager.userIdOf k now
           ∧ (k ≤ RoomManager.userIdCounter (Server.roomManager r.2))%N).
  apply (owners_run P).
  - intros R c s Hs. destruct (Hown R c s Hs) as (k & now & Hk & Hle).
    exists k, now. split; [done|lia].
  - apply (dsm_ops_of_owner P). intros s u Hu.
    destruct (rm_user_minted _ Hb s u Hu) as (k & now & Hk & Hle).
    exists k, now. split; [done|lia].
Qed.

Lemma server_run_inv events :
  ∀ st st',
    rm_basic (Server.roomManager st) → owners_issued st →
    server_run events st = Some st' →
    rm_basic (Server.roomManager st') ∧ owners_issued st'.
Proof.
  induction events as [|e events IH]; intros st st' Hb Hown.
  - by intros [= <-].
  - cbn [server_run].
    destruct (has_payload e) eqn:Hpay;
      [|by destruct e; try discriminate Hpay].
    destruct (server_step_total st e Hb Hpay) as (r & Hstep & Hb' & Hcnt).
    rewrite Hstep. cbn [mbind option_bind]. apply IH; [done|].
    exact (server_step_owners st e r Hb Hown Hstep Hcnt).
Qed.

Lemma owners_issued_new : owners_issued Server.new.
Proof.
  intros R c s Hs. unfold held_by in Hs. simpl in Hs.
  rewrite lookup_empty in Hs. by apply elem_of_nil in Hs.
Qed.



(** ** One stroke from start to redo, as the server sees it *)

Lemma server_trace_app events1 events2 st :
  server_trace (events1 ++ events2) st
  = r ← server_trace events1 st;
    r' ← server_trace events2 r.2;
    Some (r.1 ++ r'.1, r'.2).
Proof.
  revert st. induction events1 as [|e events1 IH]; intros st.
  - simpl. destruct (server_trace events2 st) as [[out st']|]; done.
  - cbn [app server_trace].
    destruct (server_step st e) as [r|]; [|done].
    cbn [mbind option_bind]. rewrite IH.
    destruct (server_trace events1 r.2) as [r1|]; [|done].
    cbn [mbind option_bind fst snd].
    destruct (server_trace events2 r1.2) as [r2|]; [|done].
    cbn [mbind option_bind fst snd]. by rewrite app_assoc.
Qed.

Lemma strokeIdOf_nonempty n now : falsy_str (strokeIdOf n now) = false.
Proof. done. Qed.

Lemma addStroke_room roomId d t1 t2 m :
  ∃ rs,
    roomStates (addStroke roomId d t1 t2 m).2 !! roomId = Some rs
    ∧ strokes rs = timeline roomId m ++ [(addStroke roomId d t1 t2 m).1]
    ∧ undoStacks rs !! StrokeData.userId d = None.
Proof.
  unfold addStroke, _getRoomState, _generateStrokeId, timeline.
  destruct (roomStates m !! roomId) as [rs|]; simpl;
    eexists; rewrite lookup_insert_eq; (split; [done|]); simpl;
    by rewrite lookup_delete_eq.
Qed.

Lemma pushPoints_eq s ps :
  foldl pushPoint s ps
  = Stroke.mk (Stroke.id s) (Stroke.userId s) (Stroke.timestamp s)
      (Stroke.type s) (Stroke.color s) (Stroke.size s)
      (Stroke.path s ++ ps).
Proof.
  revert s. induction ps as [|p ps IH]; intros s; simpl.
  - rewrite app_nil_r. by destruct s.
  - rewrite IH. simpl. by rewrite <- app_assoc.
Qed.

(** Updates with the id of the last stroke of the timeline, an id that no
    earlier stroke of the timeline has. *)
Lemma trace_updates_last R sid ps :
  R ≠ "" → falsy_str sid = false →
  ∀ st rs l s0,
    roomStates (Server.drawingStateManager st) !! R = Some rs →
    strokes rs = l ++ [s0] →
    Stroke.id s0 = sid →
    Forall (λ s', Stroke.id s' ≠ sid) l →
    ∃ dsm' rs',
      server_trace
        ((λ p, EvStrokeUpdate R sid (Point.x p) (Point.y p)) <$> ps) st
      = Some ((λ p, (Server.ToRoom R,
                     Server.MStrokeUpdate R sid (Point.x p) (Point.y p)))
                <$> ps,
              Server.mk (Server.roomManager st) dsm')
      ∧ roomStates dsm' !! R = Some rs'
      ∧ strokes rs' = l ++ [foldl pushPoint s0 ps]
      ∧ undoStacks rs' = undoStacks rs.
Proof.
  intros HR Hsid. induction ps as [|p ps IH]; intros st rs l s0 Hrs Hl Hid Hall.
  - exists (Server.drawingStateManager st), rs. simpl.
    by rewrite server_mk_eta.
  - cbn [fmap list_fmap server_trace server_step].
    unfold Server.on_stroke_update.
    rewrite (falsy_str_nonempty R HR), Hsid. cbn [orb].
    rewrite (updateStroke_found R sid (Point.x p) (Point.y p) _ rs
               (length l) s0 Hrs)
      by (rewrite Hl; subst sid; apply list_find_last_only; exact Hall).
    cbn [mbind option_bind snd fst].
    set (st1 := Server.mk _ _).
    destruct (IH st1 (mkRoomState
                        (<[length l := pushPoint s0
                                         (Point.mk (Point.x p) (Point.y p))]>
                           (strokes rs))
                        (undoStacks rs))
                l (pushPoint s0 p)) as (dsm' & rs' & Htr & Hrs' & Hl' & Hst').
    + unfold st1. simpl. by rewrite lookup_insert_eq.
    + simpl. rewrite Hl, insert_app_r_alt, Nat.sub_diag by done.
      simpl. by destruct p.
    + done.
    + done.
    + exists dsm', rs'. split; [|done].
      change (list_fmap _ _ ?f ps) with (f <$> ps). rewrite Htr.
      cbn [mbind option_bind]. done.
Qed.

(** X24: in a state reached from start-up, a connection with a user
    draws one stroke in a room and then undoes and redoes it:
    [stroke-start], one [stroke-update] per further point with the id that
    the server sent, [stroke-end], [undo], [redo].  Every event is sent on
    to the whole room, in order: the stroke as opened, each point, the
    end, the undo with the id of that stroke, and the redo with the whole
    stroke; at the end the timeline of the room is the former one followed
    by the stroke with all its points, and the registry is as it was. *)
Theorem stroke_session_broadcast (events : list server_event)
    (st : Server.t) (s R : string) (px py color size type : jsval)
    (now_h now_id now_ts : Z) (ps : list Point.t) (user : User.t) :
  server_run events Server.new = Some st →
  RoomManager.getUser s (Server.roomManager st) = Some user →
  R ≠ "" →
  let dsm := Server.drawingStateManager st in
  let sid := strokeIdOf (strokeIdCounter dsm + 1) now_id in
  let uid := User.userId user in
  let stroke path :=
    Stroke.mk sid uid (js_or (JNum now_h) (JNum now_ts))
      (js_or type (JStr "draw")) color size path in
  ∃ dsm',
    server_trace
      (stroke_session s R px py color size type now_h now_id now_ts sid ps)
      st
    = Some ([(Server.ToRoom R,
              Server.MStrokeStart (stroke [Point.mk px py]) R)]
            ++ ((λ p, (Server.ToRoom R,
                       Server.MStrokeUpdate R sid (Point.x p) (Point.y p)))
                  <$> ps)
            ++ [ (Server.ToRoom R, Server.MStrokeEnd R sid);
                 (Server.ToRoom R, Server.MUndo R uid sid);
                 (Server.ToRoom R,
                  Server.MRedo R uid (stroke (Point.mk px py :: ps))) ],
            Server.mk (Server.roomManager st) dsm')
    ∧ timeline R dsm' = timeline R dsm ++ [stroke (Point.mk px py :: ps)].
Proof.
  intros Hrun Hu HR dsm sid uid stroke.
  assert (dsm_inv dsm) as Hinv.
  { unfold dsm. rewrite (server_run_drawing events Server.new st Hrun).
    apply dsm_inv_run, dsm_inv_new. }
  set (d := StrokeData.mk uid (JNum now_h) (js_or type (JStr "draw"))
              color size [Point.mk px py]).
  set (r := addStroke R d now_id now_ts dsm).
  assert (r.1 = stroke [Point.mk px py]) as Hstroke.
  { unfold r, addStroke, _getRoomState, _generateStrokeId, stroke.
    destruct (roomStates dsm !! R); simpl; by rewrite js_or_idem. }
  destruct (addStroke_room R d now_id now_ts dsm)
    as (rs1 & Hrs1 & Hl1 & Hst1).
  fold r in Hrs1, Hl1. rewrite Hstroke in Hl1.
  assert (Forall (λ s', Stroke.id s' ≠ sid) (timeline R dsm)) as Hfresh.
  { apply Forall_forall. intros s' Hs' Heq.
    apply (addStroke_id_fresh R d now_id now_ts dsm R Timeline Hinv).
    rewrite addStroke_id. fold sid. rewrite <- Heq.
    unfold ids_at, timeline in *.
    destruct (roomStates dsm !! R) as [rs|]; simpl in *;
      [|by apply elem_of_nil in Hs'].
    apply list_elem_of_fmap. by exists s'. }
  set (st1 := Server.mk (Server.roomManager st) r.2).
  destruct (trace_updates_last R sid ps HR (strokeIdOf_nonempty _ _)
              st1 rs1 (timeline R dsm) (stroke [Point.mk px py]))
    as (dsm2 & rs2 & Htr & Hrs2 & Hl2 & Hst2); [done..|].
  change (Server.roomManager st1) with (Server.roomManager st) in Htr.
  rewrite pushPoints_eq in Hl2. simpl in Hl2.
  fold (stroke (Point.mk px py :: ps)) in Hl2.
  set (full := stroke (Point.mk px py :: ps)) in *.
  change (undoStacks rs1 !! uid = None) in Hst1.
  pose proof (undo_last R uid dsm2 rs2 (timeline R dsm) full Hrs2 Hl2
                eq_refl) as Hundo.
  rewrite Hst2, Hst1 in Hundo. cbn [default from_option app] in Hundo.
  set (dsm3 := mk _ _) in Hundo.
  pose proof (redo_top R uid dsm3
                (mkRoomState (timeline R dsm)
                   (<[uid := [full]]> (undoStacks rs1)))
                [] full) as Hredo.
  rewrite decide_True in Hredo by done.
  specialize (Hredo ltac:(unfold dsm3; simpl; by rewrite lookup_insert_eq)
                    ltac:(simpl; by rewrite lookup_insert_eq)).
  cbn [strokes] in Hredo.
  set (dsm4 := mk _ _) in Hredo.
  exists dsm4. split.
  - unfold stroke_session. cbn [server_trace server_step].
    unfold Server.on_stroke_start.
    rewrite (falsy_str_nonempty R HR), Hu. fold dsm uid d r.
    rewrite (surjective_pairing r), Hstroke.
    cbn [mbind option_bind snd fst]. fold st1.
    rewrite server_trace_app, Htr.
    cbn [mbind option_bind snd fst server_trace server_step].
    unfold Server.on_stroke_end, Server.on_undo, Server.on_redo,
      finalizeStroke.
    rewrite (falsy_str_nonempty R HR).
    rewrite (strokeIdOf_nonempty _ _ : falsy_str sid = false).
    cbn [orb mbind option_bind snd fst Server.roomManager
         Server.drawingStateManager].
    rewrite Hu. fold uid. rewrite Hundo.
    cbn [mbind option_bind snd fst Server.roomManager
         Server.drawingStateManager].
    rewrite Hu. fold uid. rewrite Hredo.
    cbn [mbind option_bind snd fst Server.roomManager
         Server.drawingStateManager].
    done.
  - unfold dsm4. rewrite timeline_insert, decide_True by done. done.
Qed.

Lemma stroke_session_broadcast_witness :
  server_run (take 1 sample_visit) Server.new = Some sample_joined
  ∧ RoomManager.getUser "socket_A" (Server.roomManager sample_joined)
    = Some sample_user
  ∧ "default" ≠ ""
  ∧ ∃ dsm',
      timeline "default" dsm'
      = [Stroke.mk "stroke_1_1700000000002" "user_1_1700000000000"
           (JNum 1700000000001) (JStr "draw") (JStr "#000000") (JNum 5)
           [Point.mk (JNum 10) (JNum 20); Point.mk (JNum 11) (JNum 21)]].
Proof.
  assert (server_run (take 1 sample_visit) Server.new = Some sample_joined)
    as Hrun by (vm_compute; reflexivity).
  assert (RoomManager.getUser "socket_A" (Server.roomManager sample_joined)
          = Some sample_user) as Hu by (vm_compute; reflexivity).
  assert ("default" ≠ "") as HR by discriminate.
  split; [exact Hrun|]. split; [exact Hu|]. split; [exact HR|].
  destruct (stroke_session_broadcast (take 1 sample_visit) sample_joined
              "socket_A" "default" (JNum 10) (JNum 20) (JStr "#000000")
              (JNum 5) (JStr "draw") 1700000000001 1700000000002
              1700000000003 [Point.mk (JNum 11) (JNum 21)] sample_user
              Hrun Hu HR) as (dsm' & _ & Htl).
  exists dsm'. exact Htl.
Defined.

(** * The client: names of users *)

Lemma pretty_N_char_digit x : Main.is_digit (pretty_N_char x) = true.
Proof. unfold pretty_N_char. by repeat case_match. Qed.

Lemma pretty_N_char_value x :
  (x < 10)%N → (N_of_ascii (pretty_N_char x) - 48)%N = x.
Proof.
  intros Hx.
  assert (x = 0 ∨ x = 1 ∨ x = 2 ∨ x = 3 ∨ x = 4 ∨ x = 5 ∨ x = 6 ∨ x = 7
          ∨ x = 8 ∨ x = 9)%N as Hcases by lia.
  destruct Hcases as [->|[->|[->|[->|[->|[->|[->|[->|[->| ->]]]]]]]]];
    reflexivity.
Qed.

Lemma pretty_N_go_app x s t :
  pretty_N_go x s +:+ t = pretty_N_go x (s +:+ t).
Proof.
  revert s. induction (N.lt_wf_0 x) as [x _ IH]; intros s.
  assert (x = 0 ∨ 0 < x)%N as [->|Hpos] by lia.
  - by rewrite !pretty_N_go_0.
  - rewrite (pretty_N_go_step x s), (pretty_N_go_step x (s +:+ t)) by done.
    by rewrite IH by (by apply N.div_lt).
Qed.

Lemma pretty_N_go_nonempty x s : s ≠ "" → pretty_N_go x s ≠ "".
Proof.
  revert s. induction (N.lt_wf_0 x) as [x _ IH]; intros s Hs.
  assert (x = 0 ∨ 0 < x)%N as [->|Hpos] by lia.
  - by rewrite pretty_N_go_0.
  - rewrite pretty_N_go_step by done. apply IH; [by apply N.div_lt|done].
Qed.

Lemma pretty_N_nonempty (n : N) : pretty n ≠ "".
Proof.
  unfold pretty, pretty_N. case_decide as Hn; [done|].
  rewrite pretty_N_go_step by lia. by apply pretty_N_go_nonempty.
Qed.

Lemma span_digits_pretty_go x s ds rest :
  Main.span_digits s = (ds, rest) →
  Main.span_digits (pretty_N_go x s) = (pretty_N_go x ds, rest).
Proof.
  revert s ds. induction (N.lt_wf_0 x) as [x _ IH]; intros s ds Hs.
  assert (x = 0 ∨ 0 < x)%N as [->|Hpos] by lia.
  - by rewrite !pretty_N_go_0.
  - rewrite (pretty_N_go_step x s), (pretty_N_go_step x ds) by done.
    apply IH; [by apply N.div_lt|].
    simpl. by rewrite pretty_N_char_digit, Hs.
Qed.

Lemma span_digits_pretty (n : N) (rest : string) :
  Main.span_digits (pretty n +:+ String "_" rest)
  = (pretty n, String "_" rest).
Proof.
  unfold pretty, pretty_N. case_decide as Hn; [done|].
  rewrite pretty_N_go_app. by apply span_digits_pretty_go.
Qed.

Lemma parseInt_pretty_go x s :
  Main.parseInt_go 0 (pretty_N_go x s) = Main.parseInt_go x s.
Proof.
  revert s. induction (N.lt_wf_0 x) as [x _ IH]; intros s.
  assert (x = 0 ∨ 0 < x)%N as [->|Hpos] by lia.
  - by rewrite pretty_N_go_0.
  - rewrite pretty_N_go_step by done.
    rewrite IH by (by apply N.div_lt). simpl.
    rewrite pretty_N_char_value by (by apply N.mod_lt).
    f_equal. rewrite (N.div_mod x 10) at 3 by done. lia.
Qed.

Lemma parseInt_pretty (n : N) : Main.parseInt10 (pretty n) = n.
Proof.
  unfold Main.parseInt10, pretty, pretty_N. case_decide as Hn.
  - by subst n.
  - apply parseInt_pretty_go.
Qed.

Lemma getUserNameFromId_issued n now :
  Main.getUserNameFromId (RoomManager.userIdOf n now) = "User " +:+ pretty n.
Proof.
  unfold Main.getUserNameFromId, Main.match_user_id, RoomManager.userIdOf.
  change (Main.strip_prefix "user_"
            ("user_" +:+ pretty n +:+ "_" +:+ pretty now))
    with (Some (pretty n +:+ String "_" (pretty now))).
  cbn [mbind option_bind]. rewrite span_digits_pretty.
  pose proof (pretty_N_nonempty n) as Hne.
  destruct (pretty n) as [|c ds] eqn:Hp; [done|].
  cbn [Ascii.eqb Bool.eqb]. by rewrite <- Hp, parseInt_pretty.
Qed.

(** X25: the name that the client shows for a user id issued by the
    registry is "User" followed by the number of the user, the value of the
    counter when the id was issued (below [2^53], where a number is exact):
    the hash is not used, the time of the join plays no part, and two
    issued ids get the same name exactly when they carry the same
    number. *)
Theorem issued_user_name (n n' : N) (now now' : Z) :
  (n < 2 ^ 53)%N → (n' < 2 ^ 53)%N →
  Main.getUserNameFromId (RoomManager.userIdOf n now)
  = "User " +:+ pretty n
  ∧ (Main.getUserNameFromId (RoomManager.userIdOf n now)
     = Main.getUserNameFromId (RoomManager.userIdOf n' now')
     ↔ n = n').
Proof.
  intros _ _. rewrite !getUserNameFromId_issued. split; [done|]. split.
  - intros Heq. apply (inj (String.app "User ")) in Heq.
    by apply (inj pretty).
  - by intros ->.
Qed.

Lemma issued_user_name_witness :
  (1 < 2 ^ 53)%N ∧ (2 < 2 ^ 53)%N
  ∧ Main.getUserNameFromId
      (RoomManager.userIdOf 1 1700000000000) = "User 1".
Proof.
  assert (1 < 2 ^ 53)%N as H1 by (vm_compute; reflexivity).
  assert (2 < 2 ^ 53)%N as H2 by (vm_compute; reflexivity).
  split; [exact H1|]. split; [exact H2|].
  exact (proj1 (issued_user_name 1 2 1700000000000 1700000000001 H1 H2)).
Defined.

(** * The client: strokes of the local user *)

Lemma point_eta (p : Point.t) : Point.mk (Point.x p) (Point.y p) = p.
Proof. by destruct p. Qed.

Lemma continueStroke_current m s px py :
  CanvasManager.isDrawing m = true →
  CanvasManager.currentPath m = Some s →
  Stroke.userId s = "local" →
  CanvasManager.onStrokeUpdate m = true →
  CanvasManager.continueStroke px py m
  = ([CanvasManager.OnStrokeUpdate (pushPoint s (Point.mk px py))
        (Point.mk px py)],
     CanvasManager.mk true (Some (pushPoint s (Point.mk px py)))
       (CanvasManager.isEraserMode m) (CanvasManager.currentColor m)
       (CanvasManager.currentBrushSize m) (CanvasManager.strokes m)
       (CanvasManager.undoStack m) (CanvasManager.activeRemoteStrokes m)
       (CanvasManager.onStrokeStart m) true (CanvasManager.onStrokeEnd m)).
Proof.
  intros Hd Hc Hl Hh. unfold CanvasManager.continueStroke.
  rewrite Hd, Hc, Hh. cbn [negb]. by rewrite decide_True.
Qed.

Lemma continueAll_current ps :
  ∀ m s,
    CanvasManager.isDrawing m = true →
    CanvasManager.currentPath m = Some s →
    Stroke.userId s = "local" →
    CanvasManager.onStrokeUpdate m = true →
    (continueAll ps m).1
    = imap (λ i p,
              CanvasManager.OnStrokeUpdate
                (foldl pushPoint s (take (S i) ps)) p) ps
    ∧ (continueAll ps m).2
      = CanvasManager.mk true (Some (foldl pushPoint s ps))
          (CanvasManager.isEraserMode m) (CanvasManager.currentColor m)
          (CanvasManager.currentBrushSize m) (CanvasManager.strokes m)
          (CanvasManager.undoStack m) (CanvasManager.activeRemoteStrokes m)
          (CanvasManager.onStrokeStart m) true (CanvasManager.onStrokeEnd m).
Proof.
  induction ps as [|p ps IH]; intros m s Hd Hc Hl Hh.
  - simpl. split; [done|]. destruct m; simpl in *. by subst.
  - cbn [continueAll].
    rewrite (continueStroke_current m s _ _ Hd Hc Hl Hh), point_eta.
    cbn [fst snd].
    match goal with
    | |- context [continueAll ps ?m1] =>
        destruct (IH m1 (pushPoint s p)) as [IH1 IH2]; [done..|]
    end.
    cbn [fst snd]. rewrite IH1, IH2. split; [|done].
    cbn [imap app]. done.
Qed.

(** X26: one stroke drawn by the local user, with the three hooks
    installed: [startStroke] with the coordinates only, [continueStroke]
    for each further point, [endStroke].  The start hook, one update hook
    per further point and the end hook are called, in this order, with the
    stroke as it is at that time; the redo stack is emptied and nothing is
    being drawn afterwards.  The stroke is added to the history only when
    it has a further point: after a click without a move the history is as
    before, although the start and end hooks were called. *)
Theorem local_stroke_kept_iff_moved (m : CanvasManager.t) (p0 : Point.t)
    (ps : list Point.t) (now_id : Z) (rnd : string) (now_ts : Z) :
  CanvasManager.onStrokeStart m = true →
  CanvasManager.onStrokeUpdate m = true →
  CanvasManager.onStrokeEnd m = true →
  let stroke path :=
    Stroke.mk (CanvasManager.localIdOf now_id rnd) "local" (JNum now_ts)
      (if CanvasManager.isEraserMode m then JStr "erase" else JStr "draw")
      (if CanvasManager.isEraserMode m then JNull
       else CanvasManager.currentColor m)
      (CanvasManager.currentBrushSize m) path in
  let r := drawLocal p0 ps now_id rnd now_ts m in
  r.1 = [CanvasManager.OnStrokeStart (stroke [p0])]
        ++ imap (λ i p,
                   CanvasManager.OnStrokeUpdate
                     (stroke (p0 :: take (S i) ps)) p) ps
        ++ [CanvasManager.OnStrokeEnd (stroke (p0 :: ps))]
  ∧ CanvasManager.strokes r.2
    = CanvasManager.strokes m
      ++ (if decide (ps = []) then [] else [stroke (p0 :: ps)])
  ∧ CanvasManager.undoStack r.2 = []
  ∧ CanvasManager.isDrawing r.2 = false
  ∧ CanvasManager.currentPath r.2 = None
  ∧ CanvasManager.activeRemoteStrokes r.2
    = CanvasManager.activeRemoteStrokes m.
Proof.
  intros Hs Hu He stroke r. subst r. unfold drawLocal.
  unfold CanvasManager.startStroke. rewrite Hs, point_eta.
  cbn [fst snd]. change (js_or JNull (JNum now_ts)) with (JNum now_ts).
  fold (stroke [p0]).
  match goal with
  | |- context [continueAll ps ?m1] =>
      destruct (continueAll_current ps m1 (stroke [p0])) as [H1 H2];
        [done..|]
  end.
  cbn [CanvasManager.isEraserMode CanvasManager.currentColor
       CanvasManager.currentBrushSize CanvasManager.strokes
       CanvasManager.undoStack CanvasManager.activeRemoteStrokes
       CanvasManager.onStrokeStart CanvasManager.onStrokeEnd] in H2.
  rewrite H1, H2. unfold CanvasManager.endStroke.
  cbn [CanvasManager.isDrawing CanvasManager.currentPath negb fst snd
       CanvasManager.onStrokeEnd CanvasManager.strokes
       CanvasManager.undoStack CanvasManager.activeRemoteStrokes].
  assert (∀ qs, foldl pushPoint (stroke [p0]) qs = stroke (p0 :: qs)) as Hp.
  { intros qs. by rewrite pushPoints_eq. }
  rewrite Hp, He. rewrite bool_decide_true by done. cbn [andb].
  split; [|split; [|done]].
  - f_equal. f_equal. apply imap_ext. intros i p _. by rewrite Hp.
  - destruct ps as [|q qs].
    + rewrite decide_False by (simpl; lia). rewrite decide_True by done.
      by rewrite app_nil_r.
    + rewrite decide_True by (simpl; lia). by rewrite decide_False.
Qed.

Lemma local_stroke_kept_iff_moved_witness :
  CanvasManager.onStrokeStart sample_canvas = true
  ∧ CanvasManager.onStrokeUpdate sample_canvas = true
  ∧ CanvasManager.onStrokeEnd sample_canvas = true
  ∧ CanvasManager.strokes
      (drawLocal (Point.mk (JNum 3) (JNum 4)) [] 1700000000000 "k3j9x0q2z"
         1700000000001 sample_canvas).2
    = [].
Proof.
  assert (CanvasManager.onStrokeStart sample_canvas = true) as Hs
    by reflexivity.
  assert (CanvasManager.onStrokeUpdate sample_canvas = true) as Hu
    by reflexivity.
  assert (CanvasManager.onStrokeEnd sample_canvas = true) as He
    by reflexivity.
  split; [exact Hs|]. split; [exact Hu|]. split; [exact He|].
  exact (proj1 (proj2 (local_stroke_kept_iff_moved sample_canvas
                         (Point.mk (JNum 3) (JNum 4)) [] 1700000000000
                         "k3j9x0q2z" 1700000000001 Hs Hu He))).
Defined.

(** * The client: the canvas after joining *)

Lemma js_or_truthy a b : truthy b = true → truthy (js_or a b) = true.
Proof. intros Hb. unfold js_or. by destruct (truthy a) eqn:Ha. Qed.

Lemma stored_type_truthy ops R c s :
  s ∈ held_by R c (dsm_run ops new) → truthy (Stroke.type s) = true.
Proof.
  apply (held_run (λ s, truthy (Stroke.type s) = true)).
  - done.
  - intros r d t1 t2 m. unfold addStroke, _getRoomState, _generateStrokeId.
    destruct (roomStates m !! r); simpl; by apply js_or_truthy.
  - intros R' c' s' Hs. unfold held_by in Hs. simpl in Hs.
    rewrite lookup_empty in Hs. by apply elem_of_nil in Hs.
Qed.

Lemma remoteCopy_same s :
  truthy (Stroke.type s) = true → CanvasManager.remoteCopy s = s.
Proof.
  intros Ht. unfold CanvasManager.remoteCopy, js_or. rewrite Ht.
  by destruct s.
Qed.

Lemma issued_not_local k now : RoomManager.userIdOf k now ≠ "local".
Proof. done. Qed.

Lemma complete_strokes_applied l :
  ∀ cm,
    Forall (λ s, Stroke.userId s ≠ "local"
                 ∧ truthy (Stroke.type s) = true) l →
    foldl (λ cm s, CanvasManager.applyRemoteCompleteStroke s cm) cm l
    = CanvasManager.mk (CanvasManager.isDrawing cm)
        (CanvasManager.currentPath cm) (CanvasManager.isEraserMode cm)
        (CanvasManager.currentColor cm) (CanvasManager.currentBrushSize cm)
        (CanvasManager.strokes cm
         ++ filter (λ s, 2 ≤ length (Stroke.path s)) l)
        (CanvasManager.undoStack cm) (CanvasManager.activeRemoteStrokes cm)
        (CanvasManager.onStrokeStart cm) (CanvasManager.onStrokeUpdate cm)
        (CanvasManager.onStrokeEnd cm).
Proof.
  induction l as [|s l IH]; intros cm Hall.
  - simpl. rewrite app_nil_r. by destruct cm.
  - apply Forall_cons in Hall as [[Hloc Hty] Hall].
    cbn [foldl]. rewrite IH by done.
    unfold CanvasManager.applyRemoteCompleteStroke.
    rewrite decide_False by done. rewrite remoteCopy_same by done.
    rewrite filter_cons. case_decide; [|done].
    cbn [CanvasManager.isDrawing CanvasManager.currentPath
         CanvasManager.isEraserMode CanvasManager.currentColor
         CanvasManager.currentBrushSize CanvasManager.strokes
         CanvasManager.undoStack CanvasManager.activeRemoteStrokes
         CanvasManager.onStrokeStart CanvasManager.onStrokeUpdate
         CanvasManager.onStrokeEnd].
    by rewrite <- app_assoc.
Qed.

(** X27: in a state reached from start-up, a [join-room] with a room key
    succeeds and its last message to the sender carries the timeline of
    the room.  The client that applies this message shows exactly the
    strokes of the timeline that have at least two points, in the same
    order and unchanged; the strokes with one point are left out.  Its
    redo stack and its strokes in progress from other users are
    emptied. *)
Theorem joiner_canvas_shows_timeline (events : list server_event)
    (st : Server.t) (s R : string) (now : Z)
    (rnd : fin (length USER_COLORS)) (cm : CanvasManager.t) :
  server_run events Server.new = Some st →
  R ≠ "" →
  let tl := timeline R (Server.drawingStateManager st) in
  ∃ out st',
    Server.on_join_room s R now rnd st = Some (out, st')
    ∧ last out
      = Some (Server.ToSender, Server.MFullStateSync (mkFullState R tl))
    ∧ CanvasManager.strokes (Main.on_full_state_sync tl cm)
      = filter (λ s, 2 ≤ length (Stroke.path s)) tl
    ∧ CanvasManager.undoStack (Main.on_full_state_sync tl cm) = []
    ∧ CanvasManager.activeRemoteStrokes (Main.on_full_state_sync tl cm) = ∅.
Proof.
  intros Hrun HR tl.
  destruct (server_run_inv events Server.new st rm_basic_new
              owners_issued_new Hrun) as [Hb Hown].
  pose proof (server_run_drawing events Server.new st Hrun) as Hd.
  destruct (rm_basic_addUser s R now rnd _ Hb) as (u & rm' & Hadd & _).
  assert (Forall (λ s, Stroke.userId s ≠ "local"
                       ∧ truthy (Stroke.type s) = true) tl) as Hall.
  { apply Forall_forall. intros x Hx. split.
    - destruct (Hown R Timeline x Hx) as (k & t & -> & _).
      apply issued_not_local.
    - apply (stored_type_truthy (drawing_ops events Server.new) R Timeline).
      change (dsm_run (drawing_ops events Server.new) new)
        with (dsm_run (drawing_ops events Server.new)
                (Server.drawingStateManager Server.new)).
      by rewrite <- Hd. }
  eexists _, _. split; [|split].
  - unfold Server.on_join_room. rewrite falsy_str_nonempty by done.
    rewrite Hadd. cbn [mbind option_bind]. rewrite getFullState_eq.
    reflexivity.
  - done.
  - unfold Main.on_full_state_sync.
    rewrite complete_strokes_applied by done. done.
Qed.

Lemma joiner_canvas_shows_timeline_witness :
  server_run (take 2 sample_visit) Server.new = Some sample_alone
  ∧ "default" ≠ ""
  ∧ timeline "default" (Server.drawingStateManager sample_alone)
    = [Stroke.mk "stroke_1_1700000000002" "user_1_1700000000000"
         (JNum 1700000000001) (JStr "draw") (JStr "#000000") (JNum 5)
         [Point.mk (JNum 10) (JNum 20)]]
  ∧ CanvasManager.strokes
      (Main.on_full_state_sync
         (timeline "default" (Server.drawingStateManager sample_alone))
         sample_canvas)
    = filter (λ s, 2 ≤ length (Stroke.path s))
        (timeline "default" (Server.drawingStateManager sample_alone)).
Proof.
  assert (server_run (take 2 sample_visit) Server.new = Some sample_alone)
    as Hrun by (vm_compute; reflexivity).
  assert ("default" ≠ "") as HR by discriminate.
  split; [exact Hrun|]. split; [exact HR|].
  split; [vm_compute; reflexivity|].
  destruct (joiner_canvas_shows_timeline (take 2 sample_visit) sample_alone
              "socket_B" "default" 1700000000009 0%fin sample_canvas
              Hrun HR) as (out & st' & _ & _ & Hstrokes & _).
  exact Hstrokes.
Defined.

(** * The client: strokes of other users and the echo of its own *)

Lemma remote_updates_applied strokeId ps :
  ∀ cm s0,
    CanvasManager.activeRemoteStrokes cm !! strokeId = Some s0 →
    foldl (λ cm p,
             Main.on_stroke_update strokeId (Point.x p) (Point.y p) cm)
      cm ps
    = CanvasManager.mk (CanvasManager.isDrawing cm)
        (CanvasManager.currentPath cm) (CanvasManager.isEraserMode cm)
        (CanvasManager.currentColor cm) (CanvasManager.currentBrushSize cm)
        (CanvasManager.strokes cm) (CanvasManager.undoStack cm)
        (<[strokeId := foldl pushPoint s0 ps]>
           (CanvasManager.activeRemoteStrokes cm))
        (CanvasManager.onStrokeStart cm) (CanvasManager.onStrokeUpdate cm)
        (CanvasManager.onStrokeEnd cm).
Proof.
  induction ps as [|p ps IH]; intros cm s0 Hs0.
  - simpl. rewrite insert_id by done. by destruct cm.
  - cbn [foldl].
    unfold Main.on_stroke_update at 2,
      CanvasManager.applyRemoteStrokeUpdate.
    rewrite Hs0. cbn [Point.x Point.y]. rewrite point_eta.
    rewrite (IH _ (pushPoint s0 p))
      by (cbn [CanvasManager.activeRemoteStrokes];
          by rewrite lookup_insert_eq).
    cbn [CanvasManager.isDrawing CanvasManager.currentPath
         CanvasManager.isEraserMode CanvasManager.currentColor
         CanvasManager.currentBrushSize CanvasManager.strokes
         CanvasManager.undoStack CanvasManager.activeRemoteStrokes
         CanvasManager.onStrokeStart CanvasManager.onStrokeUpdate
         CanvasManager.onStrokeEnd].
    by rewrite insert_insert_eq.
Qed.

(** X28: a client receives the [stroke-start] of a stroke of another
    user, a [stroke-update] for each further point and the [stroke-end].
    The stroke, with type "draw" when it came without one, is added at the
    end of the history with its points in order when it has at least two
    of them, and dropped otherwise; afterwards no stroke is in progress
    under its id, and the redo stack and the stroke of the local user are
    as they were. *)
Theorem remote_stroke_replayed (me : option string) (data : Stroke.t)
    (ps : list Point.t) (cm : CanvasManager.t) :
  Some (Stroke.userId data) ≠ me →
  Stroke.userId data ≠ "local" →
  let full :=
    Stroke.mk (Stroke.id data) (Stroke.userId data) (Stroke.timestamp data)
      (js_or (Stroke.type data) (JStr "draw")) (Stroke.color data)
      (Stroke.size data) (Stroke.path data ++ ps) in
  let cm' := replayRemote me data ps cm in
  CanvasManager.strokes cm'
  = CanvasManager.strokes cm
    ++ (if decide (2 ≤ length (Stroke.path data ++ ps)) then [full] else [])
  ∧ CanvasManager.activeRemoteStrokes cm'
    = delete (Stroke.id data) (CanvasManager.activeRemoteStrokes cm)
  ∧ CanvasManager.undoStack cm' = CanvasManager.undoStack cm
  ∧ CanvasManager.currentPath cm' = CanvasManager.currentPath cm
  ∧ CanvasManager.isDrawing cm' = CanvasManager.isDrawing cm.
Proof.
  intros Hme Hloc full cm'. subst cm'. unfold replayRemote.
  unfold Main.on_stroke_start. rewrite decide_False by done.
  unfold CanvasManager.applyRemoteStrokeStart. rewrite decide_False by done.
  rewrite (remote_updates_applied _ ps _ (CanvasManager.remoteCopy data))
    by (cbn [CanvasManager.activeRemoteStrokes];
        by rewrite lookup_insert_eq).
  cbn [CanvasManager.isDrawing CanvasManager.currentPath
       CanvasManager.isEraserMode CanvasManager.currentColor
       CanvasManager.currentBrushSize CanvasManager.strokes
       CanvasManager.undoStack CanvasManager.activeRemoteStrokes
       CanvasManager.onStrokeStart CanvasManager.onStrokeUpdate
       CanvasManager.onStrokeEnd].
  unfold Main.on_stroke_end, CanvasManager.applyRemoteStrokeEnd.
  cbn [CanvasManager.activeRemoteStrokes].
  rewrite lookup_insert_eq, pushPoints_eq.
  cbn [CanvasManager.isDrawing CanvasManager.currentPath
       CanvasManager.strokes CanvasManager.undoStack
       CanvasManager.activeRemoteStrokes CanvasManager.remoteCopy
       Stroke.id Stroke.userId Stroke.timestamp Stroke.type Stroke.color
       Stroke.size Stroke.path].
  fold full. rewrite insert_insert_eq, delete_insert_eq.
  split; [|done]. case_decide.
  - done.
  - by rewrite app_nil_r.
Qed.

Lemma remote_stroke_replayed_witness :
  Some (Stroke.userId sample_echo) ≠ Some "user_2_1700000000009"
  ∧ Stroke.userId sample_echo ≠ "local"
  ∧ CanvasManager.strokes
      (replayRemote (Some "user_2_1700000000009") sample_echo [] sample_canvas)
    = [].
Proof.
  assert (Some (Stroke.userId sample_echo) ≠ Some "user_2_1700000000009")
    as Hme by discriminate.
  assert (Stroke.userId sample_echo ≠ "local") as Hloc by discriminate.
  split; [exact Hme|]. split; [exact Hloc|].
  exact (proj1 (remote_stroke_replayed (Some "user_2_1700000000009")
                  sample_echo [] sample_canvas Hme Hloc)).
Defined.

(** X29: the local user starts a stroke and, before moving on, receives
    the [stroke-start] that the server sends back for it.  The stroke
    being drawn takes the id given by the server and stays a stroke of
    "local": the update and end hooks are called with that id, the stroke
    is stored under it, and when no other stroke of the history has this
    id, the [undo] broadcast for it takes this stroke, and nothing else,
    out of the history. *)
Theorem own_stroke_takes_server_id (m : CanvasManager.t) (p0 : Point.t)
    (ps : list Point.t) (now_id : Z) (rnd : string) (now_ts : Z)
    (me : option string) (echo : Stroke.t) :
  me = Some (Stroke.userId echo) →
  ps ≠ [] →
  Forall (λ s, Stroke.id s ≠ Stroke.id echo) (CanvasManager.strokes m) →
  CanvasManager.onStrokeUpdate m = true →
  CanvasManager.onStrokeEnd m = true →
  let stroke path :=
    Stroke.mk (Stroke.id echo) "local" (JNum now_ts)
      (if CanvasManager.isEraserMode m then JStr "erase" else JStr "draw")
      (if CanvasManager.isEraserMode m then JNull
       else CanvasManager.currentColor m)
      (CanvasManager.currentBrushSize m) path in
  let r := drawEchoed p0 ps now_id rnd now_ts me echo m in
  r.1 = imap (λ i p,
                CanvasManager.OnStrokeUpdate
                  (stroke (p0 :: take (S i) ps)) p) ps
        ++ [CanvasManager.OnStrokeEnd (stroke (p0 :: ps))]
  ∧ CanvasManager.strokes r.2
    = CanvasManager.strokes m ++ [stroke (p0 :: ps)]
  ∧ CanvasManager.strokes (Main.on_undo (Stroke.id echo) r.2)
    = CanvasManager.strokes m.
Proof.
  intros -> Hps Hfresh Hu He stroke r. subst r. unfold drawEchoed.
  unfold CanvasManager.startStroke. rewrite point_eta. cbn [fst snd].
  change (js_or JNull (JNum now_ts)) with (JNum now_ts).
  unfold Main.on_stroke_start. rewrite decide_True by done.
  cbn [CanvasManager.isDrawing CanvasManager.currentPath
       CanvasManager.isEraserMode CanvasManager.currentColor
       CanvasManager.currentBrushSize CanvasManager.strokes
       CanvasManager.undoStack CanvasManager.activeRemoteStrokes
       CanvasManager.onStrokeStart CanvasManager.onStrokeUpdate
       CanvasManager.onStrokeEnd Stroke.id Stroke.userId Stroke.timestamp
       Stroke.type Stroke.color Stroke.size Stroke.path].
  rewrite decide_True by done. fold (stroke [p0]).
  match goal with
  | |- context [continueAll ps ?m1] =>
      destruct (continueAll_current ps m1 (stroke [p0])) as [H1 H2];
        [done..|]
  end.
  cbn [CanvasManager.isEraserMode CanvasManager.currentColor
       CanvasManager.currentBrushSize CanvasManager.strokes
       CanvasManager.undoStack CanvasManager.activeRemoteStrokes
       CanvasManager.onStrokeStart CanvasManager.onStrokeEnd] in H2.
  rewrite H1, H2. unfold CanvasManager.endStroke.
  cbn [CanvasManager.isDrawing CanvasManager.currentPath negb fst snd
       CanvasManager.onStrokeEnd CanvasManager.strokes].
  assert (∀ qs, foldl pushPoint (stroke [p0]) qs = stroke (p0 :: qs)) as Hp.
  { intros qs. by rewrite pushPoints_eq. }
  rewrite Hp, He. rewrite bool_decide_true by done. cbn [andb].
  rewrite decide_True by (destruct ps; [done|simpl; lia]).
  split; [|split; [done|]].
  - f_equal. apply imap_ext. intros i p _. by rewrite Hp.
  - unfold Main.on_undo. cbn [CanvasManager.strokes].
    pose proof (list_find_last_only (CanvasManager.strokes m)
                  (stroke (p0 :: ps)) Hfresh) as Hfind.
    change (Stroke.id (stroke (p0 :: ps))) with (Stroke.id echo) in Hfind.
    rewrite Hfind. cbn [CanvasManager.strokes].
    by rewrite delete_middle, app_nil_r.
Qed.

Lemma own_stroke_takes_server_id_witness :
  Some "user_1_1700000000000" = Some (Stroke.userId sample_echo)
  ∧ [Point.mk (JNum 11) (JNum 21)] ≠ []
  ∧ Forall (λ s, Stroke.id s ≠ Stroke.id sample_echo)
      (CanvasManager.strokes sample_canvas)
  ∧ CanvasManager.onStrokeUpdate sample_canvas = true
  ∧ CanvasManager.onStrokeEnd sample_canvas = true
  ∧ CanvasManager.strokes
      (drawEchoed (Point.mk (JNum 10) (JNum 20))
         [Point.mk (JNum 11) (JNum 21)] 1700000000000 "k3j9x0q2z"
         1700000000001 (Some "user_1_1700000000000") sample_echo
         sample_canvas).2
    = [Stroke.mk "stroke_1_1700000000002" "local" (JNum 1700000000001)
         (JStr "draw") (JStr "#000000") (JNum 5)
         [Point.mk (JNum 10) (JNum 20); Point.mk (JNum 11) (JNum 21)]].
Proof.
  assert (Some "user_1_1700000000000" = Some (Stroke.userId sample_echo))
    as Hme by reflexivity.
  assert ([Point.mk (JNum 11) (JNum 21)] ≠ []) as Hps by discriminate.
  assert (Forall (λ s, Stroke.id s ≠ Stroke.id sample_echo)
            (CanvasManager.strokes sample_canvas)) as Hfresh
    by (simpl; constructor).
  assert (CanvasManager.onStrokeUpdate sample_canvas = true) as Hu
    by reflexivity.
  assert (CanvasManager.onStrokeEnd sample_canvas = true) as He
    by reflexivity.
  split; [exact Hme|]. split; [exact Hps|]. split; [exact Hfresh|].
  split; [exact Hu|]. split; [exact He|].
  exact (proj1 (proj2 (own_stroke_takes_server_id sample_canvas
                         (Point.mk (JNum 10) (JNum 20))
                         [Point.mk (JNum 11) (JNum 21)] 1700000000000
                         "k3j9x0q2z" 1700000000001
                         (Some "user_1_1700000000000") sample_echo
                         Hme Hps Hfresh Hu He))).
Defined.

(** * The client: undo and redo of the canvas *)

Lemma take_pred_snoc {A} (l : list A) (x : A) :
  take (pred (length (l ++ [x]))) (l ++ [x]) = l.
Proof.
  rewrite length_app. simpl. rewrite Nat.add_1_r. simpl.
  by rewrite take_app_length.
Qed.

Lemma canvas_undo_snoc m l s :
  CanvasManager.strokes m = l ++ [s] →
  CanvasManager.undo m
  = (true,
     CanvasManager.mk (CanvasManager.isDrawing m)
       (CanvasManager.currentPath m) (CanvasManager.isEraserMode m)
       (CanvasManager.currentColor m) (CanvasManager.currentBrushSize m)
       l (CanvasManager.undoStack m ++ [s])
       (CanvasManager.activeRemoteStrokes m)
       (CanvasManager.onStrokeStart m) (CanvasManager.onStrokeUpdate m)
       (CanvasManager.onStrokeEnd m)).
Proof.
  intros Hl. unfold CanvasManager.undo.
  by rewrite Hl, last_snoc, take_pred_snoc.
Qed.

Lemma canvas_redo_snoc m l s :
  CanvasManager.undoStack m = l ++ [s] →
  CanvasManager.redo m
  = (true,
     CanvasManager.mk (CanvasManager.isDrawing m)
       (CanvasManager.currentPath m) (CanvasManager.isEraserMode m)
       (CanvasManager.currentColor m) (CanvasManager.currentBrushSize m)
       (CanvasManager.strokes m ++ [s]) l
       (CanvasManager.activeRemoteStrokes m)
       (CanvasManager.onStrokeStart m) (CanvasManager.onStrokeUpdate m)
       (CanvasManager.onStrokeEnd m)).
Proof.
  intros Hl. unfold CanvasManager.redo.
  by rewrite Hl, last_snoc, take_pred_snoc.
Qed.

Lemma canvas_eta (m : CanvasManager.t) :
  CanvasManager.mk (CanvasManager.isDrawing m)
    (CanvasManager.currentPath m) (CanvasManager.isEraserMode m)
    (CanvasManager.currentColor m) (CanvasManager.currentBrushSize m)
    (CanvasManager.strokes m) (CanvasManager.undoStack m)
    (CanvasManager.activeRemoteStrokes m)
    (CanvasManager.onStrokeStart m) (CanvasManager.onStrokeUpdate m)
    (CanvasManager.onStrokeEnd m) = m.
Proof. by destruct m. Qed.

(** X30: on the canvas of the client, [undo] and [redo] succeed exactly
    when [canUndo] and [canRedo] say so, and a call that fails changes
    nothing.  An [undo] moves the last stroke of the history to the redo
    stack, and a [redo] right after it gives back the canvas as it was; a
    [redo] followed by an [undo] does the same.  After the local user has
    started a stroke, nothing can be redone. *)
Theorem canvas_undo_redo_inverse (m : CanvasManager.t) (px py : jsval)
    (now_id : Z) (rnd : string) (now_ts : Z) :
  (CanvasManager.undo m).1 = CanvasManager.canUndo m
  ∧ (CanvasManager.redo m).1 = CanvasManager.canRedo m
  ∧ (CanvasManager.canUndo m = false → (CanvasManager.undo m).2 = m)
  ∧ (CanvasManager.canRedo m = false → (CanvasManager.redo m).2 = m)
  ∧ (CanvasManager.canUndo m = true →
     CanvasManager.redo (CanvasManager.undo m).2 = (true, m))
  ∧ (CanvasManager.canRedo m = true →
     CanvasManager.undo (CanvasManager.redo m).2 = (true, m))
  ∧ CanvasManager.canRedo
      (CanvasManager.startStroke px py None None JNull now_id rnd now_ts
         m).2
    = false.
Proof.
  unfold CanvasManager.canUndo, CanvasManager.canRedo.
  split_and!.
  - unfold CanvasManager.undo.
    destruct (CanvasManager.strokes m) as [|s l] using rev_ind; [done|].
    rewrite last_snoc, length_app. simpl.
    symmetry. apply bool_decide_eq_true. lia.
  - unfold CanvasManager.redo.
    destruct (CanvasManager.undoStack m) as [|s l] using rev_ind; [done|].
    rewrite last_snoc, length_app. simpl.
    symmetry. apply bool_decide_eq_true. lia.
  - intros Hno. apply bool_decide_eq_false in Hno.
    unfold CanvasManager.undo.
    destruct (CanvasManager.strokes m) as [|s l]; [done|].
    simpl in Hno. lia.
  - intros Hno. apply bool_decide_eq_false in Hno.
    unfold CanvasManager.redo.
    destruct (CanvasManager.undoStack m) as [|s l]; [done|].
    simpl in Hno. lia.
  - intros Hcan. apply bool_decide_eq_true in Hcan.
    destruct (CanvasManager.strokes m) as [|s l _] eqn:Hl using rev_ind;
      [simpl in Hcan; lia|].
    rewrite (canvas_undo_snoc m l s Hl). cbn [snd].
    rewrite (canvas_redo_snoc _ (CanvasManager.undoStack m) s)
      by reflexivity.
    cbn [CanvasManager.isDrawing CanvasManager.currentPath
         CanvasManager.isEraserMode CanvasManager.currentColor
         CanvasManager.currentBrushSize CanvasManager.strokes
         CanvasManager.undoStack CanvasManager.activeRemoteStrokes
         CanvasManager.onStrokeStart CanvasManager.onStrokeUpdate
         CanvasManager.onStrokeEnd].
    by rewrite <- Hl, canvas_eta.
  - intros Hcan. apply bool_decide_eq_true in Hcan.
    destruct (CanvasManager.undoStack m) as [|s l _] eqn:Hl using rev_ind;
      [simpl in Hcan; lia|].
    rewrite (canvas_redo_snoc m l s Hl). cbn [snd].
    rewrite (canvas_undo_snoc _ (CanvasManager.strokes m) s)
      by reflexivity.
    cbn [CanvasManager.isDrawing CanvasManager.currentPath
         CanvasManager.isEraserMode CanvasManager.currentColor
         CanvasManager.currentBrushSize CanvasManager.strokes
         CanvasManager.undoStack CanvasManager.activeRemoteStrokes
         CanvasManager.onStrokeStart CanvasManager.onStrokeUpdate
         CanvasManager.onStrokeEnd].
    by rewrite <- Hl, canvas_eta.
  - done.
Qed.

Lemma canvas_undo_redo_inverse_witness :
  CanvasManager.canUndo sample_drawn = true
  ∧ CanvasManager.redo (CanvasManager.undo sample_drawn).2
    = (true, sample_drawn).
Proof.
  assert (CanvasManager.canUndo sample_drawn = true) as Hcan
    by (vm_compute; reflexivity).
  split; [exact Hcan|].
  exact (proj1 (proj2 (proj2 (proj2 (proj2
           (canvas_undo_redo_inverse sample_drawn (JNum 0) (JNum 0) 0
              "k3j9x0q2z" 0))))) Hcan).
Defined.

(** * The drawing of a room after its last member has left *)

Lemma dsm_step_keeps_room m o R :
  not_clearRoom o →
  is_Some (roomStates m !! R) → is_Some (roomStates (dsm_step m o) !! R).
Proof.
  intros Ho HR.
  destruct o as [r d t1 t2|r i px py|r i|r v|r v|r|r]; simpl; [..|done].
  - unfold addStroke, _getRoomState, _generateStrokeId.
    destruct (roomStates m !! r) as [rs|] eqn:Hrs; simpl;
      rewrite !lookup_insert_is_Some;
      destruct (decide (r = R)) as [->|Hne]; auto.
  - destruct (updateStroke_cases r i px py m)
      as [[-> _]|(rs & j & s & Hrs & _ & ->)]; [done|]. simpl.
    rewrite lookup_insert_is_Some.
    destruct (decide (r = R)) as [->|Hne]; auto.
  - done.
  - destruct (undo r v m) as [[s|] m'] eqn:Hundo; simpl.
    + apply undo_Some in Hundo as (rs & l1 & l2 & Hrs & _ & _ & _ & ->).
      simpl. rewrite lookup_insert_is_Some.
      destruct (decide (r = R)) as [->|Hne]; auto.
    + by apply undo_None in Hundo as [-> _].
  - destruct (redo_cases r v m) as [->|(rs & stack & s & Hrs & Hst)];
      [done|].
    rewrite (redo_top r v m rs stack s Hrs Hst). simpl.
    rewrite lookup_insert_is_Some.
    destruct (decide (r = R)) as [->|Hne]; auto.
  - by rewrite getFullState_state.
Qed.

Lemma dsm_run_keeps_room ops :
  ∀ m R,
    Forall not_clearRoom ops →
    is_Some (roomStates m !! R) → is_Some (roomStates (dsm_run ops m) !! R).
Proof.
  induction ops as [|o ops IH]; intros m R Hops HR; [done|].
  apply Forall_cons in Hops as [Ho Hops].
  apply (IH (dsm_step m o) R Hops). by apply dsm_step_keeps_room.
Qed.

(** No handler calls [clearRoom]. *)
Lemma dsm_ops_of_not_clearRoom rm e : Forall not_clearRoom (dsm_ops_of rm e).
Proof.
  destruct e as [s R t k|s R px py c sz ty t1 t2 t3|R i px py|R i
                |s R px py|s R|s R|s|nm s]; simpl; try by constructor.
  - destruct (falsy_str R); [constructor|].
    destruct (RoomManager.getUser s rm); by repeat constructor.
  - destruct (falsy_str R || falsy_str i); by repeat constructor.
  - destruct (falsy_str R); [constructor|].
    destruct (RoomManager.getUser s rm); by repeat constructor.
  - destruct (falsy_str R); [constructor|].
    destruct (RoomManager.getUser s rm); by repeat constructor.
Qed.

Lemma drawing_ops_not_clearRoom events :
  ∀ st, Forall not_clearRoom (drawing_ops events st).
Proof.
  induction events as [|e events IH]; intros st; [constructor|].
  cbn [drawing_ops]. apply Forall_app. split; [|apply IH].
  apply dsm_ops_of_not_clearRoom.
Qed.

Lemma drawing_ops_nil events :
  ∀ st,
    Forall (λ e, drawing_event e = false) events →
    drawing_ops events st = [].
Proof.
  induction events as [|e events IH]; intros st Hall; [done|].
  apply Forall_cons in Hall as [He Hall].
  cbn [drawing_ops]. rewrite (IH _ Hall), app_nil_r.
  by destruct e.
Qed.

Lemma addUser_absent_room s R now rnd m :
  RoomManager.rooms m !! R = None →
  ∃ u m', RoomManager.addUser s R now rnd m = Some (u, m').
Proof.
  intros HR. unfold RoomManager.addUser. rewrite HR.
  cbn zeta. rewrite !lookup_insert_eq. cbn [mbind option_bind].
  by eexists _, _.
Qed.

(** C1, as the code has it: when the only member of a room disconnects,
    the registry drops the room (its member set and its used colours; the
    member count is 0), but the handler does not touch the drawing state:
    [getFullState] of the room returns what it returned before, and the
    next [join-room] for the same key succeeds and is sent that state.
    Whatever events follow, no handler deletes the state of a room (a room
    that has a state keeps one), and when none of them is a
    [stroke-start], [stroke-update], [undo] or [redo], the whole drawing
    state is still as it was before the leave.  [clearRoom] does delete
    the state of the room: after it the snapshot of the room is empty. *)
Theorem last_leave_keeps_drawing (st : Server.t) (socketId : string)
    (user : User.t) :
  RoomManager.users (Server.roomManager st) !! socketId = Some user →
  RoomManager.rooms (Server.roomManager st) !! User.roomId user
    = Some [socketId] →
  let R := User.roomId user in
  ∃ out st',
    Server.on_disconnect socketId st = Some (out, st')
    ∧ RoomManager.rooms (Server.roomManager st') !! R = None
    ∧ RoomManager.roomColors (Server.roomManager st') !! R = None
    ∧ RoomManager.getRoomUserCount R (Server.roomManager st') = 0
    ∧ Server.drawingStateManager st' = Server.drawingStateManager st
    ∧ (∀ s2 now rnd,
         R ≠ "" →
         ∃ out2 st2,
           Server.on_join_room s2 R now rnd st' = Some (out2, st2)
           ∧ last out2
             = Some (Server.ToSender,
                     Server.MFullStateSync
                       (getFullState R (Server.drawingStateManager st)).1)
           ∧ Server.drawingStateManager st2
             = Server.drawingStateManager st)
    ∧ (∀ events st2,
         server_run events st' = Some st2 →
         (∀ R', is_Some (roomStates (Server.drawingStateManager st) !! R') →
                is_Some (roomStates (Server.drawingStateManager st2) !! R'))
         ∧ (Forall (λ e, drawing_event e = false) events →
            Server.drawingStateManager st2 = Server.drawingStateManager st))
    ∧ fs_strokes
        (getFullState R (clearRoom R (Server.drawingStateManager st'))).1
      = [].
Proof.
  intros Huser Hroom R. subst R. set (R := User.roomId user) in *.
  set (rm' := RoomManager.mk
                (delete socketId (RoomManager.users (Server.roomManager st)))
                (delete R (RoomManager.rooms (Server.roomManager st)))
                (delete R (RoomManager.roomColors (Server.roomManager st)))
                (RoomManager.userIdCounter (Server.roomManager st))).
  assert (RoomManager.removeUser socketId (Server.roomManager st) = Some rm')
    as Hrem.
  { unfold RoomManager.removeUser. rewrite Huser. cbn zeta. fold R.
    rewrite Hroom.
    assert (RoomManager.set_delete socketId [socketId] = []) as ->.
    { unfold RoomManager.set_delete. rewrite filter_cons. by case_decide. }
    by rewrite decide_True. }
  exists [(Server.ToRoomExceptSender R,
           Server.MUserLeft (User.userId user) 0)],
         (Server.mk rm' (Server.drawingStateManager st)).
  assert (RoomManager.rooms rm' !! R = None) as Hnone
    by (unfold rm'; cbn [RoomManager.rooms]; by rewrite lookup_delete_eq).
  split; [|split; [done|split; [|split; [|split; [done|split; [|split]]]]]].
  - unfold Server.on_disconnect, RoomManager.getUser.
    rewrite Huser. cbn zeta. fold R. rewrite Hrem.
    cbn [mbind option_bind]. unfold RoomManager.getRoomUserCount.
    by rewrite Hnone.
  - unfold rm'. cbn [Server.roomManager RoomManager.roomColors].
    by rewrite lookup_delete_eq.
  - cbn [Server.roomManager]. unfold RoomManager.getRoomUserCount.
    by rewrite Hnone.
  - intros s2 now rnd HR.
    destruct (addUser_absent_room s2 R now rnd rm' Hnone)
      as (u2 & rm2 & Hadd).
    unfold Server.on_join_room. rewrite falsy_str_false by done.
    cbn [Server.roomManager Server.drawingStateManager]. rewrite Hadd.
    cbn [mbind option_bind]. rewrite !getFullState_eq.
    eexists _, _. split; [reflexivity|]. split; reflexivity.
  - intros events st2 Hrun.
    pose proof (server_run_drawing events _ st2 Hrun) as Hd.
    cbn [Server.drawingStateManager] in Hd. split.
    + intros R' HR'. rewrite Hd. apply dsm_run_keeps_room; [|done].
      apply drawing_ops_not_clearRoom.
    + intros Hall. by rewrite Hd, drawing_ops_nil.
  - rewrite getFullState_strokes. unfold timeline, clearRoom; simpl.
    by rewrite lookup_delete_eq.
Qed.

Lemma last_leave_keeps_drawing_witness :
  RoomManager.users (Server.roomManager sample_alone) !! "socket_A"
    = Some sample_user
  ∧ RoomManager.rooms (Server.roomManager sample_alone) !! "default"
    = Some ["socket_A"]
  ∧ ∃ out st',
      Server.on_disconnect "socket_A" sample_alone = Some (out, st')
      ∧ Server.drawingStateManager st'
        = Server.drawingStateManager sample_alone
      ∧ ∃ out2 st2,
          Server.on_join_room "socket_B" "default" 1700000000004 0%fin st'
          = Some (out2, st2).
Proof.
  assert (RoomManager.users (Server.roomManager sample_alone) !! "socket_A"
          = Some sample_user) as Huser by (vm_compute; reflexivity).
  assert (RoomManager.rooms (Server.roomManager sample_alone)
            !! User.roomId sample_user = Some ["socket_A"]) as Hroom
    by (vm_compute; reflexivity).
  split; [exact Huser|]. split; [exact Hroom|].
  destruct (last_leave_keeps_drawing sample_alone "socket_A" sample_user
              Huser Hroom)
    as (out & st' & Hdisc & _ & _ & _ & Hdsm & Hjoin & _).
  exists out, st'. split; [exact Hdisc|]. split; [exact Hdsm|].
  destruct (Hjoin "socket_B" 1700000000004%Z 0%fin)
    as (out2 & st2 & Hj & _); [discriminate|].
  by exists out2, st2.
Defined.

(** C1, counterexample: after the only member of room "default" has
    left, the registry has no member for the room, and the connection that
    joins next is sent the stroke drawn before. *)
Lemma room_deletion_counterexample :
  (st ← server_run sample_visit Server.new;
   r ← Server.on_join_room "socket_B" "default" 1700000000004 0%fin st;
   Some (RoomManager.getRoomUserCount "default" (Server.roomManager st),
         RoomManager.rooms (Server.roomManager st) !! "default",
         last r.1))
  = Some (0, None,
          Some (Server.ToSender,
                Server.MFullStateSync
                  (mkFullState "default"
                     [Stroke.mk "stroke_1_1700000000002"
                        "user_1_1700000000000" (JNum 1700000000001)
                        (JStr "draw") (JStr "#000000") (JNum 5)
                        [Point.mk (JNum 10) (JNum 20)]]))).
Proof. vm_compute. reflexivity. Qed.
